(** * Student Career Success Predictor: inference and model lifecycle

    A shallow embedding of the prediction service (the Python back end
    described in the technical guide), of the scikit-learn pipeline that
    [create_ml_pipeline] assembles, and of the React components
    [PredictionForm] and [Dashboard], followed by the properties the
    specification states about them.

    Numbers.  Python [float] and JavaScript [number] values are embedded as
    exact rationals ([Q]); a JavaScript number additionally may be [NaN] or
    an infinity.  Rounding, overflow and underflow of binary64 arithmetic
    are outside the embedding: every operation below is the exact one.
    So the two probabilities of a forest add up to exactly 1 here, and the
    confidence is exactly twice the distance of the probability from 0.5,
    where the computed values can differ from these in the last places.
    What is stated about a label, a badge or another discrete result is
    therefore stated on the values the code compares.
    Equality of rationals is [Qeq] (written [==]). *)

From Stdlib Require Import QArith Qabs ZArith List String Ascii Bool Lia Lqa.
From stdpp Require Import base option list strings gmap sorting.
Import ListNotations.

Open Scope Q_scope.

(** ** Outcomes of fallible code

    A Python call either returns or raises; the exceptions that can leave
    the modelled code are listed in [error]. *)

Inductive error : Type :=
  | ModelNotTrainedError
  | ValidationError (errs : list (string * string))
  | ValueError (msg : string)
  | IndexError.

Inductive result (A : Type) : Type :=
  | Ok (a : A)
  | Raise (e : error).

Arguments Ok {A} a.
Arguments Raise {A} e.

Definition is_Ok {A} (r : result A) : bool :=
  match r with Ok _ => true | Raise _ => false end.

(** ** Arithmetic on columns *)

Definition Qsum (l : list Q) : Q := fold_right Qplus 0 l.

Definition Qlen {A} (l : list A) : Q := inject_Z (Z.of_nat (length l)).

Definition Qmean (l : list Q) : Q := Qsum l / Qlen l.

Definition Qsquare (x : Q) : Q := x * x.

(** Population variance, as [numpy.var] with [ddof=0]. *)
Definition Qvar (l : list Q) : Q :=
  let m := Qmean l in Qmean (map (fun x => Qsquare (x - m)) l).

(** ** The preprocessing steps of [create_ml_pipeline]

    [numerical_pipeline] is [SimpleImputer(strategy='mean')] followed by
    [StandardScaler()]; [categorical_pipeline] is
    [SimpleImputer(strategy='most_frequent')] followed by
    [OneHotEncoder(handle_unknown='ignore')].  Each step is fitted per
    column, so the embedding fits and applies one column at a time.  A cell
    of a column is [None] when the value is missing. *)

Module Preprocessing.

Section Numerical.

(** The square root used for [scale_ = sqrt(var_)]; rationals are not
    closed under it, so it is a parameter of fitting. *)
Variable sqrt : Q -> Q.

(** [SimpleImputer(strategy='mean').fit]: the mean of the values that
    are present; [None] when the column holds no value at all (the
    statistic is NaN and the column is dropped by [transform]). *)
Definition mean_imputer_fit (col : list (option Q)) : option Q :=
  match omap id col with
  | [] => None
  | xs => Some (Qmean xs)
  end.

Definition mean_imputer_transform (stat : Q) (x : option Q) : Q :=
  match x with Some v => v | None => stat end.

(** [StandardScaler]: [var_] is the population variance; a zero
    variance gets the scaling factor 1 ("the data is left as-is"),
    any other one its square root. *)
Record StandardScaler := {
  mean_ : Q;
  var_ : Q;
  scale_ : Q
}.

Definition handle_zeros_in_scale (var : Q) : Q :=
  if Qeq_bool var 0 then 1 else sqrt var.

Definition scaler_fit (xs : list Q) : StandardScaler :=
  {| mean_ := Qmean xs;
     var_ := Qvar xs;
     scale_ := handle_zeros_in_scale (Qvar xs) |}.

Definition scaler_transform (sc : StandardScaler) (x : Q) : Q :=
  (x - mean_ sc) / scale_ sc.

(** One numeric column of [numerical_pipeline] after fitting. *)
Record NumericColumn := {
  statistics_ : Q;
  scaler : StandardScaler
}.

Definition numerical_fit (col : list (option Q)) : option NumericColumn :=
  match mean_imputer_fit col with
  | None => None
  | Some stat =>
      Some {| statistics_ := stat;
              scaler := scaler_fit (map (mean_imputer_transform stat) col) |}
  end.

End Numerical.

(** The standard deviation of a feature on the training partition: it is
    zero exactly when the variance of the imputed column is. *)
Definition std_is_zero (nc : NumericColumn) : Prop := var_ (scaler nc) == 0.

Definition numerical_transform (nc : NumericColumn) (x : option Q) : Q :=
  scaler_transform (scaler nc) (mean_imputer_transform (statistics_ nc) x).

(** A column whose present values all equal [c]. *)
Definition constant (c : Q) (col : list (option Q)) : Prop :=
  Forall (fun x => match x with Some v => v == c | None => True end) col.

(** A column that was dropped at fitting contributes no output. *)
Definition numerical_cell (nc : option NumericColumn) (x : option Q) : list Q :=
  match nc with
  | None => []
  | Some c => [numerical_transform c x]
  end.

(** *** Categorical columns *)

Fixpoint insert_sorted (s : string) (l : list string) : list string :=
  match l with
  | [] => [s]
  | h :: t =>
      if String.eqb s h then l
      else if String.ltb s h then s :: l
      else h :: insert_sorted s t
  end.

(** Sorted distinct values, as [numpy.unique]. *)
Definition unique (l : list string) : list string :=
  fold_right insert_sorted [] l.

Definition count_occ_str (s : string) (l : list string) : nat :=
  length (List.filter (String.eqb s) l).

(** [SimpleImputer(strategy='most_frequent').fit]: the most frequent
    present value, the smallest one among equally frequent values. *)
Definition most_frequent_fit (col : list (option string)) : option string :=
  let xs := omap id col in
  fold_left
    (fun best c =>
       match best with
       | None => Some c
       | Some b =>
           if Nat.ltb (count_occ_str b xs) (count_occ_str c xs)
           then Some c else Some b
       end)
    (unique xs) None.

Definition most_frequent_transform (stat : string) (x : option string) : string :=
  match x with Some v => v | None => stat end.

Inductive HandleUnknown := HandleError | HandleIgnore.

Record OneHotEncoder := {
  handle_unknown : HandleUnknown;
  categories_ : list string
}.

Definition onehot_fit (hu : HandleUnknown) (xs : list string) : OneHotEncoder :=
  {| handle_unknown := hu; categories_ := unique xs |}.

Definition known (enc : OneHotEncoder) (v : string) : bool :=
  existsb (String.eqb v) (categories_ enc).

Definition indicator (enc : OneHotEncoder) (v : string) : list Q :=
  map (fun c => if String.eqb c v then 1 else 0) (categories_ enc).

(** [OneHotEncoder.transform]: an unknown category raises under
    [handle_unknown='error'] and is encoded as zeros under ['ignore']. *)
Definition onehot_transform (enc : OneHotEncoder) (v : string) : result (list Q) :=
  if known enc v then Ok (indicator enc v)
  else match handle_unknown enc with
       | HandleError => Raise (ValueError "Found unknown categories")
       | HandleIgnore => Ok (indicator enc v)
       end.

Record CategoricalColumn := {
  most_frequent : string;
  onehot : OneHotEncoder
}.

Definition categorical_fit (hu : HandleUnknown) (col : list (option string))
  : option CategoricalColumn :=
  match most_frequent_fit col with
  | None => None
  | Some stat =>
      Some {| most_frequent := stat;
              onehot := onehot_fit hu (map (most_frequent_transform stat) col) |}
  end.

Definition categorical_transform (cc : CategoricalColumn) (x : option string)
  : result (list Q) :=
  onehot_transform (onehot cc) (most_frequent_transform (most_frequent cc) x).

Definition categorical_cell (cc : option CategoricalColumn) (x : option string)
  : result (list Q) :=
  match cc with
  | None => Ok []
  | Some c => categorical_transform c x
  end.

End Preprocessing.

(** ** Data frames

    A row of a pandas [DataFrame] (and the dictionary [model_dump()]
    produces) maps column names to cells; a missing value is an absent
    key. *)

Inductive cell : Type :=
  | Num (q : Q)
  | Str (s : string).

Abbreviation Row := (gmap string cell).

Definition DataFrame := list Row.

Definition num_cell (name : string) (r : Row) : option Q :=
  match r !! name with
  | Some (Num q) => Some q
  | _ => None
  end.

Definition str_cell (name : string) (r : Row) : option string :=
  match r !! name with
  | Some (Str s) => Some s
  | _ => None
  end.

Definition numerical_features : list string :=
  ["University_GPA"; "Soft_Skills_Score"; "Networking_Score";
   "Internships_Completed"]%string.

Definition categorical_features : list string :=
  ["Field_of_Study"; "Gender"]%string.

(** ** The random forest

    A fitted [RandomForestClassifier]: its trees and the class labels seen
    at fitting, in increasing order.  A leaf holds the per-class weights of
    the training samples that reached it; a split holds the feature it
    tests, the threshold, and the weighted decrease of impurity it
    achieved at fitting. *)

Module Forest.

Inductive tree : Type :=
  | Leaf (value : list Q)
  | Split (feature : nat) (threshold : Q) (impurity_decrease : Q)
          (children_left children_right : tree).

Fixpoint apply (t : tree) (x : list Q) : list Q :=
  match t with
  | Leaf value => value
  | Split feature threshold _ children_left children_right =>
      if Qle_bool (nth feature x 0) threshold
      then apply children_left x else apply children_right x
  end.

(** [DecisionTreeClassifier.predict_proba]: the leaf's weights divided by
    their sum, a zero sum being replaced by 1. *)
Definition tree_predict_proba (t : tree) (x : list Q) : list Q :=
  let value := apply t x in
  let normalizer := Qsum value in
  let normalizer := if Qeq_bool normalizer 0 then 1 else normalizer in
  map (fun c => c / normalizer) value.

Fixpoint vadd (a b : list Q) : list Q :=
  match a, b with
  | x :: a', y :: b' => (x + y) :: vadd a' b'
  | _, _ => []
  end.

Record RandomForestClassifier := {
  estimators_ : list tree;
  classes_ : list Z
}.

(** [ForestClassifier.predict_proba]: the mean of the trees' class
    probabilities.  The mean is the exact one: the probabilities of the
    classes add up to exactly 1, which the computed ones do up to
    rounding only. *)
Definition predict_proba (rf : RandomForestClassifier) (x : list Q) : list Q :=
  let all_proba :=
    fold_left (fun acc t => vadd acc (tree_predict_proba t x))
              (estimators_ rf)
              (repeat 0 (length (classes_ rf))) in
  map (fun s => s / Qlen (estimators_ rf)) all_proba.

Definition Qlt_bool (x y : Q) : bool := negb (Qle_bool y x).

(** [numpy.argmax]: the index of the first occurrence of the maximum. *)
Fixpoint argmax_from (best_i : nat) (best : Q) (i : nat) (l : list Q) : nat :=
  match l with
  | [] => best_i
  | x :: t =>
      if Qlt_bool best x then argmax_from i x (S i) t
      else argmax_from best_i best (S i) t
  end.

Definition argmax (l : list Q) : nat :=
  match l with
  | [] => 0%nat
  | x :: t => argmax_from 0 x 1 t
  end.

(** [ForestClassifier.predict]:
    [classes_.take(argmax(predict_proba(X), axis=1))]. *)
Definition predict (rf : RandomForestClassifier) (x : list Q) : Z :=
  nth (argmax (predict_proba rf x)) (classes_ rf) 0%Z.

(** *** Feature importances

    The importance of a feature in a tree is the sum of the impurity
    decreases of the splits on it, normalised over the features when the
    total is positive.  The forest averages the importances of its
    trees that have more than one node and normalises the average; when
    no tree has a split the importances are all zero. *)

Fixpoint add_at (i : nat) (d : Q) (v : list Q) : list Q :=
  match v, i with
  | [], _ => []
  | x :: t, O => (x + d) :: t
  | x :: t, S j => x :: add_at j d t
  end.

Fixpoint impurity_decreases (n_features : nat) (t : tree) : list Q :=
  match t with
  | Leaf _ => repeat 0 n_features
  | Split feature _ decrease children_left children_right =>
      add_at feature decrease
        (vadd (impurity_decreases n_features children_left)
              (impurity_decreases n_features children_right))
  end.

Definition normalize (v : list Q) : list Q :=
  let normalizer := Qsum v in
  if Qlt_bool 0 normalizer then map (fun x => x / normalizer) v else v.

Definition tree_feature_importances (n_features : nat) (t : tree) : list Q :=
  normalize (impurity_decreases n_features t).

Definition has_split (t : tree) : bool :=
  match t with Leaf _ => false | Split _ _ _ _ _ => true end.

Definition feature_importances_ (rf : RandomForestClassifier) (n_features : nat)
  : list Q :=
  let all_importances :=
    map (tree_feature_importances n_features)
        (List.filter has_split (estimators_ rf)) in
  match all_importances with
  | [] => repeat 0 n_features
  | _ =>
      let mean :=
        map (fun s => s / Qlen all_importances)
            (fold_left vadd all_importances (repeat 0 n_features)) in
      map (fun x => x / Qsum mean) mean
  end.

(** Trees as fitting builds them: every split is on one of the
    [n_features] columns and did not increase the impurity. *)
Fixpoint attributed (n_features : nat) (t : tree) : bool :=
  match t with
  | Leaf _ => true
  | Split feature _ decrease children_left children_right =>
      Nat.ltb feature n_features && Qle_bool 0 decrease &&
      attributed n_features children_left &&
      attributed n_features children_right
  end.

(** Some tree of the forest has a split that decreased the impurity. *)
Definition informative (n_features : nat) (rf : RandomForestClassifier) : bool :=
  existsb (fun t => Qlt_bool 0 (Qsum (impurity_decreases n_features t)))
          (estimators_ rf).

(** A tree of a two-class forest: every leaf holds two non-negative
    weights, not both zero. *)
Fixpoint binary_tree (t : tree) : bool :=
  match t with
  | Leaf [a; b] => Qle_bool 0 a && Qle_bool 0 b && Qlt_bool 0 (a + b)
  | Leaf _ => false
  | Split _ _ _ children_left children_right =>
      binary_tree children_left && binary_tree children_right
  end.

(** A forest fitted on labels 0 and 1 with at least one tree. *)
Definition binary_forest (rf : RandomForestClassifier) : bool :=
  bool_decide (classes_ rf = [0; 1]%Z) &&
  negb (Nat.eqb (length (estimators_ rf)) 0) &&
  forallb binary_tree (estimators_ rf).

End Forest.

(** ** The fitted pipeline

    [ColumnTransformer] applies [numerical_pipeline] to the numerical
    features and [categorical_pipeline] to the categorical ones and
    concatenates the outputs in that order; the other columns are
    dropped. *)

Module Sklearn.
Import Preprocessing.

Record ColumnTransformer := {
  num : list (string * option NumericColumn);
  cat : list (string * option CategoricalColumn)
}.

Definition column_fit {A B} (get : string -> Row -> option A)
    (fit : list (option A) -> B) (X : DataFrame) (name : string) : string * B :=
  (name, fit (map (get name) X)).

(** The pipeline before fitting: the columns each sub-pipeline is applied
    to, the policy of the one-hot encoder, and the parameters of the
    forest. *)
Record UnfittedPipeline := {
  num_columns : list string;
  cat_columns : list string;
  onehot_handle_unknown : HandleUnknown;
  n_estimators : nat;
  max_depth : nat;
  min_samples_split : nat;
  random_state : nat
}.

Definition create_ml_pipeline : UnfittedPipeline :=
  {| num_columns := numerical_features;
     cat_columns := categorical_features;
     onehot_handle_unknown := HandleIgnore;
     n_estimators := 200;
     max_depth := 10;
     min_samples_split := 5;
     random_state := 42 |}.

(** Fitting the preprocessor of [create_ml_pipeline] on the training
    partition. *)
Definition preprocessor_fit (sqrt : Q -> Q) (X_train : DataFrame) : ColumnTransformer :=
  {| num := map (column_fit num_cell (numerical_fit sqrt) X_train)
                (num_columns create_ml_pipeline);
     cat := map (column_fit str_cell
                   (categorical_fit (onehot_handle_unknown create_ml_pipeline))
                   X_train)
                (cat_columns create_ml_pipeline) |}.

Fixpoint concat_results (l : list (result (list Q))) : result (list Q) :=
  match l with
  | [] => Ok []
  | Raise e :: _ => Raise e
  | Ok v :: t =>
      match concat_results t with
      | Ok vs => Ok (v ++ vs)
      | Raise e => Raise e
      end
  end.

Definition num_block (ct : ColumnTransformer) (r : Row) : list Q :=
  concat (map (fun c => numerical_cell (snd c) (num_cell (fst c) r)) (num ct)).

Definition cat_blocks (ct : ColumnTransformer) (r : Row) : list (result (list Q)) :=
  map (fun c => categorical_cell (snd c) (str_cell (fst c) r)) (cat ct).

Definition preprocessor_transform (ct : ColumnTransformer) (r : Row)
  : result (list Q) :=
  match concat_results (cat_blocks ct r) with
  | Ok cs => Ok (num_block ct r ++ cs)
  | Raise e => Raise e
  end.

(** The number of columns of the encoding. *)
Definition n_features_out (ct : ColumnTransformer) : nat :=
  length (concat (map (fun c => numerical_cell (snd c) None) (num ct))) +
  length (concat (map (fun c =>
                         match snd c with
                         | Some cc => categories_ (onehot cc)
                         | None => []
                         end) (cat ct))).

Record Pipeline := {
  preprocessor : ColumnTransformer;
  classifier : Forest.RandomForestClassifier
}.

Fixpoint map_result {A B} (f : A -> result B) (l : list A) : result (list B) :=
  match l with
  | [] => Ok []
  | a :: t =>
      match f a with
      | Raise e => Raise e
      | Ok b =>
          match map_result f t with
          | Ok bs => Ok (b :: bs)
          | Raise e => Raise e
          end
      end
  end.

(** [Pipeline.predict] and [Pipeline.predict_proba]: transform every row,
    then ask the classifier. *)
Definition predict (p : Pipeline) (df : DataFrame) : result (list Z) :=
  map_result
    (fun r => match preprocessor_transform (preprocessor p) r with
              | Ok x => Ok (Forest.predict (classifier p) x)
              | Raise e => Raise e
              end) df.

Definition predict_proba (p : Pipeline) (df : DataFrame) : result (list (list Q)) :=
  map_result
    (fun r => match preprocessor_transform (preprocessor p) r with
              | Ok x => Ok (Forest.predict_proba (classifier p) x)
              | Raise e => Raise e
              end) df.

(** The block that a categorical feature of a pipeline fitted on
    [X_train] contributes to the encoding of row [r]. *)
Definition block (X_train : DataFrame) (name : string) (r : Row) : list Q :=
  match categorical_fit HandleIgnore (map (str_cell name) X_train) with
  | None => []
  | Some cc =>
      indicator (onehot cc)
        (most_frequent_transform (most_frequent cc) (str_cell name r))
  end.

End Sklearn.

(** ** The prediction service

    The process state the service code reads and writes: the module-level
    [_cached_pipeline], the three database tables as far as the code uses
    them, a counter that gives every unpickled pipeline object its own
    identity, and a log of the calls made to the database and to the
    pipeline. *)

Module Service.
Import Sklearn.

(** A pipeline object in memory: two objects are the same instance when
    their identities agree. *)
Record PipelineObject := {
  object_id : nat;
  pipeline_of : Pipeline
}.

(** A row of table [predictions] ([id] is the position in the table,
    [timestamp] is not modelled).  The table has no column for the
    confidence. *)
Record Prediction := {
  input_data : Row;
  row_predicted_label : Z;
  row_probability : Q
}.

Inductive event : Type :=
  | GetTrainedPipeline
  | CloseDb
  | PreprocessInput
  | PipelinePredict
  | PipelinePredictProba
  | SavePrediction.

Record World := {
  _cached_pipeline : option PipelineObject;
  trained_pipeline : option Pipeline;
  predictions : list Prediction;
  allocated : nat;
  log : list event
}.

(** A process that has just started on a database holding [store]. *)
Definition fresh_process (store : option Pipeline) : World :=
  {| _cached_pipeline := None;
     trained_pipeline := store;
     predictions := [];
     allocated := 0;
     log := [] |}.

Definition M (A : Type) : Type := World -> result A * World.

Definition ret {A} (a : A) : M A := fun w => (Ok a, w).

Definition raise {A} (e : error) : M A := fun w => (Raise e, w).

Definition bind {A B} (m : M A) (k : A -> M B) : M B :=
  fun w =>
    match m w with
    | (Ok a, w') => k a w'
    | (Raise e, w') => (Raise e, w')
    end.

Notation "'let*' x ':=' m 'in' k" := (bind m (fun x => k))
  (at level 10, x name, m at level 100, k at level 200).

Definition emit (e : event) : M unit :=
  fun w =>
    (Ok tt,
     {| _cached_pipeline := _cached_pipeline w;
        trained_pipeline := trained_pipeline w;
        predictions := predictions w;
        allocated := allocated w;
        log := log w ++ [e] |}).

Definition get_cached : M (option PipelineObject) :=
  fun w => (Ok (_cached_pipeline w), w).

Definition set_cached (o : PipelineObject) : M unit :=
  fun w =>
    (Ok tt,
     {| _cached_pipeline := Some o;
        trained_pipeline := trained_pipeline w;
        predictions := predictions w;
        allocated := allocated w;
        log := log w |}).

(** Unpickling builds a new object. *)
Definition allocate (p : Pipeline) : M PipelineObject :=
  fun w =>
    (Ok {| object_id := allocated w; pipeline_of := p |},
     {| _cached_pipeline := _cached_pipeline w;
        trained_pipeline := trained_pipeline w;
        predictions := predictions w;
        allocated := S (allocated w);
        log := log w |}).

(** Modelled from the spec: [DatabaseService.get_trained_pipeline] is not
    among the sources.  The Model Store's [load] yields the persisted
    pipeline or NotFound (section 6), and inference "fails with
    [ModelNotTrainedError] if the Model Store has no persisted pipeline"
    (section 4.3); the quick-start guide knows the failure as the "Model
    not found" error that goes away once the training script has run.
    The call reads table [trained_pipeline], raises
    [ModelNotTrainedError] when it is empty and otherwise decodes the
    stored pipeline into a new object. *)
Definition get_trained_pipeline : M PipelineObject :=
  let* _ := emit GetTrainedPipeline in
  fun w =>
    match trained_pipeline w with
    | None => raise ModelNotTrainedError w
    | Some p => allocate p w
    end.

Definition close : M unit := emit CloseDb.

(** [load_pipeline] of the ML service. *)
Definition load_pipeline : M PipelineObject :=
  let* cached := get_cached in
  match cached with
  | Some o => ret o
  | None =>
      let* o := get_trained_pipeline in
      let* _ := set_cached o in
      let* _ := close in
      ret o
  end.

(** Modelled from the spec: [preprocess_input] is not among the sources;
    it "converts the input dict to a DataFrame" (prediction logic, step
    2), here the frame whose only row is the input. *)
Definition preprocess_input (input : Row) : M DataFrame :=
  let* _ := emit PreprocessInput in ret [input].

Definition lift {A} (r : result A) : M A := fun w => (r, w).

(** Python indexing: [l[i]] raises [IndexError] out of range. *)
Definition index {A} (l : list A) (i : nat) : M A :=
  match l !! i with
  | Some a => ret a
  | None => raise IndexError
  end.

(** [predict] of the ML service: the label is the first entry of
    [pipeline.predict(df)], the probability is entry 1 of the first row
    of [pipeline.predict_proba(df)]. *)
Definition predict (input : Row) : M (Z * Q) :=
  let* pipeline := load_pipeline in
  let* df := preprocess_input input in
  let* _ := emit PipelinePredict in
  let* labels := lift (Sklearn.predict (pipeline_of pipeline) df) in
  let* predicted_label := index labels 0 in
  let* _ := emit PipelinePredictProba in
  let* probas := lift (Sklearn.predict_proba (pipeline_of pipeline) df) in
  let* first := index probas 0 in
  let* probability := index first 1 in
  ret (predicted_label, probability).

(** The subtraction is the exact one; the computed one is exact for a
    probability of 0.25 or more and can round below. *)
Definition calculate_confidence (probability : Q) : Q :=
  Qabs (probability - 0.5) * 2.

Record PredictionResponse := {
  predicted_label : Z;
  probability : Q;
  confidence : Q
}.

(** Modelled from the spec: [MLService.make_prediction] is not among the
    sources.  The project description lists its steps: get the label and
    the probability from [predict], "calculate confidence =
    abs(probability - 0.5) * 2", return label, probability and
    confidence. *)
Definition make_prediction (input : Row) : M PredictionResponse :=
  let* r := predict input in
  ret {| predicted_label := fst r;
         probability := snd r;
         confidence := calculate_confidence (snd r) |}.

(** Modelled from the spec: [DatabaseService.save_prediction] is not
    among the sources; it appends the row built from its three
    arguments to table [predictions]. *)
Definition save_prediction (input : Row) (label : Z) (proba : Q) : M unit :=
  let* _ := emit SavePrediction in
  fun w =>
    (Ok tt,
     {| _cached_pipeline := _cached_pipeline w;
        trained_pipeline := trained_pipeline w;
        predictions := predictions w ++
          [{| input_data := input;
              row_predicted_label := label;
              row_probability := proba |}];
        allocated := allocated w;
        log := log w |}).

(** No pipeline has been persisted and none is cached. *)
Definition untrained (w : World) : Prop :=
  _cached_pipeline w = None /\ trained_pipeline w = None.

End Service.

(** ** The API layer

    FastAPI validates the request body against the Pydantic model
    [StudentInput] before the route function runs; a body that fails
    validation is answered with the list of errors, each naming the field
    it is about, and the route function is not entered. *)

Module Api.
Import Service.

Record StudentInput := {
  University_GPA : Q;
  Field_of_Study : string;
  Gender : string;
  Internships_Completed : Z;
  Soft_Skills_Score : Q;
  Networking_Score : Q
}.

(** The JSON body of the request, as far as it is modelled: every field
    may be absent; a text field, when present, holds a JSON string and a
    numeric field a JSON number, given by its value.  The number is what
    the server reads from the body: a float, or an integer of less than
    2^63 in magnitude.  (An integer literal of 2^63 or more is read as an
    integer of that size and is not among the modelled bodies: a whole
    number of that size is a float here.) *)
Record RequestBody := {
  body_University_GPA : option Q;
  body_Field_of_Study : option string;
  body_Gender : option string;
  body_Internships_Completed : option Q;
  body_Soft_Skills_Score : option Q;
  body_Networking_Score : option Q
}.

(** One validation error: the field (Pydantic's [loc]) and the kind of
    error (its [type]). *)
Definition field_error : Type := string * string.

(** [float = Field(ge=0, le=10)] *)
Definition validate_score (name : string) (v : option Q)
  : list field_error + Q :=
  match v with
  | None => inl [(name, "missing"%string)]
  | Some q =>
      if negb (Qle_bool 0 q) then inl [(name, "greater_than_equal"%string)]
      else if negb (Qle_bool q 10) then inl [(name, "less_than_equal"%string)]
      else inr q
  end.

(** [str = Field(min_length=1)] *)
Definition validate_text (name : string) (v : option string)
  : list field_error + string :=
  match v with
  | None => inl [(name, "missing"%string)]
  | Some s =>
      if Nat.ltb (String.length s) 1 then inl [(name, "string_too_short"%string)]
      else inr s
  end.

Definition is_integral (q : Q) : bool := Pos.eqb (Qden (Qred q)) 1.

(** The whole floats that can be read as an integer: those strictly
    between -2^63 and 2^63. *)
Definition int64_bound : Z := 2 ^ 63.

Definition fits_int64 (z : Z) : bool :=
  Z.ltb (- int64_bound) z && Z.ltb z int64_bound.

(** [int = Field(ge=0)]: a number with a fractional part is not an
    integer, and a whole float outside the 64-bit range is too large to
    be read as one; the bound is checked on the integer. *)
Definition validate_count (name : string) (v : option Q)
  : list field_error + Z :=
  match v with
  | None => inl [(name, "missing"%string)]
  | Some q =>
      if negb (is_integral q) then inl [(name, "int_from_float"%string)]
      else if negb (fits_int64 (Qnum (Qred q)))
           then inl [(name, "int_parsing_size"%string)]
      else if negb (Z.leb 0 (Qnum (Qred q)))
           then inl [(name, "greater_than_equal"%string)]
      else inr (Qnum (Qred q))
  end.

Definition errors_of {A} (r : list field_error + A) : list field_error :=
  match r with inl es => es | inr _ => [] end.

(** Validation of a body against [StudentInput]: the errors of all the
    fields are collected, in the order of declaration. *)
Definition validate (b : RequestBody) : result StudentInput :=
  let gpa := validate_score "University_GPA" (body_University_GPA b) in
  let fos := validate_text "Field_of_Study" (body_Field_of_Study b) in
  let gen := validate_text "Gender" (body_Gender b) in
  let int := validate_count "Internships_Completed" (body_Internships_Completed b) in
  let sof := validate_score "Soft_Skills_Score" (body_Soft_Skills_Score b) in
  let net := validate_score "Networking_Score" (body_Networking_Score b) in
  match gpa, fos, gen, int, sof, net with
  | inr g, inr f, inr ge, inr i, inr s, inr n =>
      Ok {| University_GPA := g;
            Field_of_Study := f;
            Gender := ge;
            Internships_Completed := i;
            Soft_Skills_Score := s;
            Networking_Score := n |}
  | _, _, _, _, _, _ =>
      Raise (ValidationError
               (errors_of gpa ++ errors_of fos ++ errors_of gen ++
                errors_of int ++ errors_of sof ++ errors_of net))
  end.

(** [student.model_dump()] *)
Definition model_dump (s : StudentInput) : Row :=
  <["University_GPA"%string := Num (University_GPA s)]>
  (<["Field_of_Study"%string := Str (Field_of_Study s)]>
  (<["Gender"%string := Str (Gender s)]>
  (<["Internships_Completed"%string := Num (inject_Z (Internships_Completed s))]>
  (<["Soft_Skills_Score"%string := Num (Soft_Skills_Score s)]>
  (<["Networking_Score"%string := Num (Networking_Score s)]> ∅))))).

(** The route function of [POST /predict], entered with the validated
    model. *)
Definition predict_career_success (student : StudentInput)
  : M PredictionResponse :=
  let input_data := model_dump student in
  let* prediction_result := make_prediction input_data in
  let* _ := save_prediction input_data
              (predicted_label prediction_result)
              (probability prediction_result) in
  ret {| predicted_label := predicted_label prediction_result;
         probability := probability prediction_result;
         confidence := confidence prediction_result |}.

(** [POST /predict] as a client sees it: validation of the body, then
    the route function. *)
Definition post_predict (body : RequestBody) : M PredictionResponse :=
  match validate body with
  | Raise e => raise e
  | Ok student => predict_career_success student
  end.

(** The errors of a failed request name field [f]. *)
Definition names_field (f : string) (r : result PredictionResponse) : Prop :=
  exists errs kind, r = Raise (ValidationError errs) /\ In (f, kind) errs.

(** The process after it has answered the requests [reqs] in turn. *)
Fixpoint serve (reqs : list RequestBody) (w : World) : World :=
  match reqs with
  | [] => w
  | body :: t => serve t (snd (post_predict body w))
  end.

(** Field [f] of the body is absent or outside its documented domain. *)
Inductive offending (b : RequestBody) : string -> Prop :=
  | gpa_absent :
      body_University_GPA b = None -> offending b "University_GPA"
  | gpa_out q :
      body_University_GPA b = Some q -> q < 0 \/ 10 < q ->
      offending b "University_GPA"
  | field_of_study_absent :
      body_Field_of_Study b = None -> offending b "Field_of_Study"
  | gender_absent :
      body_Gender b = None -> offending b "Gender"
  | internships_absent :
      body_Internships_Completed b = None -> offending b "Internships_Completed"
  | internships_out q :
      body_Internships_Completed b = Some q -> q < 0 ->
      offending b "Internships_Completed"
  | soft_skills_absent :
      body_Soft_Skills_Score b = None -> offending b "Soft_Skills_Score"
  | soft_skills_out q :
      body_Soft_Skills_Score b = Some q -> q < 0 \/ 10 < q ->
      offending b "Soft_Skills_Score"
  | networking_absent :
      body_Networking_Score b = None -> offending b "Networking_Score"
  | networking_out q :
      body_Networking_Score b = Some q -> q < 0 \/ 10 < q ->
      offending b "Networking_Score".

(** A validator refuses the field with a single error that names it. *)
Definition rejects {A} (name : string) (r : list field_error + A) : Prop :=
  exists kind, r = inl [(name, kind)].

End Api.

(** ** JavaScript values

    The values the React components handle: numbers (a rational, [NaN] or
    an infinity), strings, [undefined] and [null]. *)

Module Js.

Inductive number : Type :=
  | Finite (q : Q)
  | NaN
  | Infinity (negative : bool).

Inductive value : Type :=
  | JsUndefined
  | JsNull
  | JsNumber (n : number)
  | JsString (s : string).

Definition truthy_number (n : number) : bool :=
  match n with
  | Finite q => negb (Qeq_bool q 0)
  | NaN => false
  | Infinity _ => true
  end.

(** [ToBoolean] *)
Definition truthy (v : value) : bool :=
  match v with
  | JsUndefined | JsNull => false
  | JsNumber n => truthy_number n
  | JsString s => negb (String.eqb s "")
  end.

(** [a || b] *)
Definition or (a b : value) : value := if truthy a then a else b.

(** [!a] *)
Definition not (a : value) : bool := negb (truthy a).

Definition lt_number (a b : number) : bool :=
  match a, b with
  | NaN, _ | _, NaN => false
  | Finite x, Finite y => negb (Qle_bool y x)
  | Infinity true, Infinity true => false
  | Infinity true, _ => true
  | _, Infinity true => false
  | Infinity false, _ => false
  | _, Infinity false => true
  end.

Definition mul_number (a b : number) : number :=
  match a, b with
  | NaN, _ | _, NaN => NaN
  | Finite x, Finite y => Finite (x * y)
  | Infinity s, Finite y | Finite y, Infinity s =>
      if Qeq_bool y 0 then NaN
      else Infinity (xorb s (negb (Qle_bool 0 y)))
  | Infinity s, Infinity t => Infinity (xorb s t)
  end.

(** *** Reading numbers from strings

    Strings are sequences of ASCII characters. *)

Definition code (c : ascii) : nat := nat_of_ascii c.

Definition is_white_space (c : ascii) : bool :=
  (Nat.leb 9 (code c) && Nat.leb (code c) 13) || Nat.eqb (code c) 32.

Definition is_digit (c : ascii) : bool :=
  Nat.leb 48 (code c) && Nat.leb (code c) 57.

Fixpoint skip (f : ascii -> bool) (s : list ascii) : list ascii :=
  match s with
  | c :: t => if f c then skip f t else s
  | [] => []
  end.

Fixpoint span (f : ascii -> bool) (s : list ascii) : list ascii * list ascii :=
  match s with
  | c :: t =>
      if f c then let '(a, b) := span f t in (c :: a, b) else ([], s)
  | [] => ([], [])
  end.

(** The value of a digit in a radix up to 16, if it is one. *)
Definition digit_of (radix : nat) (c : ascii) : option Z :=
  let n := code c in
  let d :=
    if Nat.leb 48 n && Nat.leb n 57 then Some (n - 48)%nat
    else if Nat.leb 97 n && Nat.leb n 102 then Some (n - 87)%nat
    else if Nat.leb 65 n && Nat.leb n 70 then Some (n - 55)%nat
    else None in
  match d with
  | Some k => if Nat.ltb k radix then Some (Z.of_nat k) else None
  | None => None
  end.

Definition digits_value (radix : nat) (ds : list ascii) : Z :=
  fold_left
    (fun acc c => (Z.of_nat radix * acc + default 0 (digit_of radix c))%Z)
    ds 0%Z.

Fixpoint starts_with (p s : list ascii) : bool :=
  match p, s with
  | [], _ => true
  | a :: p', b :: s' => Ascii.eqb a b && starts_with p' s'
  | _ :: _, [] => false
  end.

Definition is_sign (c : ascii) : bool := Nat.eqb (code c) 43 || Nat.eqb (code c) 45.

Definition is_minus (c : ascii) : bool := Nat.eqb (code c) 45.

Definition is_exponent_indicator (c : ascii) : bool :=
  Nat.eqb (code c) 101 || Nat.eqb (code c) 69.

Definition is_dot (c : ascii) : bool := Nat.eqb (code c) 46.

(** [ExponentPart], when one is there: its value and what follows. *)
Definition exponent_part (s : list ascii) : Z * list ascii :=
  match s with
  | c :: t =>
      if is_exponent_indicator c then
        let '(negative, u) :=
          match t with
          | d :: u => if is_sign d then (is_minus d, u) else (false, t)
          | [] => (false, t)
          end in
        let '(ds, rest) := span is_digit u in
        match ds with
        | [] => (0%Z, s)
        | _ => ((if negative then - digits_value 10 ds else digits_value 10 ds)%Z,
                rest)
        end
      else (0%Z, s)
  | [] => (0%Z, s)
  end.

(** The longest prefix that is a [StrUnsignedDecimalLiteral], as its
    value and the rest of the string. *)
Definition unsigned_decimal_prefix (s : list ascii) : option (number * list ascii) :=
  if starts_with (list_ascii_of_string "Infinity") s
  then Some (Infinity false, drop 8 s)
  else
    let '(int_part, r1) := span is_digit s in
    let '(frac_part, r2) :=
      match r1 with
      | c :: t => if is_dot c then span is_digit t else ([], r1)
      | [] => ([], r1)
      end in
    match int_part ++ frac_part with
    | [] => None
    | ds =>
        let '(e, r3) := exponent_part r2 in
        Some (Finite (inject_Z (digits_value 10 ds) *
                      Qpower 10 (e - Z.of_nat (length frac_part))),
              r3)
    end.

Definition negate (n : number) : number :=
  match n with
  | Finite q => Finite (- q)
  | NaN => NaN
  | Infinity s => Infinity (negb s)
  end.

(** The longest prefix that is a [StrDecimalLiteral]. *)
Definition decimal_prefix (s : list ascii) : option (number * list ascii) :=
  match s with
  | c :: t =>
      if is_sign c then
        match unsigned_decimal_prefix t with
        | Some (n, r) => Some (if is_minus c then negate n else n, r)
        | None => None
        end
      else unsigned_decimal_prefix s
  | [] => None
  end.

(** [parseFloat]: leading white space is skipped, the longest prefix that
    is a decimal literal is read, and the result is [NaN] when there is
    none. *)
Definition parseFloat (s : string) : number :=
  match decimal_prefix (skip is_white_space (list_ascii_of_string s)) with
  | Some (n, _) => n
  | None => NaN
  end.

Definition trim (s : list ascii) : list ascii :=
  rev (skip is_white_space (rev (skip is_white_space s))).

(** [0x], [0o] and [0b] literals of [StringToNumber]. *)
Definition non_decimal_literal (s : list ascii) : option number :=
  match s with
  | z :: r :: ds =>
      let radix :=
        match code r with
        | 120%nat | 88%nat => Some 16%nat
        | 111%nat | 79%nat => Some 8%nat
        | 98%nat | 66%nat => Some 2%nat
        | _ => None
        end in
      match radix with
      | Some k =>
          if Nat.eqb (code z) 48 && negb (Nat.eqb (length ds) 0) &&
             forallb (fun c => bool_decide (is_Some (digit_of k c))) ds
          then Some (Finite (inject_Z (digits_value k ds)))
          else None
      | None => None
      end
  | _ => None
  end.

(** [StringToNumber]: the whole string, white space trimmed, must be a
    numeric literal; the empty string is 0. *)
Definition StringToNumber (s : string) : number :=
  match trim (list_ascii_of_string s) with
  | [] => Finite 0
  | t =>
      match non_decimal_literal t with
      | Some n => n
      | None =>
          match decimal_prefix t with
          | Some (n, []) => n
          | _ => NaN
          end
      end
  end.

Definition ToNumber (v : value) : number :=
  match v with
  | JsUndefined => NaN
  | JsNull => Finite 0
  | JsNumber n => n
  | JsString s => StringToNumber s
  end.

(** [a < b] and [a > b] where [b] is a number literal. *)
Definition lt (a : value) (b : number) : bool := lt_number (ToNumber a) b.
Definition gt (a : value) (b : number) : bool := lt_number b (ToNumber a).

(** Property access on an object: an absent property reads as
    [undefined]. *)
Definition get (o : gmap string value) (k : string) : value :=
  default JsUndefined (o !! k).

End Js.

(** ** The prediction form ([PredictionForm.tsx]) *)

Module PredictionForm.
Import Js.

(** [PredictionResponse] of [types.ts]. *)
Record PredictionResponse := {
  predicted_label : value;
  probability : value;
  confidence : value
}.

(** The state of the component: the four [useState] cells.  An object is
    a finite map from property names to values; in [errors] a property
    may be present with the value [undefined], which is [None]. *)
Record State := {
  formData : gmap string value;
  prediction : option PredictionResponse;
  loading : bool;
  errors : gmap string (option string)
}.

Definition initial_formData : gmap string value :=
  <["University_GPA"%string := JsNumber (Finite 0)]>
  (<["Field_of_Study"%string := JsString ""]>
  (<["Gender"%string := JsString ""]>
  (<["Internships_Completed"%string := JsNumber (Finite 0)]>
  (<["Soft_Skills_Score"%string := JsNumber (Finite 0)]>
  (<["Networking_Score"%string := JsNumber (Finite 0)]> ∅))))).

Definition initial_state : State :=
  {| formData := initial_formData;
     prediction := None;
     loading := false;
     errors := ∅ |}.

(** The value [handleChange] stores under [name]. *)
Definition changed_value (name value : string) : Js.value :=
  if String.eqb name "Field_of_Study" || String.eqb name "Gender"
  then JsString value
  else Js.or (JsNumber (parseFloat value)) (JsNumber (Finite 0)).

(** [handleChange], given the [name] and the [value] of the event's
    target. *)
Definition handleChange (name value : string) (st : State) : State :=
  {| formData := <[name := changed_value name value]> (formData st);
     prediction := prediction st;
     loading := loading st;
     errors := <[name := None]> (errors st) |}.

Definition add_error (cond : bool) (field message : string)
    (newErrors : gmap string (option string)) : gmap string (option string) :=
  if cond then <[field := Some message]> newErrors else newErrors.

(** The object [newErrors] that [validateForm] builds. *)
Definition newErrors (formData : gmap string value) : gmap string (option string) :=
  let e := ∅ in
  let e := add_error
    (lt (get formData "University_GPA") (Finite 0) ||
     gt (get formData "University_GPA") (Finite 10))
    "University_GPA" "GPA must be between 0 and 10" e in
  let e := add_error (not (get formData "Field_of_Study"))
    "Field_of_Study" "Please select a field of study" e in
  let e := add_error (not (get formData "Gender"))
    "Gender" "Please select a gender" e in
  let e := add_error (lt (get formData "Internships_Completed") (Finite 0))
    "Internships_Completed" "Internships must be non-negative" e in
  let e := add_error
    (lt (get formData "Soft_Skills_Score") (Finite 0) ||
     gt (get formData "Soft_Skills_Score") (Finite 10))
    "Soft_Skills_Score" "Score must be between 0 and 10" e in
  let e := add_error
    (lt (get formData "Networking_Score") (Finite 0) ||
     gt (get formData "Networking_Score") (Finite 10))
    "Networking_Score" "Score must be between 0 and 10" e in
  e.

(** [validateForm]: stores the errors and tells whether there are
    none. *)
Definition validateForm (st : State) : State * bool :=
  let e := newErrors (formData st) in
  ({| formData := formData st;
      prediction := prediction st;
      loading := loading st;
      errors := e |},
   Nat.eqb (size e) 0).

(** [handleSubmit] up to the request: the new state and the body posted
    to [/predict], if a request is made. *)
Definition handleSubmit (st : State) : State * option (gmap string value) :=
  let '(st1, valid) := validateForm st in
  if negb valid then (st1, None)
  else
    ({| formData := formData st1;
        prediction := None;
        loading := true;
        errors := errors st1 |},
     Some (formData st1)).

(** What [handleSubmit] does once the request has settled: with the
    response, or with nothing when the request failed. *)
Definition handleSubmit_settled (response : option PredictionResponse)
    (st : State) : State :=
  {| formData := formData st;
     prediction := match response with
                   | Some r => Some r
                   | None => prediction st
                   end;
     loading := false;
     errors := errors st |}.

Definition numeric_fields : list string :=
  ["University_GPA"; "Internships_Completed"; "Soft_Skills_Score";
   "Networking_Score"]%string.

(** The events of the form and the states it can reach. *)
Fixpoint changes (evs : list (string * string)) (st : State) : State :=
  match evs with
  | [] => st
  | (name, value) :: t => changes t (handleChange name value st)
  end.

(** A numeric property that holds a number other than [NaN]. *)
Definition holds_number (o : gmap string value) (name : string) : Prop :=
  exists n, o !! name = Some (JsNumber n) /\ n <> NaN.

(** What the form refuses: a score outside [0, 10], a negative number of
    internships, a text field that is empty or absent. *)
Inductive form_offending (o : gmap string value) : string -> Prop :=
  | form_gpa q :
      o !! "University_GPA"%string = Some (JsNumber (Finite q)) ->
      q < 0 \/ 10 < q -> form_offending o "University_GPA"
  | form_field_of_study :
      truthy (get o "Field_of_Study") = false ->
      form_offending o "Field_of_Study"
  | form_gender :
      truthy (get o "Gender") = false -> form_offending o "Gender"
  | form_internships q :
      o !! "Internships_Completed"%string = Some (JsNumber (Finite q)) ->
      q < 0 -> form_offending o "Internships_Completed"
  | form_soft_skills q :
      o !! "Soft_Skills_Score"%string = Some (JsNumber (Finite q)) ->
      q < 0 \/ 10 < q -> form_offending o "Soft_Skills_Score"
  | form_networking q :
      o !! "Networking_Score"%string = Some (JsNumber (Finite q)) ->
      q < 0 \/ 10 < q -> form_offending o "Networking_Score".

End PredictionForm.

(** ** The dashboard ([Dashboard.tsx]) *)

Module Dashboard.
Import Js.

Record FeatureImportance := {
  feature : string;
  importance : number
}.

Record ROCCurveData := {
  fpr : list number;
  tpr : list number
}.

(** [ModelMetrics] of [types.ts].  The five scores are declared as
    numbers; what arrives is what the response body holds, so they are
    values here. *)
Record ModelMetrics := {
  accuracy : value;
  precision : value;
  recall : value;
  f1_score : value;
  roc_auc : value;
  feature_importances : list FeatureImportance;
  roc_curve : ROCCurveData
}.

(** [metrics?.field] *)
Definition optional_chain (metrics : option ModelMetrics)
    (field : ModelMetrics -> value) : value :=
  match metrics with
  | Some m => field m
  | None => JsUndefined
  end.

Record MetricCardProps := {
  title : string;
  value_ : value
}.

(** The five [MetricCard] elements the dashboard renders. *)
Definition metric_cards (metrics : option ModelMetrics) : list MetricCardProps :=
  [ {| title := "Accuracy";
       value_ := or (optional_chain metrics accuracy) (JsNumber (Finite 0)) |};
    {| title := "Precision";
       value_ := or (optional_chain metrics precision) (JsNumber (Finite 0)) |};
    {| title := "Recall";
       value_ := or (optional_chain metrics recall) (JsNumber (Finite 0)) |};
    {| title := "F1 Score";
       value_ := or (optional_chain metrics f1_score) (JsNumber (Finite 0)) |};
    {| title := "ROC-AUC";
       value_ := or (optional_chain metrics roc_auc) (JsNumber (Finite 0)) |} ].

(** The number a [MetricCard] formats: [value * 100]. *)
Definition MetricCard (props : MetricCardProps) : number :=
  mul_number (ToNumber (value_ props)) (Finite 100).

(** The value of the card titled [t]. *)
Definition card_value (t : string) (cards : list MetricCardProps) : option value :=
  value_ <$> List.find (fun c => String.eqb (title c) t) cards.

(** The ways a score can be "not a number": absent, [null] or [NaN]. *)
Definition is_undefined_marker (v : value) : bool :=
  match v with
  | JsUndefined | JsNull | JsNumber NaN => true
  | _ => false
  end.

End Dashboard.

(** ** Evaluation on the test partition

    The training script is not among the sources; its evaluation step is
    modelled from the specification.  The test partition is given as the
    list of the records' labels paired with the probabilities the pipeline
    predicts for them. *)

Module Evaluation.

Definition Qnat (n : nat) : Q := inject_Z (Z.of_nat n).

(** A ratio of counts, 0 when the denominator is. *)
Definition ratio (a b : nat) : Q :=
  if Nat.eqb b 0 then 0 else Qnat a / Qnat b.

Definition decision_threshold : Q := 0.5.

Definition y_pred (probability : Q) : bool :=
  Qle_bool decision_threshold probability.

Definition count (f : bool * Q -> bool) (test : list (bool * Q)) : nat :=
  length (List.filter f test).

Definition true_positives := count (fun e => fst e && y_pred (snd e)).
Definition false_positives := count (fun e => negb (fst e) && y_pred (snd e)).
Definition false_negatives := count (fun e => fst e && negb (y_pred (snd e))).
Definition true_negatives := count (fun e => negb (fst e) && negb (y_pred (snd e))).

(** Modelled from the spec: the scores of the evaluation step of the
    training script, which is not among the sources.  Section 4.2, step 5:
    accuracy, precision, recall and F1 are computed "at the default 0.5
    decision threshold", the label being 1 when the probability is at
    least 0.5. *)
Definition accuracy_score (test : list (bool * Q)) : Q :=
  ratio (true_positives test + true_negatives test) (length test).

Definition precision_score (test : list (bool * Q)) : Q :=
  ratio (true_positives test) (true_positives test + false_positives test).

Definition recall_score (test : list (bool * Q)) : Q :=
  ratio (true_positives test) (true_positives test + false_negatives test).

Definition f1_score (test : list (bool * Q)) : Q :=
  let p := precision_score test in
  let r := recall_score test in
  if Qeq_bool (p + r) 0 then 0 else 2 * p * r / (p + r).

(** *** The threshold sweep

    The thresholds are taken in decreasing order: first one above every
    score ([None]), then the scores of the test records. *)

Definition Qge : relation Q := fun x y => y <= x.

Definition Qge_dec : RelDecision Qge.
Proof.
  intros x y. destruct (Qlt_le_dec x y) as [H | H].
  - right. apply Qlt_not_le, H.
  - left. exact H.
Defined.

Definition sort_decreasing (l : list Q) : list Q :=
  @merge_sort Q Qge Qge_dec l.

Definition thresholds (test : list (bool * Q)) : list (option Q) :=
  None :: map Some (sort_decreasing (map snd test)).

(** The record is predicted positive at threshold [t]. *)
Definition reaches (t : option Q) (score : Q) : bool :=
  match t with
  | None => false
  | Some th => Qle_bool th score
  end.

(** Lowering the threshold from [t1] to [t2] keeps every record that was
    reached. *)
Definition lower (t1 t2 : option Q) : Prop :=
  forall s, reaches t1 s = true -> reaches t2 s = true.

Definition positives := count (fun e => fst e).
Definition negatives := count (fun e => negb (fst e)).

Definition tpr_at (test : list (bool * Q)) (t : option Q) : Q :=
  ratio (count (fun e => fst e && reaches t (snd e)) test) (positives test).

Definition fpr_at (test : list (bool * Q)) (t : option Q) : Q :=
  ratio (count (fun e => negb (fst e) && reaches t (snd e)) test) (negatives test).

Record ROCCurve := {
  fpr : list Q;
  tpr : list Q
}.

(** Modelled from the spec: the ROC curve of the evaluation step, which is
    not among the sources.  Section 4.2, step 5: it is computed "by
    sweeping the decision threshold"; every threshold gives one point, the
    rate of false positives and the rate of true positives among the test
    records it reaches. *)
Definition roc_curve_of (test : list (bool * Q)) : ROCCurve :=
  {| fpr := map (fpr_at test) (thresholds test);
     tpr := map (tpr_at test) (thresholds test) |}.

(** The area under the curve by the trapezoidal rule. *)
Fixpoint trapezoid (xs ys : list Q) : Q :=
  match xs, ys with
  | x0 :: ((x1 :: _) as xs'), y0 :: ((y1 :: _) as ys') =>
      (x1 - x0) * (y0 + y1) / 2 + trapezoid xs' ys'
  | _, _ => 0
  end.

Definition roc_auc_score (test : list (bool * Q)) : Q :=
  trapezoid (fpr (roc_curve_of test)) (tpr (roc_curve_of test)).

Definition both_classes (test : list (bool * Q)) : bool :=
  negb (Nat.eqb (positives test) 0) && negb (Nat.eqb (negatives test) 0).

Record EvaluationMetrics := {
  accuracy : Q;
  precision : Q;
  recall : Q;
  f1 : Q;
  roc_auc : option Q;
  feature_importances : list Q;
  roc_curve : option ROCCurve
}.

(** Modelled from the spec: the evaluation step of the training script,
    which is not among the sources.  Section 4.2, step 5 lists the metrics;
    the feature importances are "the ensemble's aggregate
    impurity-reduction attribution", reported per encoded column.
    Section 7: on a test partition that holds a single class the metrics
    that need both classes "are reported as an explicit undefined marker",
    which is [None] here.  The check on the number of records (section
    4.2, failure) precedes the evaluation and is not part of it. *)
Definition evaluate (rf : Forest.RandomForestClassifier) (n_features : nat)
    (test : list (bool * Q)) : EvaluationMetrics :=
  {| accuracy := accuracy_score test;
     precision := precision_score test;
     recall := recall_score test;
     f1 := f1_score test;
     roc_auc := if both_classes test then Some (roc_auc_score test) else None;
     feature_importances := Forest.feature_importances_ rf n_features;
     roc_curve := if both_classes test then Some (roc_curve_of test) else None |}.

(** Modelled from the spec: the scores of the test partition, computed by
    the part of the training script that is not among the sources.
    Evaluation is "on the encoded test partition" (section 4.2, step 5):
    the score of a test record is the probability the pipeline predicts
    for label 1. *)
Definition test_scores (p : Sklearn.Pipeline) (test : list (Row * bool))
  : result (list (bool * Q)) :=
  match Sklearn.predict_proba p (map fst test) with
  | Raise e => Raise e
  | Ok probas =>
      match mapM (fun row : list Q => row !! 1%nat) probas with
      | None => Raise IndexError
      | Some scores => Ok (combine (map snd test) scores)
      end
  end.

Definition evaluate_pipeline (p : Sklearn.Pipeline) (test : list (Row * bool))
  : result EvaluationMetrics :=
  match test_scores p test with
  | Raise e => Raise e
  | Ok scores =>
      Ok (evaluate (Sklearn.classifier p)
            (Sklearn.n_features_out (Sklearn.preprocessor p)) scores)
  end.

Definition unit_interval (x : Q) : Prop := 0 <= x <= 1.

(** The curve's two arrays have equal length, start at (0,0), end at
    (1,1) and are non-decreasing. *)
Definition roc_curve_shape (c : ROCCurve) : Prop :=
  length (fpr c) = length (tpr c) /\
  (exists x y, head (fpr c) = Some x /\ head (tpr c) = Some y /\ x == 0 /\ y == 0) /\
  (exists x y, last (fpr c) = Some x /\ last (tpr c) = Some y /\ x == 1 /\ y == 1) /\
  Sorted Qle (fpr c) /\ Sorted Qle (tpr c).

(** The bounds section 8 states for every [EvaluationMetrics]. *)
Definition metrics_bounds (m : EvaluationMetrics) : Prop :=
  unit_interval (accuracy m) /\
  unit_interval (precision m) /\
  unit_interval (recall m) /\
  unit_interval (f1 m) /\
  (exists a, roc_auc m = Some a /\ unit_interval a) /\
  Qabs (Qsum (feature_importances m) - 1) <= 1 # 1000000 /\
  (exists c, roc_curve m = Some c /\ roc_curve_shape c).

End Evaluation.

(** ** Concrete data

    A small training partition, pipelines fitted on it, and the inputs the
    statements below are tried on. *)

Module Examples.
Import Preprocessing Sklearn Service Api.

(** The square root rounded down to six decimals. *)
Definition sqrt_floor (q : Q) : Q :=
  inject_Z (Z.sqrt (Qnum q * 10 ^ 12 / Zpos (Qden q))) / inject_Z (10 ^ 6).

Definition student (gpa : Q) (fos gender : string) (internships : Z)
    (soft net : Q) : StudentInput :=
  {| University_GPA := gpa;
     Field_of_Study := fos;
     Gender := gender;
     Internships_Completed := internships;
     Soft_Skills_Score := soft;
     Networking_Score := net |}.

Definition X_train : DataFrame :=
  [ model_dump (student 8 "Computer Science" "Male" 2 7 6);
    model_dump (student 6 "Biology" "Female" 0 5 8);
    model_dump (student 7 "Computer Science" "Female" 1 6 10) ].

(** A tree that votes for class 0 when the encoded feature is at most 0
    and for class 1 otherwise. *)
Definition votes_on (feature : nat) : Forest.tree :=
  Forest.Split feature 0 (1 # 4) (Forest.Leaf [3; 0]) (Forest.Leaf [0; 2]).

(** Two hundred trees: one half looks at the GPA, the other half at the
    networking score. *)
Definition split_forest : Forest.RandomForestClassifier :=
  {| Forest.estimators_ := repeat (votes_on 0) 100 ++ repeat (votes_on 2) 100;
     Forest.classes_ := [0; 1]%Z |}.

Definition tie_pipeline : Pipeline :=
  {| preprocessor := preprocessor_fit sqrt_floor X_train;
     classifier := split_forest |}.

(** The input of end-to-end scenario 1. *)
Definition scenario_1 : StudentInput :=
  student 8.5 "Computer Science" "Male" 3 8 7.5.

Definition scenario_1_body : RequestBody :=
  {| body_University_GPA := Some 8.5;
     body_Field_of_Study := Some "Computer Science"%string;
     body_Gender := Some "Male"%string;
     body_Internships_Completed := Some 3;
     body_Soft_Skills_Score := Some 8;
     body_Networking_Score := Some 7.5 |}.

(** The body of end-to-end scenario 2: a GPA of 11. *)
Definition scenario_2_body : RequestBody :=
  {| body_University_GPA := Some 11;
     body_Field_of_Study := Some "Computer Science"%string;
     body_Gender := Some "Male"%string;
     body_Internships_Completed := Some 3;
     body_Soft_Skills_Score := Some 8;
     body_Networking_Score := Some 7.5 |}.


(** A record whose field of study was not seen at training. *)
Definition astrologer : Row :=
  model_dump (student 8 "Astrology" "Male" 1 6 6).

(** Metrics of a run whose ROC-AUC is not a number: [v] is what arrives
    in its place. *)
Definition with_roc_auc (v : Js.value) : Dashboard.ModelMetrics :=
  {| Dashboard.accuracy := Js.JsNumber (Js.Finite 1);
     Dashboard.precision := Js.JsNumber (Js.Finite 1);
     Dashboard.recall := Js.JsNumber (Js.Finite 1);
     Dashboard.f1_score := Js.JsNumber (Js.Finite 1);
     Dashboard.roc_auc := v;
     Dashboard.feature_importances := [];
     Dashboard.roc_curve := {| Dashboard.fpr := []; Dashboard.tpr := [] |} |}.

Definition single_class_metrics : Dashboard.ModelMetrics :=
  with_roc_auc Js.JsNull.

(** Test partitions: one with both classes, one where every label is 1
    (end-to-end scenario 4). *)
Definition mixed_test : list (Row * bool) :=
  [ (model_dump (student 9 "Computer Science" "Male" 3 8 9), true);
    (model_dump (student 5 "Biology" "Female" 0 4 5), false);
    (model_dump (student 8 "Biology" "Male" 1 6 7), true);
    (model_dump (student 6 "Computer Science" "Female" 2 7 9.5), false) ].

Definition all_positive_test : list (Row * bool) :=
  [ (model_dump (student 9 "Computer Science" "Male" 3 8 9), true);
    (model_dump (student 8 "Biology" "Male" 1 6 7), true) ].

(** A forest none of whose trees has a split, as fitting produces when no
    feature separates the training records. *)
Definition stump_forest : Forest.RandomForestClassifier :=
  {| Forest.estimators_ := repeat (Forest.Leaf [1; 2]) 200;
     Forest.classes_ := [0; 1]%Z |}.

Definition stump_pipeline : Pipeline :=
  {| preprocessor := preprocessor_fit sqrt_floor X_train;
     classifier := stump_forest |}.

(** What a user types into the form: a GPA that is not a number, then a
    valid record. *)
Definition typing : list (string * string) :=
  [ ("University_GPA", "abc"); ("Soft_Skills_Score", "");
    ("Field_of_Study", "Physics"); ("Gender", "Female");
    ("Internships_Completed", "2"); ("Networking_Score", "7.5") ]%string.

(** The same with a GPA of 11. *)
Definition typing_invalid : list (string * string) :=
  typing ++ [("University_GPA"%string, "11"%string)].

End Examples.

(** ** What a run of the service shows

    Quantities read off the state of the process, used to state what the
    service does over many requests. *)

Module Observations.
Import Sklearn Service.

Definition is_store_read (e : event) : bool :=
  match e with GetTrainedPipeline => true | _ => false end.

(** How often the process has read table [trained_pipeline]. *)
Definition store_reads (w : World) : nat :=
  length (List.filter is_store_read (log w)).

(** The part of the state that only [load_pipeline] and
    [save_prediction] write. *)
Definition same_store (w w' : World) : Prop :=
  _cached_pipeline w' = _cached_pipeline w /\
  trained_pipeline w' = trained_pipeline w /\
  predictions w' = predictions w /\
  allocated w' = allocated w /\
  store_reads w' = store_reads w.

(** Computations that leave the cache, the tables and the count of
    store reads as they are. *)
Definition logs_only {A} (m : M A) : Prop :=
  forall w, same_store w (snd (m w)).

(** The state of a process started on a store that holds [p], after any
    requests. *)
Definition warm_or_cold (p : Pipeline) (w : World) : Prop :=
  trained_pipeline w = Some p /\
  ((_cached_pipeline w = None /\ allocated w = 0%nat /\ store_reads w = 0%nat) \/
   (_cached_pipeline w = Some {| object_id := 0; pipeline_of := p |} /\
    allocated w = 1%nat /\ store_reads w = 1%nat)).

End Observations.

(** ** The constraints of [StudentInput], field by field *)

Module Contract.
Import Api.

(** The errors a field of each kind can be refused with, and why. *)
Inductive score_error (v : option Q) : string -> Prop :=
  | score_missing : v = None -> score_error v "missing"
  | score_below q : v = Some q -> q < 0 -> score_error v "greater_than_equal"
  | score_above q : v = Some q -> 10 < q -> score_error v "less_than_equal".

Inductive text_error (v : option string) : string -> Prop :=
  | text_missing : v = None -> text_error v "missing"
  | text_empty : v = Some ""%string -> text_error v "string_too_short".

Inductive count_error (v : option Q) : string -> Prop :=
  | count_missing : v = None -> count_error v "missing"
  | count_fraction q :
      v = Some q -> (forall z, ~ q == inject_Z z) ->
      count_error v "int_from_float"
  | count_size q z :
      v = Some q -> q == inject_Z z ->
      (z <= - int64_bound \/ int64_bound <= z)%Z ->
      count_error v "int_parsing_size"
  | count_negative q z :
      v = Some q -> q == inject_Z z -> (- int64_bound < z < 0)%Z ->
      count_error v "greater_than_equal".

(** Field [f] of the body violates the model [StudentInput] in the way
    [kind] names. *)
Definition refused (b : RequestBody) (f kind : string) : Prop :=
  (f = "University_GPA"%string /\ score_error (body_University_GPA b) kind) \/
  (f = "Field_of_Study"%string /\ text_error (body_Field_of_Study b) kind) \/
  (f = "Gender"%string /\ text_error (body_Gender b) kind) \/
  (f = "Internships_Completed"%string /\
   count_error (body_Internships_Completed b) kind) \/
  (f = "Soft_Skills_Score"%string /\ score_error (body_Soft_Skills_Score b) kind) \/
  (f = "Networking_Score"%string /\ score_error (body_Networking_Score b) kind).

(** The fields of [StudentInput] in the order of declaration. *)
Definition declared_fields : list string :=
  ["University_GPA"; "Field_of_Study"; "Gender"; "Internships_Completed";
   "Soft_Skills_Score"; "Networking_Score"]%string.

End Contract.

(** ** The order of the categories *)

Module Vocabulary.

(** The order [numpy.unique] sorts strings by, as a relation. *)
Definition before (a b : string) : Prop := String.ltb a b = true.

End Vocabulary.

(** ** More JavaScript operators *)

Module Operators.
Import Js.

(** [a - b] *)
Definition sub_number (a b : number) : number :=
  match a, b with
  | NaN, _ | _, NaN => NaN
  | Finite x, Finite y => Finite (x - y)
  | Infinity s, Infinity t => if Bool.eqb s t then NaN else Infinity s
  | Infinity s, Finite _ => Infinity s
  | Finite _, Infinity t => Infinity (negb t)
  end.

Definition strict_equals_number (a b : number) : bool :=
  match a, b with
  | Finite x, Finite y => Qeq_bool x y
  | Infinity s, Infinity t => Bool.eqb s t
  | _, _ => false
  end.

(** [a === b] *)
Definition strict_equals (a b : value) : bool :=
  match a, b with
  | JsUndefined, JsUndefined | JsNull, JsNull => true
  | JsNumber m, JsNumber n => strict_equals_number m n
  | JsString s, JsString t => String.eqb s t
  | _, _ => false
  end.

(** [array[index]]: [undefined] out of range. *)
Definition element (array : list number) (index : nat) : value :=
  match array !! index with
  | Some n => JsNumber n
  | None => JsUndefined
  end.

(** [Array.prototype.sort(comparefn)].  The sort is stable, and
    [comparefn(x, y) > 0] puts [x] after [y]; a comparator that orders the
    elements consistently leaves one possible result, the one built here
    by inserting every element in front of the first one it does not
    have to follow.  (When the comparator is not consistent, as with
    [NaN] results, the order is left to the implementation.) *)
Fixpoint insert {A} (comparefn : A -> A -> number) (x : A) (sorted : list A)
  : list A :=
  match sorted with
  | [] => [x]
  | y :: t =>
      if lt_number (Finite 0) (comparefn x y)
      then y :: insert comparefn x t
      else x :: sorted
  end.

Definition sort {A} (comparefn : A -> A -> number) (array : list A) : list A :=
  fold_right (insert comparefn) [] array.

(** [array.slice(start, end)] *)
Definition slice {A} (array : list A) (start end_ : nat) : list A :=
  take (end_ - start) (drop start array).

End Operators.

(** ** The feature importance chart ([FeatureImportanceChart.tsx]) *)

Module FeatureImportanceChart.
Import Js Operators Dashboard.

Definition compareFn (a b : FeatureImportance) : number :=
  sub_number (importance b) (importance a).

Definition sortedData (data : list FeatureImportance) : list FeatureImportance :=
  slice (sort compareFn data) 0 10.

(** The labels and the values of the bars. *)
Record ChartData := {
  labels : list string;
  dataset : list number
}.

Definition chartData (data : list FeatureImportance) : ChartData :=
  {| labels := map feature (sortedData data);
     dataset := map importance (sortedData data) |}.

(** Every importance is an ordinary number. *)
Definition finite_importances (data : list FeatureImportance) : bool :=
  forallb (fun item => match importance item with
                       | Finite _ => true
                       | _ => false
                       end) data.

(** Bar [a] is not shorter than bar [b]. *)
Definition not_below (a b : number) : Prop := lt_number a b = false.

(** The number an importance holds, and the order of the bars on it. *)
Definition key (item : FeatureImportance) : Q :=
  match importance item with Finite q => q | _ => 0 end.

Definition descending (a b : FeatureImportance) : Prop := key b <= key a.

End FeatureImportanceChart.

(** ** The ROC curve chart ([ROCCurveChart.tsx]) *)

Module ROCCurveChart.
Import Js Operators Dashboard.

Record Point := {
  x : value;
  y : value
}.

Definition labels (data : ROCCurveData) : list nat :=
  imap (fun index _ => index) (fpr data).

(** The points of the data set "ROC Curve". *)
Definition curve (data : ROCCurveData) : list Point :=
  imap (fun index fpr => {| x := JsNumber fpr; y := element (tpr data) index |})
       (fpr data).

(** The data set "Random Classifier". *)
Definition random_classifier : list Point :=
  [ {| x := JsNumber (Finite 0); y := JsNumber (Finite 0) |};
    {| x := JsNumber (Finite 1); y := JsNumber (Finite 1) |} ].

End ROCCurveChart.

(** ** The result panel ([PredictionResult.tsx]) *)

Module PredictionResult.
Import Js Operators.

Definition isSuccessful (props : PredictionForm.PredictionResponse) : bool :=
  strict_equals (PredictionForm.predicted_label props) (JsNumber (Finite 1)).

Definition isHighConfidence (props : PredictionForm.PredictionResponse) : bool :=
  gt (PredictionForm.confidence props) (Finite 0.5).

(** What the panel shows, as far as it depends on the properties: the
    heading, the explanation under it, the two percentages before
    formatting, and the badge next to the confidence. *)
Record View := {
  heading : string;
  explanation : string;
  probability_percent : number;
  confidence_percent : number;
  badge : string
}.

Definition render (props : PredictionForm.PredictionResponse) : View :=
  {| heading :=
       if isSuccessful props then "Successful Career Predicted"
       else "Career Success Unlikely";
     explanation :=
       if isSuccessful props
       then "This student is predicted to have a successful career outcome"
       else "This student may face challenges in achieving career success";
     probability_percent :=
       mul_number (ToNumber (PredictionForm.probability props)) (Finite 100);
     confidence_percent :=
       mul_number (ToNumber (PredictionForm.confidence props)) (Finite 100);
     badge :=
       if isHighConfidence props then "High Confidence"
       else "Moderate Confidence" |}.

(** The response of [POST /predict] as [response.data] holds it: the
    three fields of the back end's [PredictionResponse] as JSON
    numbers. *)
Definition response_data (r : Service.PredictionResponse)
  : PredictionForm.PredictionResponse :=
  {| PredictionForm.predicted_label :=
       JsNumber (Finite (inject_Z (Service.predicted_label r)));
     PredictionForm.probability := JsNumber (Finite (Service.probability r));
     PredictionForm.confidence := JsNumber (Finite (Service.confidence r)) |}.

End PredictionResult.

(** ** The pages that load data ([Dashboard.tsx], [HistoryTable.tsx])

    Both components keep the loaded data, a loading flag and an error,
    and fetch in the same way: the flag is set and the error cleared
    before the request, the data or the error is stored when it settles,
    and the flag is cleared in any case. *)

Module DashboardPage.
Import Js Dashboard.

Record State := {
  metrics : option ModelMetrics;
  loading : bool;
  error : value
}.

Definition initial_state : State :=
  {| metrics := None; loading := true; error := JsNull |}.

(** How [axios.get] settles: with the data of the response, or with an
    error whose [err.response?.data?.detail] is [detail]. *)
Inductive settled : Type :=
  | Fulfilled (data : ModelMetrics)
  | Rejected (detail : value).

(** [fetchMetrics] up to the [await]. *)
Definition fetchMetrics_requested (st : State) : State :=
  {| metrics := metrics st; loading := true; error := JsNull |}.

(** [fetchMetrics] from the [await] on. *)
Definition fetchMetrics_settled (outcome : settled) (st : State) : State :=
  match outcome with
  | Fulfilled data =>
      {| metrics := Some data; loading := false; error := error st |}
  | Rejected detail =>
      {| metrics := metrics st;
         loading := false;
         error := or detail (JsString "Failed to load metrics") |}
  end.

Definition fetchMetrics (outcome : settled) (st : State) : State :=
  fetchMetrics_settled outcome (fetchMetrics_requested st).

Inductive View : Type :=
  | Skeleton
  | ErrorPanel (message : value)
  | Page (cards : list MetricCardProps)
         (charts : option (list FeatureImportance * ROCCurveData)).

Definition render (st : State) : View :=
  if loading st then Skeleton
  else if truthy (error st) then ErrorPanel (error st)
  else Page (metric_cards (metrics st))
            (match metrics st with
             | Some m => Some (feature_importances m, roc_curve m)
             | None => None
             end).

(** The component after the fetch on mount and the retries, each
    settled before the next one starts. *)
Definition fetches (outcomes : list settled) : State :=
  fold_left (fun st outcome => fetchMetrics outcome st) outcomes initial_state.

End DashboardPage.

Module HistoryTable.
Import Js Operators.

(** [PredictionRecord] of [types.ts], as the response carries it:
    [input] is the object with the values of the request, the values
    that are numbers, strings or [null], or is [None] when the record has
    no object there ([undefined] or [null]). *)
Record PredictionRecord := {
  id : string;
  timestamp : string;
  input : option (gmap string value);
  predicted_label : value;
  probability : value
}.

Record State := {
  predictions : list PredictionRecord;
  loading : bool;
  error : value
}.

Definition initial_state : State :=
  {| predictions := []; loading := true; error := JsNull |}.

Inductive settled : Type :=
  | Fulfilled (data : list PredictionRecord)
  | Rejected (detail : value).

Definition fetchHistory_requested (st : State) : State :=
  {| predictions := predictions st; loading := true; error := JsNull |}.

Definition fetchHistory_settled (outcome : settled) (st : State) : State :=
  match outcome with
  | Fulfilled data =>
      {| predictions := data; loading := false; error := error st |}
  | Rejected detail =>
      {| predictions := predictions st;
         loading := false;
         error := or detail (JsString "Failed to load prediction history") |}
  end.

Definition fetchHistory (outcome : settled) (st : State) : State :=
  fetchHistory_settled outcome (fetchHistory_requested st).

(** Evaluating an expression of a cell either gives a value or throws a
    [TypeError]; [None] is the throw. *)

(** [input.name], with [input] the record's input: reading a property
    of [undefined] or [null] throws, a property that is not there is
    [undefined]. *)
Definition member (input : option (gmap string value)) (name : string)
  : option value :=
  match input with
  | Some o => Some (get o name)
  | None => None
  end.

(** [v.toFixed(digits)]: only a number has the method, and calling what
    is not there throws.  For a number the result is the number written
    with [digits] decimals; the cell is modelled by the number that is
    written. *)
Definition toFixed (v : value) : option number :=
  match v with
  | JsNumber n => Some n
  | _ => None
  end.

(** A row of the table: its key and background, the cells that print
    the input (the three scores through [toFixed(1)], the other values
    as they are), the outcome and the probability in percent, the number
    that [toFixed(2)] writes.  The cell of the timestamp is not
    modelled. *)
Record TableRow := {
  key : string;
  background : string;
  gpa : number;
  field_of_study : value;
  gender : value;
  internships : value;
  soft_skills : number;
  networking : number;
  outcome_text : string;
  probability_percent : number
}.

(** The row of a record, its cells evaluated from left to right. *)
Definition row (index : nat) (record : PredictionRecord) : option TableRow :=
  University_GPA ← member (input record) "University_GPA" ≫= toFixed;
  Field_of_Study ← member (input record) "Field_of_Study";
  Gender ← member (input record) "Gender";
  Internships_Completed ← member (input record) "Internships_Completed";
  Soft_Skills_Score ← member (input record) "Soft_Skills_Score" ≫= toFixed;
  Networking_Score ← member (input record) "Networking_Score" ≫= toFixed;
  Some
    {| key := id record;
       background :=
         if Nat.eqb (index mod 2) 0 then "bg-gray-800" else "bg-gray-750";
       gpa := University_GPA;
       field_of_study := Field_of_Study;
       gender := Gender;
       internships := Internships_Completed;
       soft_skills := Soft_Skills_Score;
       networking := Networking_Score;
       outcome_text :=
         if strict_equals (predicted_label record) (JsNumber (Finite 1))
         then "Successful" else "Not Successful";
       probability_percent :=
         mul_number (ToNumber (probability record)) (Finite 100) |}.

(** What the component returns; [Throws] when evaluating a row throws,
    so that nothing is returned. *)
Inductive View : Type :=
  | Spinner
  | ErrorPanel (message : value)
  | NoPredictionsYet
  | Table (rows : list TableRow) (showing : nat)
  | Throws.

(** [predictions.map((record, index) => ...)]: the rows, unless
    evaluating one of them throws. *)
Definition table_rows (predictions : list PredictionRecord)
  : option (list TableRow) :=
  mapM (fun cells : option TableRow => cells) (imap row predictions).

Definition render (st : State) : View :=
  if loading st then Spinner
  else if truthy (error st) then ErrorPanel (error st)
  else if Nat.eqb (length (predictions st)) 0 then NoPredictionsYet
  else match table_rows (predictions st) with
       | Some rows => Table rows (length (predictions st))
       | None => Throws
       end.

(** The component after the fetch on mount and the retries, each
    settled before the next one starts. *)
Definition fetches (outcomes : list settled) : State :=
  fold_left (fun st outcome => fetchHistory outcome st) outcomes initial_state.

(** A record whose scores can be printed: its input is an object in
    which the three scores are numbers. *)
Definition printable (record : PredictionRecord) : Prop :=
  exists o g s n,
    input record = Some o /\
    o !! "University_GPA"%string = Some (JsNumber g) /\
    o !! "Soft_Skills_Score"%string = Some (JsNumber s) /\
    o !! "Networking_Score"%string = Some (JsNumber n).

End HistoryTable.

(** ** The navigation bar ([Navbar.tsx]) *)

Module Navbar.

Definition isActive (pathname path : string) : bool := String.eqb pathname path.

Record NavLinkProps := {
  to : string;
  active : bool
}.

(** The four links, for the current [location.pathname]. *)
Definition NavLinks (pathname : string) : list NavLinkProps :=
  [ {| to := "/"; active := isActive pathname "/" |};
    {| to := "/dashboard"; active := isActive pathname "/dashboard" |};
    {| to := "/predict"; active := isActive pathname "/predict" |};
    {| to := "/history"; active := isActive pathname "/history" |} ].

End Navbar.

(** ** From the form to the API

    [axios.post] sends the form data as JSON.  [JSON.stringify] leaves
    out a property that is [undefined]; a finite number and a string are
    written as they are.  [NaN] and the infinities would be written as
    [null] and a value of the wrong type as it is: such bodies are not
    among the modelled ones.  A whole number below 10^21 in magnitude is
    written as an integer literal, every other number as a float; an
    integer literal of 2^63 or more is not among the modelled bodies
    either. *)

Module Client.
Import Js Api.

(** A whole number that is written as an integer literal too large for
    the modelled bodies. *)
Definition large_integer_literal (q : Q) : bool :=
  is_integral q && negb (fits_int64 (Qnum (Qred q))) &&
  negb (Qle_bool (inject_Z (10 ^ 21)) (Qabs q)).

Definition json_number (v : option value) : option (option Q) :=
  match v with
  | None | Some JsUndefined => Some None
  | Some (JsNumber (Finite q)) =>
      if large_integer_literal q then None else Some (Some q)
  | _ => None
  end.

Definition json_string (v : option value) : option (option string) :=
  match v with
  | None | Some JsUndefined => Some None
  | Some (JsString s) => Some (Some s)
  | _ => None
  end.

Definition request_body (o : gmap string value) : option RequestBody :=
  match json_number (o !! "University_GPA"%string),
        json_string (o !! "Field_of_Study"%string),
        json_string (o !! "Gender"%string),
        json_number (o !! "Internships_Completed"%string),
        json_number (o !! "Soft_Skills_Score"%string),
        json_number (o !! "Networking_Score"%string) with
  | Some gpa, Some fos, Some gender, Some internships, Some soft, Some net =>
      Some {| body_University_GPA := gpa;
              body_Field_of_Study := fos;
              body_Gender := gender;
              body_Internships_Completed := internships;
              body_Soft_Skills_Score := soft;
              body_Networking_Score := net |}
  | _, _, _, _, _, _ => None
  end.

(** A text property that holds a string. *)
Definition holds_string (o : gmap string value) (name : string) : Prop :=
  exists s, o !! name = Some (JsString s).

Definition text_fields : list string := ["Field_of_Study"; "Gender"]%string.

(** Every numeric property holds an ordinary number. *)
Definition finite_fields (o : gmap string value) : Prop :=
  forall name, In name PredictionForm.numeric_fields ->
               exists q, o !! name = Some (JsNumber (Finite q)).

End Client.

(** ** The training labels ([create_target_variable])

    A pandas [DataFrame] is its column labels and its rows; a row maps
    the labels of the cells that hold a value to the values, a cell
    without a value (NaN) being an absent key. *)

Module Training.

Record Frame := {
  columns : list string;
  rows : list Row
}.

Inductive outcome (A : Type) : Type :=
  | Returned (a : A)
  | KeyError (key : string)
  | TypeError.

Arguments Returned {A} a.
Arguments KeyError {A} key.
Arguments TypeError {A}.

Definition then_ {A B} (r : outcome A) (k : A -> outcome B) : outcome B :=
  match r with
  | Returned a => k a
  | KeyError key => KeyError key
  | TypeError => TypeError
  end.

(** [df[name]] *)
Definition getitem (df : Frame) (name : string) : outcome (list (option cell)) :=
  if bool_decide (name ∈ columns df)
  then Returned (map (fun r : Row => r !! name) (rows df))
  else KeyError name.

Definition is_text (c : option cell) : bool :=
  match c with Some (Str _) => true | _ => false end.

(** [series >= bound], element by element: NaN compares false, and a
    string cannot be compared with a number. *)
Definition ge (series : list (option cell)) (bound : Q) : outcome (list bool) :=
  if existsb is_text series then TypeError
  else Returned (map (fun c => match c with
                               | Some (Num v) => Qle_bool bound v
                               | _ => false
                               end) series).

(** [a & b] *)
Definition and_ (a b : list bool) : list bool := zip_with andb a b.

(** [series.astype(int)] *)
Definition astype_int (series : list bool) : list Z :=
  map (fun b : bool => if b then 1%Z else 0%Z) series.

(** [df[name] = series] *)
Definition setitem (df : Frame) (name : string) (series : list Z) : Frame :=
  {| columns := if bool_decide (name ∈ columns df) then columns df
                else columns df ++ [name];
     rows := zip_with (fun (r : Row) v => <[name := Num (inject_Z v)]> r)
                      (rows df) series |}.

Definition create_target_variable (df : Frame) : outcome Frame :=
  then_ (getitem df "Starting_Salary") (fun salary =>
  then_ (ge salary 50000) (fun well_paid =>
  then_ (getitem df "Career_Satisfaction") (fun satisfaction =>
  then_ (ge satisfaction 7) (fun satisfied =>
  Returned (setitem df "Career_Success"
              (astype_int (and_ well_paid satisfied))))))).

(** The cells of column [name] hold numbers or nothing. *)
Definition numeric_column (df : Frame) (name : string) : Prop :=
  name ∈ columns df /\
  Forall (fun r : Row => is_text (r !! name) = false) (rows df).

End Training.

(** ** More example data *)

Module Scenarios.
Import Preprocessing Sklearn Service Api Examples.

(** A forest fitted on a training partition whose labels are all 1
    (end-to-end scenario 4): one class, one weight per leaf. *)
Definition one_class_forest : Forest.RandomForestClassifier :=
  {| Forest.estimators_ := repeat (Forest.Leaf [3]) 200;
     Forest.classes_ := [1]%Z |}.

Definition one_class_pipeline : Pipeline :=
  {| preprocessor := preprocessor_fit sqrt_floor X_train;
     classifier := one_class_forest |}.

(** The valid record of [typing], then two and a half internships. *)
Definition typing_fraction : list (string * string) :=
  typing ++ [("Internships_Completed"%string, "2.5"%string)].

(** Three graduates: well paid and satisfied, well paid only, and one
    whose satisfaction was not recorded. *)
Definition graduates : Training.Frame :=
  {| Training.columns := ["Starting_Salary"; "Career_Satisfaction"]%string;
     Training.rows :=
       [ <["Starting_Salary"%string := Num 62000]>
           (<["Career_Satisfaction"%string := Num 8]> ∅);
         <["Starting_Salary"%string := Num 75000]>
           (<["Career_Satisfaction"%string := Num 5]> ∅);
         <["Starting_Salary"%string := Num 50000]> ∅ ] |}.

Definition importance_of (name : string) (percent : Z) : Dashboard.FeatureImportance :=
  {| Dashboard.feature := name;
     Dashboard.importance := Js.Finite (inject_Z percent / 100) |}.

(** The importances of twelve encoded features. *)
Definition importances : list Dashboard.FeatureImportance :=
  [ importance_of "num__University_GPA" 21;
    importance_of "num__Soft_Skills_Score" 17;
    importance_of "num__Networking_Score" 19;
    importance_of "num__Internships_Completed" 12;
    importance_of "cat__Field_of_Study_Arts" 2;
    importance_of "cat__Field_of_Study_Biology" 4;
    importance_of "cat__Field_of_Study_Business" 5;
    importance_of "cat__Field_of_Study_Computer Science" 8;
    importance_of "cat__Field_of_Study_Law" 1;
    importance_of "cat__Field_of_Study_Medicine" 3;
    importance_of "cat__Gender_Female" 4;
    importance_of "cat__Gender_Male" 4 ].

End Scenarios.

(** * Properties

    Facts about the embedding, grouped by the part of the system they are
    about; the statements of the specification follow them. *)

(** ** Arithmetic *)

Module NumericFacts.

Lemma Qlt_bool_iff x y : Forest.Qlt_bool x y = true <-> x < y.
Proof.
  unfold Forest.Qlt_bool. rewrite negb_true_iff. split; intros H.
  - apply Qnot_le_lt. intros Hle. apply Qle_bool_iff in Hle. congruence.
  - destruct (Qle_bool y x) eqn:E; [ | reflexivity ].
    apply Qle_bool_iff in E. lra.
Qed.

Lemma Qle_bool_false x y : y < x -> Qle_bool x y = false.
Proof.
  intros H. destruct (Qle_bool x y) eqn:E; [ | reflexivity ].
  apply Qle_bool_iff in E. lra.
Qed.

Lemma Qlen_nil {A} : Qlen (@nil A) = 0.
Proof. reflexivity. Qed.

Lemma Qlen_cons {A} (a : A) l : Qlen (a :: l) == Qlen l + 1.
Proof.
  unfold Qlen. cbn [length].
  rewrite Nat2Z.inj_succ, <- Z.add_1_r, inject_Z_plus. reflexivity.
Qed.

Lemma Qlen_pos {A} (l : list A) : l <> [] -> 0 < Qlen l.
Proof.
  intros H. unfold Qlen. rewrite <- (Zlt_Qlt 0).
  destruct l; [ congruence | cbn; lia ].
Qed.

Lemma Qsum_nil : Qsum [] = 0.
Proof. reflexivity. Qed.

Lemma Qsum_cons x l : Qsum (x :: l) = x + Qsum l.
Proof. reflexivity. Qed.

Lemma Qsum_zeros n : Qsum (repeat 0 n) == 0.
Proof.
  induction n as [|n IH]; cbn [repeat]; [ reflexivity | ].
  rewrite Qsum_cons, IH. lra.
Qed.

Lemma Qsum_scale v s : Qsum (map (fun x => x / s) v) == Qsum v / s.
Proof.
  induction v as [|x v IH]; cbn [map].
  - rewrite Qsum_nil. unfold Qdiv. now rewrite Qmult_0_l.
  - rewrite !Qsum_cons, IH. unfold Qdiv. ring.
Qed.

Lemma Qsum_nonneg l : Forall (fun x => 0 <= x) l -> 0 <= Qsum l.
Proof. induction 1; [ rewrite Qsum_nil | rewrite Qsum_cons ]; lra. Qed.

Lemma Qsum_ge_member l x :
  Forall (fun y => 0 <= y) l -> In x l -> x <= Qsum l.
Proof.
  induction 1 as [|y l Hy Hl IH]; intros Hin; [ destruct Hin | ].
  rewrite Qsum_cons. pose proof (Qsum_nonneg l Hl).
  destruct Hin as [<- | Hin]; [ lra | ].
  specialize (IH Hin). lra.
Qed.

End NumericFacts.

(** ** The forest *)

Module ForestFacts.
Import Forest NumericFacts.

Lemma binary_tree_apply t x :
  binary_tree t = true ->
  exists a b, apply t x = [a; b] /\ 0 <= a /\ 0 <= b /\ 0 < a + b.
Proof.
  induction t as [v | f th d l IHl r IHr]; cbn [binary_tree apply].
  - destruct v as [|a [|b [|c v]]]; try discriminate.
    rewrite !andb_true_iff, !Qle_bool_iff, Qlt_bool_iff. intros [[Ha Hb] Hs].
    exists a, b. auto.
  - rewrite andb_true_iff. intros [Hl Hr].
    destruct (Qle_bool (nth f x 0) th); auto.
Qed.

Lemma binary_tree_proba t x :
  binary_tree t = true ->
  exists a b, tree_predict_proba t x = [a; b] /\ a + b == 1.
Proof.
  intros H. destruct (binary_tree_apply t x H) as (a & b & E & Ha & Hb & Hs).
  unfold tree_predict_proba. rewrite E, !Qsum_cons, Qsum_nil.
  destruct (Qeq_bool (a + (b + 0)) 0) eqn:Eq.
  - apply Qeq_bool_iff in Eq. lra.
  - cbn [map]. eexists _, _. split; [ reflexivity | ]. field. lra.
Qed.

(** Every tree adds one vote, split between the two classes. *)
Lemma votes_sum x ts : forall a0 a1 k,
  forallb binary_tree ts = true -> a0 + a1 == k ->
  exists s0 s1,
    fold_left (fun acc t => vadd acc (tree_predict_proba t x)) ts [a0; a1]
      = [s0; s1] /\
    s0 + s1 == k + Qlen ts.
Proof.
  induction ts as [|t ts IH]; intros a0 a1 k Hall Hk.
  - exists a0, a1. split; [ reflexivity | ]. rewrite Qlen_nil. lra.
  - cbn [forallb] in Hall. apply andb_true_iff in Hall as [Ht Hall].
    destruct (binary_tree_proba t x Ht) as (a & b & E & Hab).
    cbn [fold_left]. rewrite E. cbn [vadd].
    destruct (IH (a0 + a) (a1 + b) (k + 1) Hall) as (s0 & s1 & Ef & Hs);
      [ lra | ].
    exists s0, s1. split; [ exact Ef | ].
    rewrite Hs. pose proof (Qlen_cons t ts). lra.
Qed.

(** In a two-class forest the two probabilities add up to 1 and the
    predicted class is 1 only when its probability is the larger one. *)
Lemma binary_forest_proba rf x :
  binary_forest rf = true ->
  exists p0 p1,
    predict_proba rf x = [p0; p1] /\ p0 + p1 == 1 /\
    predict rf x = (if Qlt_bool p0 p1 then 1 else 0)%Z.
Proof.
  unfold binary_forest.
  rewrite !andb_true_iff, bool_decide_eq_true, negb_true_iff.
  intros [[Hc Hn] Hall]. apply Nat.eqb_neq in Hn.
  unfold predict, predict_proba. rewrite Hc. cbn [length repeat].
  destruct (votes_sum x (estimators_ rf) 0 0 0 Hall) as (s0 & s1 & E & Hs);
    [ lra | ].
  rewrite E. cbn [map]. eexists _, _. split; [ reflexivity | ].
  assert (Hlen : 0 < Qlen (estimators_ rf)).
  { apply Qlen_pos. intros El. rewrite El in Hn. now apply Hn. }
  split.
  - field_simplify_eq; [ lra | lra ].
  - cbn [argmax argmax_from].
    destruct (Qlt_bool (s0 / Qlen (estimators_ rf)) (s1 / Qlen (estimators_ rf)));
      reflexivity.
Qed.

(** *** Importances *)

Lemma vadd_length a : forall b,
  length a = length b -> length (vadd a b) = length a.
Proof.
  induction a as [|x a IH]; intros [|y b] H; cbn in *; try congruence.
  f_equal. apply IH. congruence.
Qed.

Lemma Qsum_vadd a : forall b,
  length a = length b -> Qsum (vadd a b) == Qsum a + Qsum b.
Proof.
  induction a as [|x a IH]; intros [|y b] H; cbn [length] in H;
    try discriminate; cbn [vadd].
  - rewrite Qsum_nil. lra.
  - rewrite !Qsum_cons, IH by congruence. lra.
Qed.

Lemma add_at_length i d : forall v, length (add_at i d v) = length v.
Proof.
  revert i. induction i as [|i IH]; intros [|x v]; cbn; try reflexivity.
  f_equal. apply IH.
Qed.

Lemma Qsum_add_at d : forall i v,
  (i < length v)%nat -> Qsum (add_at i d v) == Qsum v + d.
Proof.
  induction i as [|i IH]; intros [|x v] H; cbn [length] in H; try lia;
    cbn [add_at]; rewrite !Qsum_cons.
  - lra.
  - rewrite IH by lia. lra.
Qed.

Lemma impurity_decreases_length n t : length (impurity_decreases n t) = n.
Proof.
  induction t as [v | f th d l IHl r IHr]; cbn [impurity_decreases].
  - apply repeat_length.
  - rewrite add_at_length, vadd_length; congruence.
Qed.

Lemma impurity_decreases_nonneg n t :
  attributed n t = true -> 0 <= Qsum (impurity_decreases n t).
Proof.
  induction t as [v | f th d l IHl r IHr]; cbn [attributed impurity_decreases].
  - intros _. rewrite Qsum_zeros. lra.
  - rewrite !andb_true_iff, Nat.ltb_lt, Qle_bool_iff.
    intros [[[Hf Hd] Hl] Hr].
    rewrite Qsum_add_at
      by (rewrite vadd_length; rewrite !impurity_decreases_length; auto).
    rewrite Qsum_vadd by (now rewrite !impurity_decreases_length).
    specialize (IHl Hl). specialize (IHr Hr). lra.
Qed.

Lemma normalize_length v : length (normalize v) = length v.
Proof.
  unfold normalize.
  destruct (Qlt_bool 0 (Qsum v)); [ apply length_map | reflexivity ].
Qed.

Lemma Qsum_normalize v : 0 < Qsum v -> Qsum (normalize v) == 1.
Proof.
  intros H. unfold normalize. rewrite (proj2 (Qlt_bool_iff _ _) H).
  rewrite Qsum_scale. field. lra.
Qed.

Lemma Qsum_normalize_nonneg v : 0 <= Qsum v -> 0 <= Qsum (normalize v).
Proof.
  intros H. unfold normalize.
  destruct (Qlt_bool 0 (Qsum v)) eqn:E; [ | exact H ].
  apply Qlt_bool_iff in E. rewrite Qsum_scale.
  apply Qle_shift_div_l; [ exact E | lra ].
Qed.

Lemma tree_importances_length n t : length (tree_feature_importances n t) = n.
Proof.
  unfold tree_feature_importances.
  now rewrite normalize_length, impurity_decreases_length.
Qed.

Lemma Qsum_fold_vadd n all : forall acc,
  length acc = n ->
  Forall (fun v => length v = n) all ->
  length (fold_left vadd all acc) = n /\
  Qsum (fold_left vadd all acc) == Qsum acc + Qsum (map Qsum all).
Proof.
  induction all as [|v all IH]; intros acc Hacc Hall; cbn [fold_left map].
  - split; [ exact Hacc | rewrite Qsum_nil; lra ].
  - inversion Hall as [|? ? Hv Hall']; subst.
    destruct (IH (vadd acc v)) as [Hl Hs];
      [ rewrite vadd_length; congruence | exact Hall' | ].
    split; [ exact Hl | ].
    rewrite Hs, Qsum_vadd, Qsum_cons by congruence. lra.
Qed.

(** The importances of a forest with an informative tree sum to 1. *)
Lemma feature_importances_sum rf n :
  forallb (attributed n) (estimators_ rf) = true ->
  informative n rf = true ->
  Qsum (feature_importances_ rf n) == 1.
Proof.
  intros Hatt Hinf. unfold feature_importances_.
  set (ts := List.filter has_split (estimators_ rf)).
  set (all := map (tree_feature_importances n) ts).
  rewrite forallb_forall in Hatt.
  unfold informative in Hinf. apply existsb_exists in Hinf as (t & Ht & Hpos).
  apply Qlt_bool_iff in Hpos.
  assert (Hts : In t ts).
  { apply filter_In. split; [ exact Ht | ].
    destruct t; [ | reflexivity ].
    cbn [impurity_decreases] in Hpos. rewrite Qsum_zeros in Hpos. lra. }
  assert (Hone : exists x, In x (map Qsum all) /\ x == 1).
  { exists (Qsum (tree_feature_importances n t)). split.
    - apply in_map. unfold all. apply in_map. exact Hts.
    - apply Qsum_normalize. exact Hpos. }
  assert (Hnonneg : Forall (fun y => 0 <= y) (map Qsum all)).
  { apply List.Forall_forall. intros y Hy.
    apply in_map_iff in Hy as (v & <- & Hv).
    apply in_map_iff in Hv as (u & <- & Hu).
    apply Qsum_normalize_nonneg, impurity_decreases_nonneg, Hatt.
    apply filter_In in Hu. tauto. }
  assert (Hsum : 1 <= Qsum (map Qsum all)).
  { destruct Hone as (x & Hx & Ex). rewrite <- Ex. now apply Qsum_ge_member. }
  assert (Hall : Forall (fun v => length v = n) all).
  { apply List.Forall_forall. intros v Hv.
    apply in_map_iff in Hv as (u & <- & _). apply tree_importances_length. }
  destruct (Qsum_fold_vadd n all (repeat 0 n) (repeat_length _ _) Hall)
    as [_ Hfold].
  rewrite Qsum_zeros in Hfold.
  assert (Hne : all <> []).
  { intros E. unfold all in E. apply map_eq_nil in E.
    rewrite E in Hts. destruct Hts. }
  pose proof (Qlen_pos all Hne) as Hk.
  destruct all as [|v0 all'] eqn:Eall; [ congruence | ].
  rewrite <- Eall in *.
  set (mean := map (fun s => s / Qlen all) (fold_left vadd all (repeat 0 n))).
  assert (Hmean : 0 < Qsum mean).
  { unfold mean. rewrite Qsum_scale, Hfold.
    apply Qlt_shift_div_l; [ exact Hk | lra ]. }
  rewrite Qsum_scale. field. lra.
Qed.

(** Without any split they are all zero. *)
Lemma feature_importances_stumps rf n :
  forallb (fun t => negb (has_split t)) (estimators_ rf) = true ->
  feature_importances_ rf n = repeat 0 n.
Proof.
  intros H. unfold feature_importances_.
  assert (E : List.filter has_split (estimators_ rf) = []).
  { induction (estimators_ rf) as [|t ts IH]; [ reflexivity | ].
    cbn [forallb] in H. apply andb_true_iff in H as [Ht Hts].
    cbn [List.filter]. apply negb_true_iff in Ht. rewrite Ht. auto. }
  now rewrite E.
Qed.

End ForestFacts.

(** ** Preprocessing *)

Module PreprocessingFacts.
Import Preprocessing Sklearn NumericFacts.

Lemma numerical_fit_scaler sqrt col nc :
  numerical_fit sqrt col = Some nc ->
  scaler nc = scaler_fit sqrt (map (mean_imputer_transform (statistics_ nc)) col).
Proof.
  unfold numerical_fit. destruct (mean_imputer_fit col); [ | discriminate ].
  intros H. injection H as <-. reflexivity.
Qed.


Lemma Qsum_all_eq l c : Forall (fun x => x == c) l -> Qsum l == Qlen l * c.
Proof.
  induction 1 as [|x l Hx Hl IH].
  - change (Qsum []) with 0. change (Qlen (@nil Q)) with 0. lra.
  - assert (Hx' : x == c) by exact Hx.
    rewrite Qsum_cons, IH, (Qlen_cons x l). lra.
Qed.

Lemma Qmean_all_eq l c :
  l <> [] -> Forall (fun x => x == c) l -> Qmean l == c.
Proof.
  intros Hne Hall. unfold Qmean. rewrite (Qsum_all_eq l c Hall).
  pose proof (Qlen_pos l Hne). field. lra.
Qed.

Lemma Qvar_all_eq l c : Forall (fun x => x == c) l -> Qvar l == 0.
Proof.
  intros Hall. destruct l as [|x l]; [ reflexivity | ].
  unfold Qvar.
  assert (Hm : Qmean (x :: l) == c) by (apply Qmean_all_eq; [ discriminate | exact Hall ]).
  apply Qmean_all_eq; [ discriminate | ].
  rewrite List.Forall_map. eapply List.Forall_impl; [ | exact Hall ].
  intros y Hy. cbn beta. unfold Qsquare. rewrite Hy, Hm. ring.
Qed.

Lemma constant_present c col :
  constant c col -> Forall (fun v => v == c) (omap id col).
Proof.
  induction 1 as [|x col Hx Hcol IH]; [ constructor | ].
  destruct x as [v|]; cbn; [ constructor; assumption | exact IH ].
Qed.

(** A feature that is constant on the training partition has standard
    deviation 0 there, and its mean is the constant. *)
Lemma constant_column_std_zero sqrt col c nc :
  constant c col ->
  numerical_fit sqrt col = Some nc ->
  std_is_zero nc /\ mean_ (scaler nc) == c /\ statistics_ nc == c.
Proof.
  intros Hc Hfit. unfold numerical_fit, mean_imputer_fit in Hfit.
  pose proof (constant_present c col Hc) as Hp.
  destruct (omap id col) as [|v vs] eqn:E; [ discriminate | ].
  injection Hfit as <-. cbn [scaler statistics_ scaler_fit mean_ var_].
  assert (Hstat : Qmean (v :: vs) == c)
    by (apply Qmean_all_eq; [ discriminate | exact Hp ]).
  assert (Hall : Forall (fun x => x == c)
            (map (mean_imputer_transform (Qmean (v :: vs))) col)).
  { rewrite List.Forall_map. eapply List.Forall_impl; [ | exact Hc ].
    intros [x|] Hx; cbn; [ exact Hx | exact Hstat ]. }
  assert (Hne : map (mean_imputer_transform (Qmean (v :: vs))) col <> []).
  { destruct col; [ discriminate | discriminate ]. }
  unfold std_is_zero. cbn [scaler var_].
  split; [ eapply Qvar_all_eq; exact Hall | ].
  split; [ apply Qmean_all_eq; assumption | exact Hstat ].
Qed.

Lemma insert_sorted_In s l x : In x (insert_sorted s l) <-> x = s \/ In x l.
Proof.
  induction l as [|h t IH]; cbn [insert_sorted].
  - cbn. intuition congruence.
  - destruct (String.eqb s h) eqn:E.
    + apply String.eqb_eq in E. subst. cbn. intuition congruence.
    + destruct (String.ltb s h); cbn [In]; [ intuition congruence | ].
      rewrite IH. intuition congruence.
Qed.

Lemma unique_In l x : In x (unique l) <-> In x l.
Proof.
  unfold unique. induction l as [|h t IH]; cbn [fold_right]; [ tauto | ].
  rewrite insert_sorted_In, IH. cbn. intuition congruence.
Qed.

Lemma present_In {A} (col : list (option A)) x : In x (omap id col) <-> In (Some x) col.
Proof.
  induction col as [|[v|] col IH]; cbn; [ tauto | | ].
  - rewrite IH. intuition congruence.
  - rewrite IH. intuition congruence.
Qed.

Lemma most_frequent_fit_In col stat :
  most_frequent_fit col = Some stat -> In (Some stat) col.
Proof.
  unfold most_frequent_fit. intros H. apply present_In, unique_In.
  revert H. generalize (unique (omap id col)).
  set (xs := omap id col).
  assert (G : forall l best,
    fold_left
      (fun best c =>
         match best with
         | None => Some c
         | Some b =>
             if Nat.ltb (count_occ_str b xs) (count_occ_str c xs)
             then Some c else Some b
         end) l best = Some stat ->
    best = Some stat \/ In stat l).
  { induction l as [|c l IH]; intros best H; cbn [fold_left] in H; [ auto | ].
    apply IH in H as [H | H]; [ | right; right; exact H ].
    destruct best as [b|].
    - destruct (Nat.ltb _ _); injection H as <-; [ right; left | left ]; reflexivity.
    - injection H as <-. right; left; reflexivity. }
  intros l H. apply G in H as [H | H]; [ discriminate | exact H ].
Qed.

(** The vocabulary fitted for a categorical feature is the set of values
    the feature takes on the training partition. *)
Lemma vocabulary_is_training_values hu col cc s :
  categorical_fit hu col = Some cc ->
  In s (categories_ (onehot cc)) <-> In (Some s) col.
Proof.
  unfold categorical_fit. destruct (most_frequent_fit col) as [stat|] eqn:E;
    [ | discriminate ].
  intros H. injection H as <-. cbn [onehot onehot_fit categories_].
  rewrite unique_In, in_map_iff. apply most_frequent_fit_In in E. split.
  - intros ([v|] & Hv & Hin); cbn in Hv; subst; assumption.
  - intros Hin. exists (Some s). auto.
Qed.

Lemma indicator_unknown enc v :
  known enc v = false ->
  indicator enc v = repeat 0 (length (categories_ enc)).
Proof.
  unfold known, indicator.
  induction (categories_ enc) as [|c cs IH]; cbn [existsb map length repeat];
    [ reflexivity | ].
  rewrite orb_false_iff. intros [Hc Hcs].
  rewrite String.eqb_sym, Hc. f_equal. auto.
Qed.

Lemma known_false enc v : ~ In v (categories_ enc) -> known enc v = false.
Proof.
  intros H. unfold known. destruct (existsb _ _) eqn:E; [ | reflexivity ].
  apply existsb_exists in E as (c & Hin & Heq).
  apply String.eqb_eq in Heq. subst. contradiction.
Qed.

Lemma onehot_ignore enc v :
  handle_unknown enc = HandleIgnore ->
  onehot_transform enc v = Ok (indicator enc v).
Proof. unfold onehot_transform. intros ->. now destruct (known enc v). Qed.

(** Under ['error'] the same value makes the encoder raise. *)
Lemma onehot_error enc v :
  handle_unknown enc = HandleError -> known enc v = false ->
  is_Ok (onehot_transform enc v) = false.
Proof. unfold onehot_transform. now intros -> ->. Qed.

Lemma categorical_fit_ignore col cc :
  categorical_fit HandleIgnore col = Some cc ->
  handle_unknown (onehot cc) = HandleIgnore.
Proof.
  unfold categorical_fit. destruct (most_frequent_fit col); [ | discriminate ].
  intros H. injection H as <-. reflexivity.
Qed.

Lemma categorical_cell_fitted X_train name r :
  categorical_cell
    (categorical_fit HandleIgnore (map (str_cell name) X_train))
    (str_cell name r) = Ok (block X_train name r).
Proof.
  unfold block, categorical_cell, categorical_transform.
  destruct (categorical_fit _ _) as [cc|] eqn:E; [ | reflexivity ].
  apply onehot_ignore. eapply categorical_fit_ignore. eassumption.
Qed.

(** The encoder of a fitted pipeline never raises. *)
Lemma preprocessor_transform_fitted sqrt X_train r :
  let ct := preprocessor_fit sqrt X_train in
  preprocessor_transform ct r =
    Ok (num_block ct r ++ block X_train "Field_of_Study" r
                       ++ block X_train "Gender" r).
Proof.
  intros ct. unfold preprocessor_transform, cat_blocks. subst ct.
  cbn [preprocessor_fit cat create_ml_pipeline cat_columns onehot_handle_unknown
       categorical_features map column_fit fst snd].
  rewrite !categorical_cell_fitted. cbn [concat_results].
  now rewrite app_nil_r.
Qed.

End PreprocessingFacts.

(** ** The service *)

Module ServiceFacts.
Import Sklearn Service.

Lemma bind_Ok {A B} (m : M A) (k : A -> M B) w b w' :
  bind m k w = (Ok b, w') ->
  exists a w1, m w = (Ok a, w1) /\ k a w1 = (Ok b, w').
Proof.
  unfold bind. destruct (m w) as [[a|e] w1]; intros H; [ eauto | discriminate ].
Qed.

Lemma bind_Raise {A B} (m : M A) (k : A -> M B) w e w' :
  m w = (Raise e, w') -> bind m k w = (Raise e, w').
Proof. unfold bind. now intros ->. Qed.

Lemma index_Ok {A} (l : list A) i a w w' :
  index l i w = (Ok a, w') -> l !! i = Some a.
Proof.
  unfold index. destruct (l !! i); cbn; intros H; [ | discriminate ].
  unfold ret in H. congruence.
Qed.

Lemma load_pipeline_cached w o :
  _cached_pipeline w = Some o -> load_pipeline w = (Ok o, w).
Proof. intros H. unfold load_pipeline, bind, get_cached. now rewrite H. Qed.

Lemma load_pipeline_empty w :
  untrained w ->
  exists w1,
    load_pipeline w = (Raise ModelNotTrainedError, w1) /\
    untrained w1 /\ predictions w1 = predictions w.
Proof.
  intros [Hc Hs]. unfold load_pipeline, bind, get_cached. rewrite Hc.
  unfold get_trained_pipeline, bind, emit. cbn. rewrite Hs. cbn.
  eexists. split; [ reflexivity | ]. unfold untrained. cbn. auto.
Qed.

Lemma load_pipeline_first w p :
  _cached_pipeline w = None -> trained_pipeline w = Some p ->
  let o := {| object_id := allocated w; pipeline_of := p |} in
  load_pipeline w =
    (Ok o,
     {| _cached_pipeline := Some o;
        trained_pipeline := Some p;
        predictions := predictions w;
        allocated := S (allocated w);
        log := (log w ++ [GetTrainedPipeline]) ++ [CloseDb] |}).
Proof.
  intros Hc Hs. unfold load_pipeline, bind, get_cached. rewrite Hc.
  unfold get_trained_pipeline, bind, emit. cbn. rewrite Hs. cbn. reflexivity.
Qed.

(** What [predict] returns is what the pipeline answers on the encoded
    input. *)
Lemma predict_Ok input w label proba w' :
  predict input w = (Ok (label, proba), w') ->
  exists o x,
    fst (load_pipeline w) = Ok o /\
    preprocessor_transform (preprocessor (pipeline_of o)) input = Ok x /\
    label = Forest.predict (classifier (pipeline_of o)) x /\
    Forest.predict_proba (classifier (pipeline_of o)) x !! 1%nat = Some proba.
Proof.
  unfold predict. intros H.
  apply bind_Ok in H as (o & w1 & Hl & H).
  apply bind_Ok in H as (df & w2 & Hdf & H).
  unfold preprocess_input, bind, emit, ret in Hdf. injection Hdf as <- _.
  apply bind_Ok in H as ([] & w3 & _ & H).
  apply bind_Ok in H as (labels & w4 & Hlab & H).
  apply bind_Ok in H as (l0 & w5 & Hl0 & H).
  apply bind_Ok in H as ([] & w6 & _ & H).
  apply bind_Ok in H as (probas & w7 & Hpr & H).
  apply bind_Ok in H as (first & w8 & Hfirst & H).
  apply bind_Ok in H as (p1 & w9 & Hp1 & H).
  unfold ret in H. injection H as -> -> _.
  apply index_Ok in Hl0, Hfirst, Hp1.
  unfold lift in Hlab, Hpr. injection Hlab as Hlab _. injection Hpr as Hpr _.
  unfold Sklearn.predict in Hlab. unfold Sklearn.predict_proba in Hpr.
  cbn [map_result] in Hlab, Hpr.
  destruct (preprocessor_transform (preprocessor (pipeline_of o)) input)
    as [x|e] eqn:Ex; [ | discriminate ].
  injection Hlab as <-. injection Hpr as <-.
  cbn in Hl0, Hfirst. injection Hl0 as <-. injection Hfirst as <-.
  exists o, x. rewrite Hl. auto.
Qed.

Lemma predict_untrained input w :
  untrained w ->
  exists w1,
    predict input w = (Raise ModelNotTrainedError, w1) /\
    untrained w1 /\ predictions w1 = predictions w.
Proof.
  intros Hu. destruct (load_pipeline_empty w Hu) as (w1 & Hl & Hu1 & Hp).
  exists w1. split; [ | auto ].
  unfold predict. apply bind_Raise, Hl.
Qed.

Lemma make_prediction_confidence input w r w' :
  make_prediction input w = (Ok r, w') ->
  confidence r = calculate_confidence (probability r).
Proof.
  unfold make_prediction. intros H.
  apply bind_Ok in H as (a & w1 & _ & H). injection H as <- _. reflexivity.
Qed.

Lemma calculate_confidence_half p :
  calculate_confidence p == Qabs (p - (1 # 2)) * 2.
Proof.
  unfold calculate_confidence.
  assert (H : p - 0.5 == p - (1 # 2)) by lra.
  now rewrite H.
Qed.

Lemma calculate_confidence_range p :
  0 <= p <= 1 -> 0 <= calculate_confidence p <= 1.
Proof.
  intros [H0 H1]. unfold calculate_confidence.
  assert (Ha : Qabs (p - 0.5) <= 0.5).
  { apply Qabs_Qle_condition. split; unfold Qminus; lra. }
  pose proof (Qabs_nonneg (p - 0.5)). split; lra.
Qed.

End ServiceFacts.

(** ** The API *)

Module ApiFacts.
Import Sklearn Service Api ServiceFacts NumericFacts.

Lemma body_Ok student w r w' :
  predict_career_success student w = (Ok r, w') ->
  confidence r = calculate_confidence (probability r) /\
  exists w1,
    predictions w' = predictions w1 ++
      [{| input_data := model_dump student;
          row_predicted_label := predicted_label r;
          row_probability := probability r |}].
Proof.
  unfold predict_career_success. intros H.
  apply bind_Ok in H as (pr & w1 & Hmk & H).
  apply bind_Ok in H as ([] & w2 & Hsave & H).
  injection H as <- <-. cbn.
  split; [ eapply make_prediction_confidence; eauto | ].
  unfold save_prediction, bind, emit in Hsave. cbn in Hsave.
  injection Hsave as <-. cbn. eauto.
Qed.

Lemma body_untrained student w :
  untrained w ->
  exists w1,
    predict_career_success student w = (Raise ModelNotTrainedError, w1) /\
    untrained w1 /\ predictions w1 = predictions w.
Proof.
  intros Hu.
  destruct (predict_untrained (model_dump student) w Hu) as (w1 & Hl & Hu1 & Hp).
  exists w1. split; [ | auto ].
  unfold predict_career_success, make_prediction.
  apply bind_Raise, bind_Raise, Hl.
Qed.

Lemma endpoint_untrained body w :
  untrained w -> untrained (snd (post_predict body w)).
Proof.
  intros Hu. unfold post_predict.
  destruct (validate body) as [student|e]; [ | exact Hu ].
  destruct (body_untrained student w Hu) as (w1 & -> & Hu1 & _). exact Hu1.
Qed.

Lemma serve_untrained reqs : forall w, untrained w -> untrained (serve reqs w).
Proof.
  induction reqs as [|b t IH]; intros w Hu; cbn [serve]; [ exact Hu | ].
  apply IH, endpoint_untrained, Hu.
Qed.

Lemma validate_score_absent name : rejects name (validate_score name None).
Proof. eexists. reflexivity. Qed.

Lemma validate_score_out name q :
  q < 0 \/ 10 < q -> rejects name (validate_score name (Some q)).
Proof.
  intros [H | H]; unfold validate_score.
  - rewrite (Qle_bool_false 0 q H). eexists. reflexivity.
  - destruct (Qle_bool 0 q); cbn [negb]; [ | eexists; reflexivity ].
    rewrite (Qle_bool_false q 10 H). eexists. reflexivity.
Qed.

Lemma validate_text_absent name : rejects name (validate_text name None).
Proof. eexists. reflexivity. Qed.

Lemma validate_count_absent name : rejects name (validate_count name None).
Proof. eexists. reflexivity. Qed.

Lemma validate_count_out name q :
  q < 0 -> rejects name (validate_count name (Some q)).
Proof.
  intros H. unfold validate_count.
  destruct (is_integral q); cbn [negb]; [ | eexists; reflexivity ].
  destruct (fits_int64 (Qnum (Qred q))); cbn [negb]; [ | eexists; reflexivity ].
  assert (Hr : Qred q < 0) by (rewrite Qred_correct; exact H).
  unfold Qlt in Hr. cbn in Hr.
  replace (0 <=? Qnum (Qred q))%Z with false by (symmetry; apply Z.leb_gt; lia).
  eexists. reflexivity.
Qed.

(** When some field is refused, validation fails with the errors of all
    the fields. *)
Lemma validate_collects b :
  let gpa := validate_score "University_GPA" (body_University_GPA b) in
  let fos := validate_text "Field_of_Study" (body_Field_of_Study b) in
  let gen := validate_text "Gender" (body_Gender b) in
  let int := validate_count "Internships_Completed" (body_Internships_Completed b) in
  let sof := validate_score "Soft_Skills_Score" (body_Soft_Skills_Score b) in
  let net := validate_score "Networking_Score" (body_Networking_Score b) in
  errors_of gpa ++ errors_of fos ++ errors_of gen ++
    errors_of int ++ errors_of sof ++ errors_of net <> [] ->
  validate b =
    Raise (ValidationError
             (errors_of gpa ++ errors_of fos ++ errors_of gen ++
              errors_of int ++ errors_of sof ++ errors_of net)).
Proof.
  intros gpa fos gen int sof net. unfold validate.
  fold gpa fos gen int sof net.
  destruct gpa, fos, gen, int, sof, net; cbn; intros H;
    first [ reflexivity | now destruct H ].
Qed.

Lemma validate_rejects b f : offending b f ->
  exists errs kind, validate b = Raise (ValidationError errs) /\ In (f, kind) errs.
Proof.
  intros H.
  assert (Hin : exists kind,
    In (f, kind)
      (errors_of (validate_score "University_GPA" (body_University_GPA b)) ++
       errors_of (validate_text "Field_of_Study" (body_Field_of_Study b)) ++
       errors_of (validate_text "Gender" (body_Gender b)) ++
       errors_of (validate_count "Internships_Completed" (body_Internships_Completed b)) ++
       errors_of (validate_score "Soft_Skills_Score" (body_Soft_Skills_Score b)) ++
       errors_of (validate_score "Networking_Score" (body_Networking_Score b)))).
  { destruct H as [E | q E Hq | E | E | E | q E Hq | E | q E Hq | E | q E Hq];
      rewrite E;
      match goal with
      | |- context [validate_score ?n None] =>
          destruct (validate_score_absent n) as [k Hk]
      | |- context [validate_score ?n (Some q)] =>
          destruct (validate_score_out n q Hq) as [k Hk]
      | |- context [validate_text ?n None] =>
          destruct (validate_text_absent n) as [k Hk]
      | |- context [validate_count ?n None] =>
          destruct (validate_count_absent n) as [k Hk]
      | |- context [validate_count ?n (Some q)] =>
          destruct (validate_count_out n q Hq) as [k Hk]
      end;
      rewrite Hk; exists k; cbn [errors_of];
      rewrite ?in_app_iff; cbn [In]; tauto. }
  destruct Hin as [kind Hin].
  eexists _, kind. split; [ | exact Hin ].
  apply validate_collects. intros E. rewrite E in Hin. destruct Hin.
Qed.

End ApiFacts.

(** ** The form *)

Module FormFacts.
Import Js PredictionForm.

Lemma changed_value_numeric name value :
  In name numeric_fields ->
  changed_value name value =
    JsNumber (if truthy_number (parseFloat value) then parseFloat value
              else Finite 0).
Proof.
  intros H. unfold changed_value.
  assert (E : String.eqb name "Field_of_Study" || String.eqb name "Gender" = false).
  { cbn in H. destruct H as [<-|[<-|[<-|[<-|[]]]]]; reflexivity. }
  rewrite E. unfold Js.or. cbn [truthy].
  now destruct (truthy_number (parseFloat value)).
Qed.

Lemma coerced_not_NaN n :
  (if truthy_number n then n else Finite 0) <> NaN.
Proof. destruct n; cbn; try discriminate. now destruct (negb _). Qed.

Lemma handleChange_lookup name value st :
  formData (handleChange name value st) !! name = Some (changed_value name value).
Proof. unfold handleChange. cbn. apply lookup_insert_eq. Qed.

Lemma handleChange_lookup_ne name value st k :
  name <> k ->
  formData (handleChange name value st) !! k = formData st !! k.
Proof. intros H. unfold handleChange. cbn. now apply lookup_insert_ne. Qed.

(** A change event, whatever its target, leaves a number in every numeric
    property. *)
Lemma handleChange_holds_number name value st k :
  In k numeric_fields ->
  holds_number (formData st) k ->
  holds_number (formData (handleChange name value st)) k.
Proof.
  intros Hk Hn. destruct (decide (name = k)) as [->|Hne].
  - unfold holds_number.
    rewrite handleChange_lookup, changed_value_numeric by exact Hk.
    eexists. split; [ reflexivity | apply coerced_not_NaN ].
  - unfold holds_number. now rewrite handleChange_lookup_ne.
Qed.

Lemma initial_holds_number k :
  In k numeric_fields -> holds_number (formData initial_state) k.
Proof.
  intros H. cbn in H.
  destruct H as [<-|[<-|[<-|[<-|[]]]]]; exists (Finite 0); split;
    first [ reflexivity | discriminate ].
Qed.

Lemma changes_holds_number evs : forall st k,
  In k numeric_fields ->
  holds_number (formData st) k ->
  holds_number (formData (changes evs st)) k.
Proof.
  induction evs as [|[name value] evs IH]; intros st k Hk Hn; cbn [changes];
    [ exact Hn | ].
  apply IH; [ exact Hk | ]. now apply handleChange_holds_number.
Qed.

Lemma handleSubmit_body st body :
  snd (handleSubmit st) = Some body -> body = formData st.
Proof.
  unfold handleSubmit, validateForm. cbn.
  destruct (negb _); cbn; intros H; [ discriminate | congruence ].
Qed.

Lemma add_error_lookup_ne c f m e k :
  f <> k -> add_error c f m e !! k = e !! k.
Proof.
  intros H. unfold add_error.
  destruct c; [ now apply lookup_insert_ne | reflexivity ].
Qed.

Lemma add_error_lookup_eq f m e : add_error true f m e !! f = Some (Some m).
Proof. apply lookup_insert_eq. Qed.

Lemma get_lookup (o : gmap string value) k v : o !! k = Some v -> get o k = v.
Proof. unfold get. now intros ->. Qed.

Lemma out_of_range q :
  q < 0 \/ 10 < q ->
  lt (JsNumber (Finite q)) (Finite 0) || gt (JsNumber (Finite q)) (Finite 10) = true.
Proof.
  unfold lt, gt. cbn. intros [H|H]; apply orb_true_iff; [ left | right ];
    apply negb_true_iff; destruct (Qle_bool _ _) eqn:E; try reflexivity;
    apply Qle_bool_iff in E; lra.
Qed.

Lemma negative q : q < 0 -> lt (JsNumber (Finite q)) (Finite 0) = true.
Proof.
  unfold lt. cbn. intros H. apply negb_true_iff.
  destruct (Qle_bool _ _) eqn:E; try reflexivity. apply Qle_bool_iff in E. lra.
Qed.

(** [validateForm] records an error under every field it refuses. *)
Lemma newErrors_offending o f :
  form_offending o f -> exists m, newErrors o !! f = Some (Some m).
Proof.
  intros H. unfold newErrors.
  destruct H as [q E Hq | E | E | q E Hq | q E Hq | q E Hq];
    try rewrite (get_lookup _ _ _ E);
    try rewrite (out_of_range q Hq);
    try rewrite (negative q Hq);
    try (unfold not; rewrite E; cbn [negb]);
    repeat (rewrite add_error_lookup_ne by discriminate);
    rewrite add_error_lookup_eq; eauto.
Qed.

Lemma handleSubmit_offending st f :
  form_offending (formData st) f ->
  snd (handleSubmit st) = None /\
  exists m, errors (fst (handleSubmit st)) !! f = Some (Some m).
Proof.
  intros H. destruct (newErrors_offending _ _ H) as [m Hm].
  unfold handleSubmit, validateForm.
  assert (Hsz : Nat.eqb (size (newErrors (formData st))) 0 = false).
  { apply Nat.eqb_neq. intros Hz. apply map_size_empty_iff in Hz.
    rewrite Hz in Hm. rewrite lookup_empty in Hm. discriminate. }
  rewrite Hsz. cbn. eauto.
Qed.

End FormFacts.

(** ** The dashboard *)

Module DashboardFacts.
Import Js Dashboard.

Lemma or_zero v :
  Js.or v (JsNumber (Finite 0)) =
    (if truthy v then v else JsNumber (Finite 0)) /\
  is_undefined_marker (Js.or v (JsNumber (Finite 0))) = false.
Proof.
  unfold Js.or. split; [ reflexivity | ].
  destruct v as [| |[q| |s]|s]; cbn; try reflexivity; now destruct (negb _).
Qed.

End DashboardFacts.

(** ** Evaluation *)

Module EvaluationFacts.
Import Evaluation.

Lemma Qnat_nonneg n : 0 <= Qnat n.
Proof. unfold Qnat. rewrite <- (Zle_Qle 0). lia. Qed.

Lemma Qnat_le a b : (a <= b)%nat -> Qnat a <= Qnat b.
Proof. intros H. unfold Qnat. rewrite <- Zle_Qle. lia. Qed.

Lemma Qnat_pos n : n <> 0%nat -> 0 < Qnat n.
Proof. intros H. unfold Qnat. rewrite <- (Zlt_Qlt 0). lia. Qed.

Lemma ratio_unit a b : (a <= b)%nat -> unit_interval (ratio a b).
Proof.
  intros H. unfold ratio, unit_interval.
  destruct (Nat.eqb b 0) eqn:E; [ lra | ].
  apply Nat.eqb_neq in E. pose proof (Qnat_pos b E) as Hb.
  pose proof (Qnat_nonneg a) as Ha. pose proof (Qnat_le a b H) as Hab.
  split.
  - apply Qle_shift_div_l; [ exact Hb | lra ].
  - apply Qle_shift_div_r; [ exact Hb | lra ].
Qed.

Lemma ratio_mono a a' b : (a <= a')%nat -> ratio a b <= ratio a' b.
Proof.
  intros H. unfold ratio. destruct (Nat.eqb b 0) eqn:E; [ lra | ].
  apply Nat.eqb_neq in E. pose proof (Qnat_pos b E) as Hb.
  pose proof (Qnat_le a a' H) as Hab.
  unfold Qdiv. apply Qmult_le_compat_r; [ exact Hab | ].
  apply Qlt_le_weak, Qinv_lt_0_compat, Hb.
Qed.

Lemma ratio_zero b : ratio 0 b == 0.
Proof.
  unfold ratio. destruct (Nat.eqb b 0); [ reflexivity | ].
  change (Qnat 0) with 0. unfold Qdiv. apply Qmult_0_l.
Qed.

Lemma ratio_full b : b <> 0%nat -> ratio b b == 1.
Proof.
  intros H. unfold ratio. rewrite (proj2 (Nat.eqb_neq b 0) H).
  pose proof (Qnat_pos b H). field. lra.
Qed.

Lemma count_mono f g test :
  (forall e, f e = true -> g e = true) -> (count f test <= count g test)%nat.
Proof.
  intros H. unfold count. induction test as [|e t IH]; cbn; [ lia | ].
  destruct (f e) eqn:Ef.
  - rewrite (H e Ef). cbn. lia.
  - destruct (g e); cbn; lia.
Qed.

Lemma count_ext f g test :
  (forall e, In e test -> f e = g e) -> count f test = count g test.
Proof.
  intros H. unfold count. induction test as [|e t IH]; cbn; [ reflexivity | ].
  rewrite (H e) by (left; reflexivity).
  destruct (g e); cbn; rewrite IH; auto; intros; apply H; right; assumption.
Qed.

Lemma count_never f test : (forall e, f e = false) -> count f test = 0%nat.
Proof.
  intros H. unfold count. induction test as [|e t IH]; cbn; [ reflexivity | ].
  now rewrite H.
Qed.

Lemma count_disjoint f g test :
  (forall e, f e = true -> g e = false) ->
  (count f test + count g test <= length test)%nat.
Proof.
  intros H. unfold count. induction test as [|e t IH]; cbn; [ lia | ].
  destruct (f e) eqn:Ef.
  - rewrite (H e Ef). cbn. lia.
  - destruct (g e); cbn; lia.
Qed.

Lemma accuracy_unit test : unit_interval (accuracy_score test).
Proof.
  apply ratio_unit, count_disjoint. intros [y s]. cbn.
  destruct y, (y_pred s); cbn; congruence.
Qed.

Lemma precision_unit test : unit_interval (precision_score test).
Proof. apply ratio_unit. lia. Qed.

Lemma recall_unit test : unit_interval (recall_score test).
Proof. apply ratio_unit. lia. Qed.

Lemma f1_unit test : unit_interval (f1_score test).
Proof.
  unfold f1_score.
  destruct (precision_unit test) as [Hp0 Hp1].
  destruct (recall_unit test) as [Hr0 Hr1].
  set (p := precision_score test) in *. set (r := recall_score test) in *.
  unfold unit_interval.
  destruct (Qeq_bool (p + r) 0) eqn:E; [ lra | ].
  assert (Hne : ~ p + r == 0) by (intros H; apply Qeq_bool_iff in H; congruence).
  assert (Hpos : 0 < p + r) by lra.
  split.
  - apply Qle_shift_div_l; [ exact Hpos | nra ].
  - apply Qle_shift_div_r; [ exact Hpos | nra ].
Qed.

(** *** The threshold sweep *)

#[local] Instance Qge_transitive : Transitive Qge.
Proof. intros x y z. unfold Qge. intros; lra. Qed.

#[local] Instance Qge_total : Total Qge.
Proof.
  intros x y. unfold Qge. destruct (Qlt_le_dec x y); [ right | left ]; lra.
Qed.

Lemma sort_decreasing_sorted l : StronglySorted Qge (sort_decreasing l).
Proof. unfold sort_decreasing. apply (StronglySorted_merge_sort Qge). Qed.

Lemma sort_decreasing_In l x : In x l -> In x (sort_decreasing l).
Proof.
  intros H. apply list_elem_of_In. unfold sort_decreasing.
  rewrite (merge_sort_Permutation Qge l). now apply list_elem_of_In.
Qed.

Lemma sort_decreasing_length l : length (sort_decreasing l) = length l.
Proof.
  unfold sort_decreasing. now rewrite (merge_sort_Permutation Qge l).
Qed.

Lemma lower_Some a b : Qge a b -> lower (Some a) (Some b).
Proof.
  unfold Qge, lower, reaches. intros H s. rewrite !Qle_bool_iff. lra.
Qed.

Lemma thresholds_sorted test : StronglySorted lower (thresholds test).
Proof.
  unfold thresholds. constructor.
  - pose proof (sort_decreasing_sorted (map snd test)) as H.
    induction H as [|x l Hs IH Hall]; cbn [map]; constructor; [ exact IH | ].
    rewrite List.Forall_map. eapply List.Forall_impl; [ | exact Hall ].
    intros y Hy. now apply lower_Some.
  - apply List.Forall_forall. intros t _ s. discriminate.
Qed.

Lemma rate_sorted (f : option Q -> Q) l :
  (forall t1 t2, lower t1 t2 -> f t1 <= f t2) ->
  StronglySorted lower l -> Sorted Qle (map f l).
Proof.
  intros Hf H. induction H as [|t l Hs IH Hall]; cbn [map]; constructor;
    [ exact IH | ].
  destruct l as [|t' l]; cbn [map]; constructor.
  apply Hf. now inversion Hall.
Qed.

Lemma tpr_at_mono test t1 t2 : lower t1 t2 -> tpr_at test t1 <= tpr_at test t2.
Proof.
  intros H. apply ratio_mono, count_mono. intros [y s]. cbn.
  rewrite !andb_true_iff. intros [Hy Hs]. auto.
Qed.

Lemma fpr_at_mono test t1 t2 : lower t1 t2 -> fpr_at test t1 <= fpr_at test t2.
Proof.
  intros H. apply ratio_mono, count_mono. intros [y s]. cbn.
  rewrite !andb_true_iff. intros [Hy Hs]. auto.
Qed.

Lemma tpr_at_unit test t : unit_interval (tpr_at test t).
Proof.
  apply ratio_unit, count_mono. intros e. rewrite andb_true_iff. tauto.
Qed.

(** The last threshold is the smallest score, which every record
    reaches. *)
Lemma last_of_sorted l m :
  StronglySorted Qge l -> last l = Some m -> Forall (fun x => m <= x) l.
Proof.
  intros H. induction H as [|x l Hs IH Hall]; intros Hl; [ constructor | ].
  destruct l as [|y l'].
  - cbn in Hl. injection Hl as ->. constructor; [ lra | constructor ].
  - change (last (x :: y :: l')) with (last (y :: l')) in Hl.
    specialize (IH Hl). constructor; [ | exact IH ].
    apply List.Forall_forall with (x := m) in Hall; [ exact Hall | ].
    apply list_elem_of_In. eapply last_Some_elem_of. exact Hl.
Qed.

Lemma last_threshold test :
  test <> [] ->
  exists m,
    last (thresholds test) = Some (Some m) /\
    forall e, In e test -> reaches (Some m) (snd e) = true.
Proof.
  intros Hne. unfold thresholds.
  pose proof (sort_decreasing_length (map snd test)) as Hlen.
  rewrite length_map in Hlen.
  destruct (last (sort_decreasing (map snd test))) as [m|] eqn:El.
  - exists m. split.
    + rewrite last_cons. rewrite fmap_last, El. reflexivity.
    + intros e He. cbn [reaches]. apply Qle_bool_iff.
      pose proof (last_of_sorted _ m (sort_decreasing_sorted _) El) as Hall.
      apply List.Forall_forall with (x := snd e) in Hall; [ exact Hall | ].
      apply sort_decreasing_In, in_map, He.
  - apply last_None in El. rewrite El in Hlen.
    destruct test; [ congruence | discriminate ].
Qed.

Lemma both_classes_iff test :
  both_classes test = true <->
  positives test <> 0%nat /\ negatives test <> 0%nat.
Proof.
  unfold both_classes.
  rewrite andb_true_iff, !negb_true_iff, !Nat.eqb_neq. tauto.
Qed.

Lemma positives_nonempty test : positives test <> 0%nat -> test <> [].
Proof. intros H ->. now apply H. Qed.

Lemma roc_curve_shape_of test :
  both_classes test = true -> roc_curve_shape (roc_curve_of test).
Proof.
  intros Hb. apply both_classes_iff in Hb as [Hp Hn].
  unfold roc_curve_shape, roc_curve_of. cbn [fpr tpr].
  split; [ now rewrite !length_map | ].
  split; [ | split; [ | split ] ].
  - eexists _, _. unfold thresholds. cbn [map head].
    split; [ reflexivity | ]. split; [ reflexivity | ].
    unfold fpr_at, tpr_at.
    rewrite !(count_never (fun e => _ && reaches None (snd e)))
      by (intros e; apply andb_false_r).
    split; apply ratio_zero.
  - destruct (last_threshold test (positives_nonempty _ Hp)) as (m & Hl & Hall).
    eexists _, _. rewrite !fmap_last, Hl. cbn [fmap option_fmap option_map].
    split; [ reflexivity | ]. split; [ reflexivity | ].
    unfold fpr_at, tpr_at.
    rewrite (count_ext (fun e => negb (fst e) && reaches (Some m) (snd e))
                       (fun e => negb (fst e)))
      by (intros e He; rewrite (Hall e He); apply andb_true_r).
    rewrite (count_ext (fun e => fst e && reaches (Some m) (snd e))
                       (fun e => fst e))
      by (intros e He; rewrite (Hall e He); apply andb_true_r).
    split; apply ratio_full; assumption.
  - apply rate_sorted; [ apply fpr_at_mono | apply thresholds_sorted ].
  - apply rate_sorted; [ apply tpr_at_mono | apply thresholds_sorted ].
Qed.

(** *** The area under the curve *)

Lemma trapezoid_bounds xs : forall ys,
  length xs = length ys ->
  Sorted Qle xs ->
  Forall unit_interval ys ->
  0 <= trapezoid xs ys /\
  forall a b, head xs = Some a -> last xs = Some b ->
              trapezoid xs ys <= b - a.
Proof.
  induction xs as [|x0 xs IH]; intros ys Hlen Hs Hys.
  - cbn. split; [ lra | discriminate ].
  - destruct ys as [|y0 ys]; [ discriminate | ].
    destruct xs as [|x1 xs'].
    + cbn. split; [ lra | ]. intros a b Ha Hb.
      cbn in Ha, Hb. injection Ha as <-. injection Hb as <-. lra.
    + destruct ys as [|y1 ys']; [ discriminate | ].
      assert (Hstep : trapezoid (x0 :: x1 :: xs') (y0 :: y1 :: ys') =
                      (x1 - x0) * (y0 + y1) / 2 + trapezoid (x1 :: xs') (y1 :: ys'))
        by reflexivity.
      rewrite Hstep. clear Hstep.
      inversion Hs as [|? ? Hs' Hhd]; subst.
      inversion Hhd as [|? ? Hle]; subst.
      inversion Hys as [|? ? Hy0 Hys']; subst.
      pose proof Hys' as Hys''.
      inversion Hys' as [|? ? Hy1 _]; subst.
      injection Hlen as Hlen.
      destruct (IH (y1 :: ys')) as [IH0 IH1];
        [ cbn [length]; now rewrite Hlen | exact Hs' | exact Hys'' | ].
      unfold unit_interval in Hy0, Hy1.
      assert (Hseg0 : 0 <= (x1 - x0) * (y0 + y1) / 2).
      { apply Qle_shift_div_l; [ lra | ]. rewrite Qmult_0_l.
        apply Qmult_le_0_compat; lra. }
      assert (Hseg1 : (x1 - x0) * (y0 + y1) / 2 <= x1 - x0).
      { apply Qle_shift_div_r; [ lra | ].
        assert (0 <= (x1 - x0) * (2 - (y0 + y1)))
          by (apply Qmult_le_0_compat; lra).
        lra. }
      set (T := trapezoid (x1 :: xs') (y1 :: ys')) in *.
      set (S := (x1 - x0) * (y0 + y1) / 2) in *.
      split; [ lra | ].
      intros a b Ha Hb. cbn in Ha. injection Ha as <-.
      change (last (x0 :: x1 :: xs')) with (last (x1 :: xs')) in Hb.
      specialize (IH1 x1 b eq_refl Hb). lra.
Qed.

Lemma roc_auc_unit test :
  both_classes test = true -> unit_interval (roc_auc_score test).
Proof.
  intros Hb. destruct (roc_curve_shape_of test Hb)
    as (Hlen & (x0 & y0 & Hx0 & _ & Ex0 & _) & (x1 & y1 & Hx1 & _ & Ex1 & _) & Hsx & _).
  unfold roc_auc_score.
  destruct (trapezoid_bounds (fpr (roc_curve_of test)) (tpr (roc_curve_of test)))
    as [H0 H1]; [ exact Hlen | exact Hsx | | ].
  - unfold roc_curve_of. cbn [tpr]. rewrite List.Forall_map.
    apply List.Forall_forall. intros t _. apply tpr_at_unit.
  - specialize (H1 x0 x1 Hx0 Hx1). unfold unit_interval. lra.
Qed.

End EvaluationFacts.

(** * The statements of the specification *)

Section Confidence.
Import Sklearn Service Api ServiceFacts ApiFacts Examples.

(** C1.  The confidence is [|p - 0.5| * 2] for every probability [p]; it
    lies in [0, 1] when [p] does; it is 0 at 0.5 and 1 at 0 and at 1.  The
    confidence of every response of [POST /predict] is that function of
    the response's probability; the row the request stores holds the
    probability and no confidence, and the confidence of the response is
    recomputed from the stored probability by [calculate_confidence]. *)
Theorem confidence_from_probability :
  (forall p, calculate_confidence p == Qabs (p - (1 # 2)) * 2) /\
  (forall p, 0 <= p <= 1 -> 0 <= calculate_confidence p <= 1) /\
  calculate_confidence (1 # 2) == 0 /\
  calculate_confidence 0 == 1 /\
  calculate_confidence 1 == 1 /\
  (forall body w r w',
      post_predict body w = (Ok r, w') ->
      confidence r == Qabs (probability r - (1 # 2)) * 2 /\
      exists row,
        last (predictions w') = Some row /\
        row_probability row = probability r /\
        confidence r = calculate_confidence (row_probability row)).
Proof.
  split; [ | split; [ | split; [ | split; [ | split ] ] ] ].
  - apply calculate_confidence_half.
  - apply calculate_confidence_range.
  - reflexivity.
  - reflexivity.
  - reflexivity.
  - intros body w r w' H. unfold post_predict in H.
    destruct (validate body) as [student | e]; [ | discriminate ].
    apply body_Ok in H as (Hc & w1 & Hp). split.
    + rewrite Hc. apply calculate_confidence_half.
    + eexists. split; [ rewrite Hp; apply last_snoc | ]. cbn. auto.
Qed.

Lemma confidence_from_probability_witness :
  exists r w',
    post_predict scenario_1_body (fresh_process (Some tie_pipeline))
      = (Ok r, w') /\
    confidence r == Qabs (probability r - (1 # 2)) * 2 /\
    0 <= calculate_confidence (3 # 4) <= 1.
Proof.
  destruct (post_predict scenario_1_body
              (fresh_process (Some tie_pipeline))) as [[r|e] w'] eqn:E;
    [ | vm_compute in E; discriminate ].
  exists r, w'. split; [ reflexivity | ].
  destruct confidence_from_probability as (_ & Hrange & _ & _ & _ & Hresp).
  split; [ exact (proj1 (Hresp _ _ _ _ E)) | apply Hrange; lra ].
Defined.

End Confidence.

Section Label.
Import Sklearn Service Api ServiceFacts ForestFacts NumericFacts Examples.

(** C2, as amended.  When the pipeline in use holds a two-class forest,
    the label [predict] returns is the class to which the forest gives the
    larger probability.  The forest's probabilities for the encoded input
    are two numbers, the second of which is the probability [predict]
    returns; the label is 1 exactly when the second is strictly greater
    than the first and 0 exactly when it is not, so that equal
    probabilities give the label 0: the forest predicts the first class of
    largest probability. *)
Theorem label_is_strict_majority input w o label proba w' :
  fst (load_pipeline w) = Ok o ->
  Forest.binary_forest (classifier (pipeline_of o)) = true ->
  predict input w = (Ok (label, proba), w') ->
  exists x p0,
    preprocessor_transform (preprocessor (pipeline_of o)) input = Ok x /\
    Forest.predict_proba (classifier (pipeline_of o)) x = [p0; proba] /\
    (label = 1%Z <-> p0 < proba) /\ (label = 0%Z <-> proba <= p0).
Proof.
  intros Ho Hb H. apply predict_Ok in H as (o' & x & Ho' & Hx & -> & Hp).
  assert (o' = o) by congruence. subst o'.
  destruct (binary_forest_proba _ x Hb) as (p0 & p1 & E & _ & ->).
  rewrite E in Hp. cbn in Hp. injection Hp as ->.
  exists x, p0. split; [ exact Hx | ]. split; [ exact E | ].
  destruct (Forest.Qlt_bool p0 proba) eqn:Hlt.
  - apply Qlt_bool_iff in Hlt.
    split; split; intros; try discriminate; try reflexivity; lra.
  - assert (~ p0 < proba) by (rewrite <- Qlt_bool_iff; congruence).
    split; split; intros; try discriminate; try reflexivity; lra.
Qed.

Lemma label_is_strict_majority_witness :
  let w := fresh_process (Some tie_pipeline) in
  exists o label proba w' x p0,
    fst (load_pipeline w) = Ok o /\
    Forest.binary_forest (classifier (pipeline_of o)) = true /\
    predict (model_dump scenario_1) w = (Ok (label, proba), w') /\
    Forest.predict_proba (classifier (pipeline_of o)) x = [p0; proba] /\
    (label = 1%Z <-> p0 < proba) /\ (label = 0%Z <-> proba <= p0).
Proof.
  intros w.
  destruct (predict (model_dump scenario_1) w) as [[[label proba]|e] w'] eqn:E;
    [ | vm_compute in E; discriminate ].
  destruct (label_is_strict_majority (model_dump scenario_1) w
              {| object_id := 0; pipeline_of := tie_pipeline |} label proba w')
    as (x & p0 & _ & Hp & Hl);
    [ reflexivity | vm_compute; reflexivity | exact E | ].
  exists {| object_id := 0; pipeline_of := tie_pipeline |}, label, proba, w', x, p0.
  split; [ reflexivity | ].
  split; [ vm_compute; reflexivity | ].
  split; [ reflexivity | ].
  split; [ exact Hp | exact Hl ].
Defined.

(** C2 fails as stated: for the input of scenario 1 and a forest whose
    votes are split evenly, the probability is 0.5, which is at least 0.5,
    and the label is 0. *)
Lemma tie_is_labelled_zero :
  exists label proba,
    fst (predict (model_dump scenario_1) (fresh_process (Some tie_pipeline)))
      = Ok (label, proba) /\
    proba == 1 # 2 /\ 1 # 2 <= proba /\ label = 0%Z /\ label <> 1%Z.
Proof.
  eexists _, _. split; [ vm_compute; reflexivity | ].
  split; [ vm_compute; reflexivity | ].
  split; [ vm_compute; discriminate | ].
  split; [ reflexivity | discriminate ].
Qed.

End Label.

Section Scaling.
Import Preprocessing PreprocessingFacts Examples.




End Scaling.

Section UnknownCategory.
Import Preprocessing Sklearn PreprocessingFacts Examples.

(** C4.  Encoding a record with a pipeline fitted by [create_ml_pipeline]
    never raises: the result is the numeric block followed by the blocks
    of [Field_of_Study] and [Gender].  The vocabulary fitted for each of
    the two is the set of values it takes on the training partition, and
    when the record's value is not in that vocabulary, the feature's block
    is all zeros, one per category of the vocabulary. *)
Theorem unknown_category_encodes_to_zeros sqrt X_train r :
  let ct := preprocessor_fit sqrt X_train in
  preprocessor_transform ct r =
    Ok (num_block ct r ++ block X_train "Field_of_Study" r
                       ++ block X_train "Gender" r) /\
  forall name cc s,
    In name categorical_features ->
    categorical_fit HandleIgnore (map (str_cell name) X_train) = Some cc ->
    (In s (categories_ (onehot cc)) <->
     exists row, In row X_train /\ str_cell name row = Some s) /\
    (str_cell name r = Some s ->
     ~ In s (categories_ (onehot cc)) ->
     block X_train name r = repeat 0 (length (categories_ (onehot cc)))).
Proof.
  intros ct. split; [ apply preprocessor_transform_fitted | ].
  intros name cc s _ Hfit. split.
  - rewrite (vocabulary_is_training_values _ _ _ s Hfit), in_map_iff.
    split; intros (row & H1 & H2); exists row; auto.
  - intros Hs Hnew. unfold block. rewrite Hfit, Hs.
    cbn [most_frequent_transform]. apply indicator_unknown, known_false, Hnew.
Qed.

Lemma unknown_category_encodes_to_zeros_witness :
  exists cc,
    In "Field_of_Study"%string categorical_features /\
    categorical_fit HandleIgnore (map (str_cell "Field_of_Study") X_train) = Some cc /\
    str_cell "Field_of_Study" astrologer = Some "Astrology"%string /\
    ~ In "Astrology"%string (categories_ (onehot cc)) /\
    block X_train "Field_of_Study" astrologer = [0; 0] /\
    is_Ok (preprocessor_transform (preprocessor_fit sqrt_floor X_train) astrologer)
      = true.
Proof.
  pose proof (unknown_category_encodes_to_zeros sqrt_floor X_train astrologer)
    as [Ht Hz].
  destruct (categorical_fit HandleIgnore (map (str_cell "Field_of_Study") X_train))
    as [cc|] eqn:E; [ | vm_compute in E; discriminate ].
  exists cc.
  assert (Hin : In "Field_of_Study"%string categorical_features)
    by (left; reflexivity).
  assert (Hs : str_cell "Field_of_Study" astrologer = Some "Astrology"%string)
    by (vm_compute; reflexivity).
  assert (Hnew : ~ In "Astrology"%string (categories_ (onehot cc))).
  { vm_compute in E. injection E as <-. cbn. intros [H|[H|[]]]; discriminate. }
  split; [ exact Hin | ]. split; [ reflexivity | ]. split; [ exact Hs | ].
  split; [ exact Hnew | ]. split.
  - rewrite (proj2 (Hz "Field_of_Study"%string cc "Astrology"%string Hin E) Hs Hnew).
    vm_compute in E. injection E as <-. reflexivity.
  - rewrite Ht. reflexivity.
Defined.

End UnknownCategory.

Section Validation.
Import Sklearn Service Api ApiFacts PredictionForm FormFacts Examples.

(** C5.  A request body in which a field is absent, a score is outside
    [0, 10] or the number of internships is negative is answered with a
    validation error that names the field; the process state is left as it
    was, so the pipeline was neither loaded nor asked, nothing was encoded
    and no prediction was stored, and the answer is not a prediction.  In
    the form, a value outside the domain or an empty text field makes
    [handleSubmit] record an error under the field's name and send no
    request. *)
Theorem invalid_input_is_rejected :
  (forall b f,
      offending b f ->
      forall w,
        names_field f (fst (post_predict b w)) /\
        snd (post_predict b w) = w) /\
  (forall st f,
      form_offending (formData st) f ->
      snd (handleSubmit st) = None /\
      exists m, errors (fst (handleSubmit st)) !! f = Some (Some m)).
Proof.
  split.
  - intros b f H w.
    destruct (validate_rejects b f H) as (errs & kind & Hv & Hin).
    unfold post_predict. rewrite Hv. cbn. split; [ | reflexivity ].
    exists errs, kind. auto.
  - apply handleSubmit_offending.
Qed.

Lemma invalid_input_is_rejected_witness :
  let w := fresh_process (Some tie_pipeline) in
  let st := changes typing_invalid initial_state in
  offending scenario_2_body "University_GPA" /\
  names_field "University_GPA" (fst (post_predict scenario_2_body w)) /\
  snd (post_predict scenario_2_body w) = w /\
  form_offending (formData st) "University_GPA" /\
  snd (handleSubmit st) = None.
Proof.
  intros w st.
  assert (Ho : offending scenario_2_body "University_GPA").
  { apply (gpa_out scenario_2_body 11); [ reflexivity | right; reflexivity ]. }
  assert (Hf : form_offending (formData st) "University_GPA").
  { apply (form_gpa (formData st) 11); [ vm_compute; reflexivity | right; reflexivity ]. }
  destruct invalid_input_is_rejected as [Hapi Hform].
  destruct (Hapi scenario_2_body "University_GPA"%string Ho w) as [Hn Hw].
  destruct (Hform st "University_GPA"%string Hf) as [Hs _].
  auto.
Defined.

End Validation.

Section Metrics.
Import Evaluation EvaluationFacts ForestFacts Examples.

(** C6, as amended.  Accuracy, precision, recall and F1 of every
    evaluation lie in [0, 1].  When the test partition holds both classes,
    ROC-AUC lies in [0, 1] and the two arrays of the ROC curve have equal
    length, start at (0,0), end at (1,1) and are non-decreasing, whatever
    the forest; on a test partition that holds one class only, ROC-AUC and
    the ROC curve are undefined.  For a forest whose splits each test one
    of the encoded features and do not increase the impurity, the
    importances sum to 1 when some tree has a split that decreased the
    impurity, whatever the test partition; the importances of a forest
    without any split are all 0.  When the test partition holds both
    classes and the forest has such a split, all the bounds of the
    specification hold together. *)
Theorem evaluation_metrics_bounds rf n test :
  let m := evaluate rf n test in
  (unit_interval (accuracy m) /\ unit_interval (precision m) /\
   unit_interval (recall m) /\ unit_interval (f1 m)) /\
  (both_classes test = true ->
   (exists a, roc_auc m = Some a /\ unit_interval a) /\
   (exists c, roc_curve m = Some c /\ roc_curve_shape c)) /\
  (both_classes test = false -> roc_auc m = None /\ roc_curve m = None) /\
  (forallb (Forest.attributed n) (Forest.estimators_ rf) = true ->
   Forest.informative n rf = true ->
   Qsum (feature_importances m) == 1) /\
  (forallb (fun t => negb (Forest.has_split t)) (Forest.estimators_ rf) = true ->
   feature_importances m = repeat 0 n) /\
  (both_classes test = true ->
   forallb (Forest.attributed n) (Forest.estimators_ rf) = true ->
   Forest.informative n rf = true ->
   metrics_bounds m).
Proof.
  intros m. subst m. unfold evaluate. cbn [accuracy precision recall f1 roc_auc
    feature_importances roc_curve].
  assert (Hroc : both_classes test = true ->
    (exists a, (if both_classes test then Some (roc_auc_score test) else None)
                 = Some a /\ unit_interval a) /\
    (exists c, (if both_classes test then Some (roc_curve_of test) else None)
                 = Some c /\ roc_curve_shape c)).
  { intros Hb. rewrite Hb. split.
    - eexists. split; [ reflexivity | now apply roc_auc_unit ].
    - eexists. split; [ reflexivity | now apply roc_curve_shape_of ]. }
  split; [ | split; [ | split; [ | split; [ | split ] ] ] ].
  - auto using accuracy_unit, precision_unit, recall_unit, f1_unit.
  - exact Hroc.
  - intros ->. auto.
  - intros Hatt Hinf. now apply feature_importances_sum.
  - intros Hst. now apply feature_importances_stumps.
  - intros Hb Hatt Hinf. unfold metrics_bounds.
    cbn [accuracy precision recall f1 roc_auc feature_importances roc_curve].
    destruct (Hroc Hb) as [Hauc Hcurve].
    split; [ apply accuracy_unit | ]. split; [ apply precision_unit | ].
    split; [ apply recall_unit | ]. split; [ apply f1_unit | ].
    split; [ exact Hauc | ].
    split; [ | exact Hcurve ].
    rewrite (feature_importances_sum rf n Hatt Hinf).
    vm_compute. discriminate.
Qed.

Lemma evaluation_metrics_bounds_witness :
  let rf := Sklearn.classifier tie_pipeline in
  let n := Sklearn.n_features_out (Sklearn.preprocessor tie_pipeline) in
  exists scores,
    test_scores tie_pipeline mixed_test = Ok scores /\
    evaluate_pipeline tie_pipeline mixed_test = Ok (evaluate rf n scores) /\
    both_classes scores = true /\
    forallb (Forest.attributed n) (Forest.estimators_ rf) = true /\
    Forest.informative n rf = true /\
    Qsum (feature_importances (evaluate rf n scores)) == 1 /\
    metrics_bounds (evaluate rf n scores).
Proof.
  intros rf n.
  destruct (test_scores tie_pipeline mixed_test) as [scores|e] eqn:E;
    [ | vm_compute in E; discriminate ].
  exists scores. split; [ reflexivity | ].
  split; [ unfold evaluate_pipeline; now rewrite E | ].
  assert (Hb : both_classes scores = true).
  { vm_compute in E. injection E as <-. vm_compute. reflexivity. }
  assert (Ha : forallb (Forest.attributed n) (Forest.estimators_ rf) = true)
    by (vm_compute; reflexivity).
  assert (Hi : Forest.informative n rf = true) by (vm_compute; reflexivity).
  destruct (evaluation_metrics_bounds rf n scores)
    as (_ & _ & _ & Hsum & _ & Hall).
  split; [ exact Hb | ]. split; [ exact Ha | ]. split; [ exact Hi | ].
  split; [ exact (Hsum Ha Hi) | exact (Hall Hb Ha Hi) ].
Defined.

(** C6 fails as stated.  On a test partition where every label is 1 (the
    situation of scenario 4) ROC-AUC is undefined; and a forest none of
    whose trees has a split has importances that are all 0.  In neither
    run do the metrics satisfy the bounds. *)
Lemma degenerate_metrics_out_of_bounds :
  (exists m, evaluate_pipeline tie_pipeline all_positive_test = Ok m /\
             roc_auc m = None /\ ~ metrics_bounds m) /\
  (exists m, evaluate_pipeline stump_pipeline mixed_test = Ok m /\
             Qsum (feature_importances m) == 0 /\ ~ metrics_bounds m).
Proof.
  split.
  - eexists. split; [ vm_compute; reflexivity | ].
    split; [ reflexivity | ].
    intros (_ & _ & _ & _ & (a & Ha & _) & _). discriminate Ha.
  - eexists. split; [ vm_compute; reflexivity | ].
    split; [ vm_compute; reflexivity | ].
    intros (_ & _ & _ & _ & _ & Hsum & _).
    vm_compute in Hsum. apply Hsum. reflexivity.
Qed.

End Metrics.

Section Cache.
Import Sklearn Service Api ServiceFacts ApiFacts Examples.

(** C7.  In a process whose store holds a pipeline, calling
    [load_pipeline] twice in a row gives the result and the state of
    calling it once.  The call returns an object [o]; calling it again
    returns the same object and changes nothing, and so does every later
    call as long as the cached object is the same, whatever else has
    happened to the process.  When nothing was cached before the first
    call, [o] holds the persisted pipeline and the call read the store
    once. *)
Theorem load_pipeline_idempotent w p :
  trained_pipeline w = Some p ->
  (let* _ := load_pipeline in load_pipeline) w = load_pipeline w /\
  exists o w1,
    load_pipeline w = (Ok o, w1) /\
    load_pipeline w1 = (Ok o, w1) /\
    (forall w2, _cached_pipeline w2 = _cached_pipeline w1 ->
                load_pipeline w2 = (Ok o, w2)) /\
    (_cached_pipeline w = None ->
       pipeline_of o = p /\
       log w1 = log w ++ [GetTrainedPipeline; CloseDb]).
Proof.
  intros Hs.
  assert (H : exists o w1,
    load_pipeline w = (Ok o, w1) /\
    load_pipeline w1 = (Ok o, w1) /\
    (forall w2, _cached_pipeline w2 = _cached_pipeline w1 ->
                load_pipeline w2 = (Ok o, w2)) /\
    (_cached_pipeline w = None ->
       pipeline_of o = p /\
       log w1 = log w ++ [GetTrainedPipeline; CloseDb])).
  { destruct (_cached_pipeline w) as [o|] eqn:Hc.
    - exists o, w. split; [ now apply load_pipeline_cached | ].
      split; [ now apply load_pipeline_cached | ].
      split; [ | discriminate ].
      intros w2 H2. apply load_pipeline_cached. congruence.
    - eexists _, _. split; [ apply load_pipeline_first; eassumption | ].
      split; [ now apply load_pipeline_cached | ].
      split.
      + intros w2 H2. apply load_pipeline_cached. exact H2.
      + intros _. cbn. split; [ reflexivity | ]. now rewrite <- app_assoc. }
  split; [ | exact H ].
  destruct H as (o & w1 & H1 & H2 & _).
  unfold bind at 1. rewrite H1, H2. reflexivity.
Qed.

Lemma load_pipeline_idempotent_witness :
  let w := fresh_process (Some tie_pipeline) in
  trained_pipeline w = Some tie_pipeline /\
  exists o w1,
    load_pipeline w = (Ok o, w1) /\
    load_pipeline w1 = (Ok o, w1) /\
    pipeline_of o = tie_pipeline /\
    log w1 = [GetTrainedPipeline; CloseDb].
Proof.
  intros w. split; [ reflexivity | ].
  destruct (load_pipeline_idempotent w tie_pipeline eq_refl)
    as (_ & o & w1 & H1 & H2 & _ & Hfirst).
  destruct (Hfirst eq_refl) as [Hp Hlog].
  exists o, w1. auto.
Defined.

(** C8.  In a process started on a store that holds no pipeline, after
    any sequence of requests, [predict] raises [ModelNotTrainedError] for
    every record, and so does the route function of [POST /predict], which
    stores no prediction. *)
Theorem predict_before_training reqs student :
  let w := serve reqs (fresh_process None) in
  fst (predict (model_dump student) w) = Raise ModelNotTrainedError /\
  fst (predict_career_success student w) = Raise ModelNotTrainedError /\
  predictions (snd (predict_career_success student w)) = predictions w.
Proof.
  intros w.
  assert (Hu : untrained w) by (apply serve_untrained; split; reflexivity).
  destruct (predict_untrained (model_dump student) w Hu) as (w1 & -> & _ & _).
  destruct (body_untrained student w Hu) as (w2 & -> & _ & Hp).
  auto.
Qed.

End Cache.

Section UndefinedMetric.
Import Js Dashboard DashboardFacts Examples.

(** C9, as amended.  On a test partition that holds one class only, the
    evaluation reports ROC-AUC and the ROC curve as undefined and the other
    scores as numbers.  The dashboard does not keep such a marker: it gives
    the ROC-AUC card the score of the metrics when that score is truthy and
    the number 0 otherwise, so the value of the card is never absent,
    [null] or [NaN]; a score that is absent, [null] or [NaN] reaches the
    card as 0, and the card formats the number 0. *)
Theorem roc_auc_card_defaults_to_zero :
  (forall rf n test,
      Evaluation.both_classes test = false ->
      Evaluation.roc_auc (Evaluation.evaluate rf n test) = None /\
      Evaluation.roc_curve (Evaluation.evaluate rf n test) = None) /\
  (forall metrics,
      exists v,
        card_value "ROC-AUC" (metric_cards metrics) = Some v /\
        v = (if truthy (optional_chain metrics roc_auc)
             then optional_chain metrics roc_auc else JsNumber (Finite 0)) /\
        is_undefined_marker v = false /\
        (is_undefined_marker (optional_chain metrics roc_auc) = true ->
         v = JsNumber (Finite 0) /\
         MetricCard {| title := "ROC-AUC"; value_ := v |} = Finite 0)).
Proof.
  split.
  - intros rf n test Hb. unfold Evaluation.evaluate.
    cbn [Evaluation.roc_auc Evaluation.roc_curve]. rewrite Hb. auto.
  - intros metrics. eexists. split; [ reflexivity | ].
    destruct (or_zero (optional_chain metrics roc_auc)) as [E Hm].
    split; [ exact E | ]. split; [ exact Hm | ].
    intros Hu. rewrite E.
    destruct (optional_chain metrics roc_auc) as [| |[q| |s]|s];
      try discriminate; cbn; split; reflexivity.
Qed.

Lemma roc_auc_card_defaults_to_zero_witness :
  (exists scores,
     Evaluation.test_scores tie_pipeline all_positive_test = Ok scores /\
     Evaluation.both_classes scores = false /\
     Evaluation.roc_auc
       (Evaluation.evaluate (Sklearn.classifier tie_pipeline) 8 scores) = None) /\
  is_undefined_marker (optional_chain (Some single_class_metrics) roc_auc) = true /\
  card_value "ROC-AUC" (metric_cards (Some single_class_metrics))
    = Some (JsNumber (Finite 0)).
Proof.
  destruct roc_auc_card_defaults_to_zero as [Heval Hcard].
  split.
  - destruct (Evaluation.test_scores tie_pipeline all_positive_test)
      as [scores|e] eqn:E; [ | vm_compute in E; discriminate ].
    exists scores. split; [ reflexivity | ].
    assert (Hb : Evaluation.both_classes scores = false).
    { vm_compute in E. injection E as <-. vm_compute. reflexivity. }
    split; [ exact Hb | ].
    exact (proj1 (Heval (Sklearn.classifier tie_pipeline) 8%nat scores Hb)).
  - assert (Hu : is_undefined_marker
                   (optional_chain (Some single_class_metrics) roc_auc) = true)
      by reflexivity.
    destruct (Hcard (Some single_class_metrics)) as (v & Hv & _ & _ & Hz).
    destruct (Hz Hu) as [-> _]. auto.
Defined.

(** C9 fails as stated: metrics whose ROC-AUC is [null], [NaN] or absent
    are shown with a ROC-AUC card of value 0, which is a number and not an
    undefined marker. *)
Lemma undefined_roc_auc_is_shown_as_zero :
  is_undefined_marker (roc_auc single_class_metrics) = true /\
  card_value "ROC-AUC" (metric_cards (Some single_class_metrics))
    = Some (JsNumber (Finite 0)) /\
  card_value "ROC-AUC" (metric_cards (Some (with_roc_auc (JsNumber NaN))))
    = Some (JsNumber (Finite 0)) /\
  card_value "ROC-AUC" (metric_cards (Some (with_roc_auc JsUndefined)))
    = Some (JsNumber (Finite 0)) /\
  is_undefined_marker (JsNumber (Finite 0)) = false.
Proof. repeat split; reflexivity. Qed.

End UndefinedMetric.

Section Coercion.
Import Js PredictionForm FormFacts Examples.

(** C10.  A change of a numeric field stores [parseFloat(value)] when that
    is truthy and 0 otherwise; in particular an entry that [parseFloat]
    reads as [NaN], such as the empty string or a text without a number,
    is stored as 0.  After any sequence of change events, the body that
    [handleSubmit] posts holds a number other than [NaN] under each of the
    four numeric fields. *)
Theorem numeric_change_is_coerced :
  (forall name value st,
      In name numeric_fields ->
      formData (handleChange name value st) !! name =
        Some (JsNumber (if truthy_number (parseFloat value)
                        then parseFloat value else Finite 0))) /\
  (forall name value st,
      In name numeric_fields ->
      parseFloat value = NaN ->
      formData (handleChange name value st) !! name = Some (JsNumber (Finite 0))) /\
  parseFloat "" = NaN /\
  parseFloat "abc" = NaN /\
  (forall evs name body,
      In name numeric_fields ->
      snd (handleSubmit (changes evs initial_state)) = Some body ->
      holds_number body name).
Proof.
  split; [ | split; [ | split; [ | split ] ] ].
  - intros name value st H. rewrite handleChange_lookup.
    now rewrite changed_value_numeric.
  - intros name value st H Hf. rewrite handleChange_lookup.
    rewrite changed_value_numeric by exact H. now rewrite Hf.
  - reflexivity.
  - reflexivity.
  - intros evs name body Hn Hs. apply handleSubmit_body in Hs. subst body.
    apply changes_holds_number; [ exact Hn | now apply initial_holds_number ].
Qed.

Lemma numeric_change_is_coerced_witness :
  In "University_GPA"%string numeric_fields /\
  parseFloat "abc" = NaN /\
  formData (handleChange "University_GPA" "abc" initial_state)
    !! "University_GPA"%string = Some (JsNumber (Finite 0)) /\
  exists body,
    snd (handleSubmit (changes typing initial_state)) = Some body /\
    holds_number body "University_GPA".
Proof.
  assert (Hin : In "University_GPA"%string numeric_fields) by (left; reflexivity).
  destruct numeric_change_is_coerced as (_ & Hnan & _ & Habc & Hbody).
  split; [ exact Hin | ]. split; [ exact Habc | ].
  split; [ exact (Hnan _ _ initial_state Hin Habc) | ].
  destruct (snd (handleSubmit (changes typing initial_state))) as [body|] eqn:E;
    [ | vm_compute in E; discriminate ].
  exists body. split; [ reflexivity | ].
  exact (Hbody typing _ body Hin E).
Defined.

End Coercion.

(** * Further properties of the code

    Properties of the service, the pipeline and the components beyond the
    statements of the specification. *)

(** ** The service over many requests *)

Module TraceFacts.
Import Sklearn Service Api ServiceFacts Observations.

#[local] Arguments store_reads : simpl never.

Lemma store_reads_log w w' l :
  log w' = log w ++ l ->
  store_reads w' =
    (store_reads w + length (List.filter is_store_read l))%nat.
Proof.
  unfold store_reads. intros ->.
  now rewrite List.filter_app, List.length_app.
Qed.

(** What a call of [load_pipeline] does to the state. *)
Lemma load_pipeline_effect w :
  match _cached_pipeline w, trained_pipeline w with
  | Some o, _ => load_pipeline w = (Ok o, w)
  | None, Some p =>
      exists w',
        load_pipeline w =
          (Ok {| object_id := allocated w; pipeline_of := p |}, w') /\
        _cached_pipeline w' =
          Some {| object_id := allocated w; pipeline_of := p |} /\
        trained_pipeline w' = Some p /\
        predictions w' = predictions w /\
        allocated w' = S (allocated w) /\
        store_reads w' = S (store_reads w)
  | None, None =>
      exists w',
        load_pipeline w = (Raise ModelNotTrainedError, w') /\
        _cached_pipeline w' = None /\
        trained_pipeline w' = None /\
        predictions w' = predictions w /\
        allocated w' = allocated w /\
        store_reads w' = S (store_reads w)
  end.
Proof.
  destruct (_cached_pipeline w) as [o|] eqn:Hc.
  - now apply load_pipeline_cached.
  - destruct (trained_pipeline w) as [p|] eqn:Hs.
    + eexists. split; [ now apply load_pipeline_first | ].
      cbn. repeat split; auto.
      rewrite (store_reads_log w _ [GetTrainedPipeline; CloseDb]);
        [ cbn; lia | cbn; now rewrite <- List.app_assoc ].
    + unfold load_pipeline, bind, get_cached. rewrite Hc.
      unfold get_trained_pipeline, bind, emit. cbn. rewrite Hs. cbn.
      eexists. split; [ reflexivity | ]. cbn. repeat split; auto.
      rewrite (store_reads_log w _ [GetTrainedPipeline]);
        [ cbn; lia | reflexivity ].
Qed.

(** Once the pipeline is loaded, [predict] only appends to the log. *)
Lemma same_store_refl w : same_store w w.
Proof. unfold same_store. auto. Qed.

Lemma same_store_trans w1 w2 w3 :
  same_store w1 w2 -> same_store w2 w3 -> same_store w1 w3.
Proof. unfold same_store. intuition congruence. Qed.

Lemma logs_only_ret {A} (a : A) : logs_only (ret a).
Proof. intros w. apply same_store_refl. Qed.

Lemma logs_only_raise {A} e : logs_only (@raise A e).
Proof. intros w. apply same_store_refl. Qed.

Lemma logs_only_lift {A} (r : result A) : logs_only (lift r).
Proof. intros w. apply same_store_refl. Qed.

Lemma logs_only_index {A} (l : list A) i : logs_only (index l i).
Proof.
  intros w. unfold index. destruct (l !! i); apply same_store_refl.
Qed.

Lemma logs_only_emit e : is_store_read e = false -> logs_only (emit e).
Proof.
  intros He w. unfold same_store. cbn. repeat split; auto.
  rewrite (store_reads_log w _ [e]); [ cbn; rewrite He; cbn; lia | reflexivity ].
Qed.

Lemma logs_only_bind {A B} (m : M A) (k : A -> M B) :
  logs_only m -> (forall a, logs_only (k a)) -> logs_only (bind m k).
Proof.
  intros Hm Hk w. unfold bind. specialize (Hm w).
  destruct (m w) as [[a|e] w1]; cbn [snd] in *; [ | exact Hm ].
  eapply same_store_trans; [ exact Hm | apply Hk ].
Qed.

Create HintDb trace.

#[local] Hint Resolve logs_only_ret logs_only_raise logs_only_lift
  logs_only_index logs_only_emit logs_only_bind : trace.

(** [predict], from the loaded pipeline on. *)
Lemma predict_loaded_effect input w o :
  _cached_pipeline w = Some o ->
  same_store w (snd (predict input w)).
Proof.
  intros Hc. unfold predict.
  unfold bind at 1. rewrite (load_pipeline_cached w o Hc).
  match goal with |- same_store w (snd (?m w)) =>
    assert (H : logs_only m); [ | apply H ] end.
  unfold preprocess_input.
  repeat (apply logs_only_bind; [ | intros ]); auto with trace.
Qed.

Lemma predict_effect input w :
  let w' := snd (predict input w) in
  match _cached_pipeline w, trained_pipeline w with
  | Some o, _ => same_store w w'
  | None, Some p =>
      _cached_pipeline w' =
        Some {| object_id := allocated w; pipeline_of := p |} /\
      trained_pipeline w' = Some p /\
      predictions w' = predictions w /\
      allocated w' = S (allocated w) /\
      store_reads w' = S (store_reads w)
  | None, None =>
      _cached_pipeline w' = None /\
      trained_pipeline w' = None /\
      predictions w' = predictions w /\
      allocated w' = allocated w /\
      store_reads w' = S (store_reads w)
  end.
Proof.
  pose proof (load_pipeline_effect w) as Hl.
  destruct (_cached_pipeline w) as [o|] eqn:Hc.
  { now apply predict_loaded_effect with o. }
  assert (Hrest : forall o w1, load_pipeline w = (Ok o, w1) ->
            same_store w1 (snd (predict input w))).
  { intros o w1 Ho. unfold predict. unfold bind at 1. rewrite Ho.
    match goal with |- same_store w1 (snd (?m w1)) =>
      assert (H : logs_only m); [ | apply H ] end.
    unfold preprocess_input.
    repeat (apply logs_only_bind; [ | intros ]); auto with trace. }
  destruct (trained_pipeline w) as [p|] eqn:Hs.
  - destruct Hl as (w1 & Hl & H1 & H2 & H3 & H4 & H5).
    destruct (Hrest _ _ Hl) as (R1 & R2 & R3 & R4 & R5). cbn.
    repeat split; congruence.
  - destruct Hl as (w1 & Hl & H1 & H2 & H3 & H4 & H5).
    cbn. unfold predict. rewrite (bind_Raise _ _ _ _ _ Hl). cbn.
    repeat split; congruence.
Qed.

Lemma predict_predictions input w :
  predictions (snd (predict input w)) = predictions w.
Proof.
  pose proof (predict_effect input w) as H. cbn in H.
  destruct (_cached_pipeline w); [ apply H | ].
  destruct (trained_pipeline w); apply H.
Qed.

(** The route function stores one row when it returns and none when it
    raises; apart from the table of predictions it changes what
    [predict] changes. *)
Lemma route_effect student w :
  let input := model_dump student in
  match predict_career_success student w with
  | (Ok r, w') =>
      exists label proba w1,
        predict input w = (Ok (label, proba), w1) /\
        r = {| predicted_label := label;
               probability := proba;
               confidence := calculate_confidence proba |} /\
        _cached_pipeline w' = _cached_pipeline w1 /\
        trained_pipeline w' = trained_pipeline w1 /\
        allocated w' = allocated w1 /\
        store_reads w' = store_reads w1 /\
        predictions w' = predictions w ++
          [{| input_data := input;
              row_predicted_label := label;
              row_probability := proba |}]
  | (Raise e, w') =>
      predict input w = (Raise e, w')
  end.
Proof.
  cbn. unfold predict_career_success, make_prediction.
  unfold bind at 1 2.
  pose proof (predict_predictions (model_dump student) w) as Hp.
  destruct (predict (model_dump student) w) as [[[label proba]|e] w1];
    [ | reflexivity ].
  cbn in Hp. unfold ret at 1. cbn [fst snd predicted_label probability confidence].
  unfold save_prediction, bind, emit, ret. cbn.
  exists label, proba, w1. repeat split; auto.
  - rewrite (store_reads_log w1 _ [SavePrediction]); [ cbn; lia | reflexivity ].
  - now rewrite Hp.
Qed.

End TraceFacts.

Module VoteFacts.
Import Forest NumericFacts ForestFacts.

Lemma vadd_length_le a : forall b, (length (vadd a b) <= length a)%nat.
Proof.
  induction a as [|x a IH]; intros [|y b]; cbn; try lia.
  specialize (IH b). lia.
Qed.

Lemma fold_vadd_length_le {A} (f : A -> list Q) ts : forall acc,
  (length (fold_left (fun acc t => vadd acc (f t)) ts acc) <= length acc)%nat.
Proof.
  induction ts as [|t ts IH]; intros acc; cbn; [ lia | ].
  specialize (IH (vadd acc (f t))).
  pose proof (vadd_length_le acc (f t)). lia.
Qed.

(** [predict_proba] has at most one column per class. *)
Lemma predict_proba_length_le rf x :
  (length (predict_proba rf x) <= length (classes_ rf))%nat.
Proof.
  unfold predict_proba. rewrite length_map.
  etransitivity; [ apply fold_vadd_length_le | ].
  now rewrite repeat_length.
Qed.

Lemma votes_nonneg x ts : forall a0 a1,
  forallb binary_tree ts = true -> 0 <= a0 -> 0 <= a1 ->
  Forall (fun s => 0 <= s)
    (fold_left (fun acc t => vadd acc (tree_predict_proba t x)) ts [a0; a1]).
Proof.
  induction ts as [|t ts IH]; intros a0 a1 Hts H0 H1; cbn.
  - repeat constructor; assumption.
  - cbn in Hts. apply andb_prop in Hts as [Ht Hts].
    destruct (binary_tree_apply t x Ht) as (a & b & Ha & Ha0 & Hb0 & Hab).
    unfold tree_predict_proba. rewrite Ha. cbn [map vadd].
    assert (Hn : 0 < (if Qeq_bool (Qsum [a; b]) 0 then 1 else Qsum [a; b])).
    { destruct (Qeq_bool (Qsum [a; b]) 0); [ lra | ].
      unfold Qsum. cbn. lra. }
    apply IH; [ exact Hts | | ].
    + assert (0 <= a / (if Qeq_bool (Qsum [a; b]) 0 then 1 else Qsum [a; b])).
      { apply Qle_shift_div_l; [ exact Hn | lra ]. }
      lra.
    + assert (0 <= b / (if Qeq_bool (Qsum [a; b]) 0 then 1 else Qsum [a; b])).
      { apply Qle_shift_div_l; [ exact Hn | lra ]. }
      lra.
Qed.

(** The class probabilities of a two-class forest are two numbers of
    [0, 1] that add up to 1, and the label is the class of the larger
    one. *)
Lemma binary_forest_distribution rf x :
  binary_forest rf = true ->
  exists p0 p1,
    predict_proba rf x = [p0; p1] /\ p0 + p1 == 1 /\
    0 <= p0 /\ 0 <= p1 /\
    predict rf x = (if Qlt_bool p0 p1 then 1 else 0)%Z.
Proof.
  intros H. destruct (binary_forest_proba rf x H) as (p0 & p1 & Hp & Hs & Hl).
  exists p0, p1.
  assert (Hnn : 0 <= p0 /\ 0 <= p1); [ | tauto ].
  unfold binary_forest in H. apply andb_prop in H as [H Hts].
  apply andb_prop in H as [Hc Hn].
  apply bool_decide_eq_true in Hc.
  pose proof (votes_nonneg x (estimators_ rf) 0 0 Hts) as Hv.
  unfold predict_proba in Hp. rewrite Hc in Hp. cbn [length repeat] in Hp.
  assert (Hlen : 0 < Qlen (estimators_ rf)).
  { apply Qlen_pos. intros E. rewrite E in Hn. discriminate. }
  specialize (Hv ltac:(lra) ltac:(lra)).
  destruct (fold_left _ (estimators_ rf) [0; 0]) as [|s0 [|s1 [|]]];
    try discriminate.
  injection Hp as <- <-.
  apply Forall_cons_iff in Hv as [Hv0 Hv]. apply Forall_cons_iff in Hv as [Hv1 _].
  split; apply Qle_shift_div_l; lra.
Qed.

End VoteFacts.

Section Bookkeeping.
Import Sklearn Service Api ServiceFacts Observations TraceFacts.

#[local] Arguments store_reads : simpl never.

(** X1.  A request to [POST /predict] adds a row to table [predictions]
    exactly when it is answered.  The row of an answered request holds
    the dumped model of the validated body and the label and the
    probability of the response; a request that fails, be it at
    validation, when the pipeline is loaded or inside the pipeline, leaves
    the table as it was. *)
Theorem stored_row_matches_response (body : RequestBody) (w : World) :
  match post_predict body w with
  | (Ok r, w') =>
      exists student,
        validate body = Ok student /\
        predictions w' = predictions w ++
          [{| input_data := model_dump student;
              row_predicted_label := predicted_label r;
              row_probability := probability r |}]
  | (Raise _, w') => predictions w' = predictions w
  end.
Proof.
  unfold post_predict.
  destruct (validate body) as [student|e]; [ | reflexivity ].
  pose proof (route_effect student w) as H. cbn in H.
  destruct (predict_career_success student w) as [[r|e] w'].
  - destruct H as (label & proba & w1 & _ & -> & _ & _ & _ & _ & H).
    exists student. auto.
  - pose proof (predict_predictions (model_dump student) w) as Hp.
    now rewrite H in Hp.
Qed.

Lemma post_predict_warm_or_cold p body w :
  warm_or_cold p w -> warm_or_cold p (snd (post_predict body w)).
Proof.
  intros [Hs Hw]. unfold post_predict.
  destruct (validate body) as [student|e]; [ | now split ].
  pose proof (route_effect student w) as Hr.
  pose proof (predict_effect (model_dump student) w) as Hp.
  cbn in Hr, Hp. rewrite Hs in Hp.
  assert (Hgoal : warm_or_cold p (snd (predict (model_dump student) w))).
  { destruct Hw as [(Hc & Ha & Hn) | (Hc & Ha & Hn)]; rewrite Hc in Hp.
    - destruct Hp as (P1 & P2 & P3 & P4 & P5). split; [ exact P2 | right ].
      rewrite Ha in P1, P4. rewrite Hn in P5. auto.
    - destruct Hp as (P1 & P2 & P3 & P4 & P5). split; [ congruence | right ].
      repeat split; congruence. }
  destruct (predict_career_success student w) as [[r|e] w'].
  - destruct Hr as (label & proba & w1 & Hr & _ & R1 & R2 & R3 & R4 & _).
    rewrite Hr in Hgoal. cbn in Hgoal |- *.
    unfold warm_or_cold in *. rewrite R1, R2, R3, R4. exact Hgoal.
  - now rewrite Hr in Hgoal.
Qed.

Lemma serve_warm_or_cold p reqs : forall w,
  warm_or_cold p w -> warm_or_cold p (serve reqs w).
Proof.
  induction reqs as [|body reqs IH]; intros w H; [ exact H | ].
  cbn. apply IH, post_predict_warm_or_cold, H.
Qed.

(** X2.  The singleton cache of [load_pipeline]: a process started on a
    store that holds a pipeline reads table [trained_pipeline] at most
    once, whatever requests it answers, and builds at most one pipeline
    object; once the cache is set it holds that object, with the stored
    pipeline. *)
Theorem store_is_read_at_most_once (p : Pipeline) (reqs : list RequestBody) :
  let w := serve reqs (fresh_process (Some p)) in
  (store_reads w <= 1)%nat /\
  (allocated w <= 1)%nat /\
  forall o, _cached_pipeline w = Some o ->
            o = {| object_id := 0; pipeline_of := p |} /\
            store_reads w = 1%nat.
Proof.
  cbn. assert (H : warm_or_cold p (fresh_process (Some p))).
  { split; [ reflexivity | left; auto ]. }
  apply (serve_warm_or_cold p reqs) in H.
  destruct H as [_ [(Hc & Ha & Hn) | (Hc & Ha & Hn)]].
  - rewrite Ha, Hn, Hc.
    split; [ lia | split; [ lia | intros o Ho; discriminate ] ].
  - rewrite Ha, Hn, Hc.
    split; [ lia | split; [ lia | intros o Ho; split; congruence ] ].
Qed.

(** With an empty store every valid request reads the store again. *)
Lemma post_predict_cold body w :
  untrained w ->
  store_reads (snd (post_predict body w)) =
    (store_reads w + if is_Ok (validate body) then 1 else 0)%nat.
Proof.
  intros [Hc Hs]. unfold post_predict.
  destruct (validate body) as [student|e]; cbn; [ | lia ].
  pose proof (route_effect student w) as Hr.
  pose proof (predict_effect (model_dump student) w) as Hp.
  pose proof (predict_untrained (model_dump student) w (conj Hc Hs))
    as (w1 & H1 & _).
  cbn in Hr, Hp. rewrite Hc, Hs, H1 in Hp. cbn in Hp.
  destruct (predict_career_success student w) as [[r|e] w'].
  - destruct Hr as (label & proba & w2 & Hr & _). congruence.
  - rewrite H1 in Hr. injection Hr as _ <-. cbn.
    destruct Hp as (_ & _ & _ & _ & Hp). lia.
Qed.

(** X3.  [load_pipeline] does not cache a failure: on an empty store the
    cache stays empty, and every request that passes validation reads the
    store again. *)
Theorem failed_load_is_not_cached (reqs : list RequestBody) :
  let w := serve reqs (fresh_process None) in
  _cached_pipeline w = None /\
  store_reads w = length (List.filter (fun body => is_Ok (validate body)) reqs).
Proof.
  cbn.
  assert (H : forall w, untrained w ->
            untrained (serve reqs w) /\
            store_reads (serve reqs w) =
              (store_reads w +
               length (List.filter (fun body => is_Ok (validate body)) reqs))%nat).
  { induction reqs as [|body reqs IH]; intros w Hu; cbn.
    - split; [ exact Hu | lia ].
    - pose proof (ApiFacts.endpoint_untrained body w Hu) as Hu'.
      destruct (IH _ Hu') as [IH1 IH2]. split; [ exact IH1 | ].
      rewrite IH2, (post_predict_cold body w Hu).
      destruct (is_Ok (validate body)); cbn; lia. }
  destruct (H (fresh_process None)) as [[Hc _] Hn]; [ split; reflexivity | ].
  split; [ exact Hc | exact Hn ].
Qed.

End Bookkeeping.

Section Answers.
Import Sklearn Service Api ServiceFacts Observations TraceFacts VoteFacts.

Lemma predict_one_row p input :
  Sklearn.predict p [input] =
    match preprocessor_transform (preprocessor p) input with
    | Ok x => Ok [Forest.predict (classifier p) x]
    | Raise e => Raise e
    end.
Proof.
  unfold Sklearn.predict. cbn [map_result].
  now destruct (preprocessor_transform (preprocessor p) input).
Qed.

Lemma predict_proba_one_row p input :
  Sklearn.predict_proba p [input] =
    match preprocessor_transform (preprocessor p) input with
    | Ok x => Ok [Forest.predict_proba (classifier p) x]
    | Raise e => Raise e
    end.
Proof.
  unfold Sklearn.predict_proba. cbn [map_result].
  now destruct (preprocessor_transform (preprocessor p) input).
Qed.

(** X4.  [predict] reads entry 1 of the first row of [predict_proba].
    With a forest that knows fewer than two classes there is no such
    entry: every request that passes validation and is encoded ends in
    [IndexError], and nothing is stored. *)
Theorem one_class_forest_cannot_answer
    (body : RequestBody) (student : StudentInput) (w : World)
    (o : PipelineObject) :
  validate body = Ok student ->
  fst (load_pipeline w) = Ok o ->
  (length (Forest.classes_ (classifier (pipeline_of o))) < 2)%nat ->
  is_Ok (preprocessor_transform (preprocessor (pipeline_of o))
           (model_dump student)) = true ->
  fst (predict (model_dump student) w) = Raise IndexError /\
  fst (post_predict body w) = Raise IndexError /\
  predictions (snd (post_predict body w)) = predictions w.
Proof.
  intros Hv Hl Hc Hx.
  assert (Hp : fst (predict (model_dump student) w) = Raise IndexError).
  { unfold predict. unfold bind at 1.
    destruct (load_pipeline w) as [[o'|e] w1]; cbn in Hl; [ | discriminate ].
    injection Hl as ->.
    unfold preprocess_input, bind, emit, ret, lift. cbn [fst snd].
    rewrite predict_one_row, predict_proba_one_row.
    destruct (preprocessor_transform _ _) as [x|e]; [ | discriminate ].
    unfold index. cbn [lookup list_lookup]. unfold ret. cbn [fst snd].
    pose proof (predict_proba_length_le (classifier (pipeline_of o)) x) as Hlen.
    destruct (Forest.predict_proba (classifier (pipeline_of o)) x !! 1%nat)
      as [q|] eqn:Hq; [ | reflexivity ].
    apply lookup_lt_Some in Hq. lia. }
  split; [ exact Hp | ].
  unfold post_predict. rewrite Hv.
  pose proof (route_effect student w) as Hr. cbn in Hr.
  pose proof (predict_predictions (model_dump student) w) as Hs.
  destruct (predict_career_success student w) as [[r|e] w'].
  - destruct Hr as (label & proba & w1 & Hr & _). rewrite Hr in Hp. discriminate.
  - rewrite Hr in Hp, Hs. cbn in Hp, Hs |- *. split; congruence.
Qed.

Lemma one_class_forest_cannot_answer_witness :
  fst (predict (model_dump Examples.scenario_1)
         (fresh_process (Some Scenarios.one_class_pipeline))) = Raise IndexError /\
  fst (post_predict Examples.scenario_1_body
         (fresh_process (Some Scenarios.one_class_pipeline))) = Raise IndexError /\
  predictions (snd (post_predict Examples.scenario_1_body
         (fresh_process (Some Scenarios.one_class_pipeline)))) = [].
Proof.
  apply (one_class_forest_cannot_answer Examples.scenario_1_body
           Examples.scenario_1
           (fresh_process (Some Scenarios.one_class_pipeline))
           {| object_id := 0; pipeline_of := Scenarios.one_class_pipeline |}).
  - vm_compute. reflexivity.
  - reflexivity.
  - cbn. lia.
  - vm_compute. reflexivity.
Defined.

(** X5.  With a two-class forest, every response of [POST /predict]
    carries a label that is 0 or 1, a probability in [0, 1] and a
    confidence in [0, 1]. *)
Theorem response_is_a_probability
    (body : RequestBody) (w w' : World) (r : PredictionResponse)
    (o : PipelineObject) :
  post_predict body w = (Ok r, w') ->
  fst (load_pipeline w) = Ok o ->
  Forest.binary_forest (classifier (pipeline_of o)) = true ->
  (predicted_label r = 0%Z \/ predicted_label r = 1%Z) /\
  0 <= probability r <= 1 /\
  0 <= confidence r <= 1.
Proof.
  intros Hp Hl Hb. unfold post_predict in Hp.
  destruct (validate body) as [student|e]; [ | discriminate ].
  pose proof (route_effect student w) as Hr. cbn in Hr. rewrite Hp in Hr.
  destruct Hr as (label & proba & w1 & Hr & -> & _).
  apply predict_Ok in Hr as (o' & x & Hl' & Hx & -> & Hq).
  rewrite Hl in Hl'. injection Hl' as <-.
  destruct (binary_forest_distribution _ x Hb)
    as (p0 & p1 & Hd & Hs & H0 & H1 & Hlab).
  rewrite Hd in Hq. cbn in Hq. injection Hq as <-.
  cbn [predicted_label probability confidence].
  assert (Hr : 0 <= p1 <= 1) by (split; lra).
  split; [ rewrite Hlab; destruct (Forest.Qlt_bool p0 p1); auto | ].
  split; [ exact Hr | now apply calculate_confidence_range ].
Qed.

Lemma response_is_a_probability_witness :
  exists r,
    fst (post_predict Examples.scenario_1_body
           (fresh_process (Some Examples.tie_pipeline))) = Ok r /\
    (predicted_label r = 0%Z \/ predicted_label r = 1%Z) /\
    0 <= probability r <= 1 /\
    0 <= confidence r <= 1.
Proof.
  destruct (post_predict Examples.scenario_1_body
              (fresh_process (Some Examples.tie_pipeline)))
    as [[r|e] w'] eqn:E; [ | vm_compute in E; discriminate ].
  exists r. split; [ reflexivity | ].
  apply (response_is_a_probability Examples.scenario_1_body
           (fresh_process (Some Examples.tie_pipeline)) w' r
           {| object_id := 0; pipeline_of := Examples.tie_pipeline |}).
  - exact E.
  - reflexivity.
  - vm_compute. reflexivity.
Defined.

End Answers.

(** ** Validation of the request body *)

Module ContractFacts.
Import Api Contract NumericFacts.

Lemma Qle_bool_true x y : x <= y -> Qle_bool x y = true.
Proof. apply Qle_bool_iff. Qed.

Lemma validate_score_inr name v q :
  validate_score name v = inr q <-> v = Some q /\ 0 <= q <= 10.
Proof.
  unfold validate_score. destruct v as [x|]; [ | split; [ discriminate | intros [? _]; discriminate ] ].
  destruct (Qle_bool 0 x) eqn:E0; cbn [negb].
  - destruct (Qle_bool x 10) eqn:E1; cbn [negb].
    + apply Qle_bool_iff in E0, E1. split.
      * intros H. injection H as <-. auto.
      * intros [H _]. injection H as <-. reflexivity.
    + split; [ discriminate | ]. intros [H [_ H1]]. injection H as ->.
      apply Qle_bool_iff in H1. congruence.
  - split; [ discriminate | ]. intros [H [H0 _]]. injection H as ->.
    apply Qle_bool_iff in H0. congruence.
Qed.

Lemma validate_score_errors name v f kind :
  In (f, kind) (errors_of (validate_score name v)) <->
  f = name /\ score_error v kind.
Proof.
  unfold validate_score. destruct v as [x|].
  2:{ cbn. split.
      - intros [H | []]. injection H as <- <-. split; [ auto | now constructor ].
      - intros [-> H]. inversion H; subst; try discriminate. auto. }
  destruct (Qle_bool 0 x) eqn:E0; cbn [negb].
  - destruct (Qle_bool x 10) eqn:E1; cbn [negb errors_of In].
    + apply Qle_bool_iff in E0, E1. split; [ tauto | ].
      intros [_ H]. inversion H as [E | q E Hq | q E Hq]; subst;
        try discriminate; injection E as <-; lra.
    + assert (10 < x).
      { apply Qnot_le_lt. intros H. apply Qle_bool_iff in H. congruence. }
      split.
      * intros [H' | []]. injection H' as <- <-.
        split; [ auto | now apply score_above with x ].
      * intros [-> H']. inversion H' as [E | q E Hq | q E Hq]; subst;
          try discriminate; [ injection E as <-; apply Qle_bool_iff in E0; lra | auto ].
  - assert (x < 0).
    { apply Qnot_le_lt. intros H. apply Qle_bool_iff in H. congruence. }
    cbn [errors_of In]. split.
    + intros [H' | []]. injection H' as <- <-.
      split; [ auto | now apply score_below with x ].
    + intros [-> H']. inversion H' as [E | q E Hq | q E Hq]; subst;
        try discriminate; [ auto | injection E as <-; lra ].
Qed.

Lemma validate_text_inr name v s :
  validate_text name v = inr s <-> v = Some s /\ s <> ""%string.
Proof.
  unfold validate_text. destruct v as [x|]; [ | split; [ discriminate | intros [? _]; discriminate ] ].
  destruct x as [|c x]; cbn.
  - split; [ discriminate | ]. intros [H Hn]. injection H as <-. now destruct Hn.
  - split.
    + intros H. injection H as <-. split; [ reflexivity | discriminate ].
    + intros [H _]. injection H as <-. reflexivity.
Qed.

Lemma validate_text_errors name v f kind :
  In (f, kind) (errors_of (validate_text name v)) <->
  f = name /\ text_error v kind.
Proof.
  unfold validate_text. destruct v as [x|].
  2:{ cbn. split.
      - intros [H | []]. injection H as <- <-. split; [ auto | now constructor ].
      - intros [-> H]. inversion H; subst; try discriminate. auto. }
  destruct x as [|c x]; cbn.
  - split.
    + intros [H | []]. injection H as <- <-. split; [ auto | now constructor ].
    + intros [-> H]. inversion H; subst; try discriminate. auto.
  - split; [ tauto | ]. intros [_ H]. inversion H; discriminate.
Qed.

Lemma Qred_inject_Z z : Qred (inject_Z z) = inject_Z z.
Proof.
  pose proof (Qred_correct (inject_Z z)) as He.
  pose proof (gcd_Qred (inject_Z z)) as Hg.
  destruct (Qred (inject_Z z)) as [n d].
  unfold Qeq in He. cbn in He, Hg.
  assert (Hn : n = (Z.pos d * z)%Z) by lia. subst n.
  rewrite Z.gcd_comm, Z.gcd_mul_diag_l in Hg by lia.
  assert (d = 1%positive) by lia. subst d.
  unfold inject_Z. f_equal. lia.
Qed.

Lemma is_integral_iff q :
  is_integral q = true <-> exists z, q == inject_Z z.
Proof.
  unfold is_integral. rewrite Pos.eqb_eq. split.
  - intros H. exists (Qnum (Qred q)).
    rewrite <- (Qred_correct q) at 1.
    destruct (Qred q) as [n d]. cbn in H. subst d. reflexivity.
  - intros [z Hz]. apply Qred_complete in Hz. rewrite Hz, Qred_inject_Z.
    reflexivity.
Qed.

Lemma integral_value q z : q == inject_Z z -> Qnum (Qred q) = z.
Proof.
  intros Hz. apply Qred_complete in Hz. now rewrite Hz, Qred_inject_Z.
Qed.

Lemma fits_int64_iff z :
  fits_int64 z = true <-> (- int64_bound < z < int64_bound)%Z.
Proof.
  unfold fits_int64. rewrite andb_true_iff, !Z.ltb_lt. tauto.
Qed.

Lemma validate_count_inr name v i :
  validate_count name v = inr i <->
  exists q, v = Some q /\ q == inject_Z i /\ (0 <= i < int64_bound)%Z.
Proof.
  unfold validate_count. destruct v as [x|].
  2:{ split; [ discriminate | intros (q & ? & _); discriminate ]. }
  destruct (is_integral x) eqn:Ei; cbn [negb].
  - apply is_integral_iff in Ei as [z Hz].
    rewrite (integral_value x z Hz).
    assert (Hsame : forall z', x == inject_Z z' -> z' = z).
    { intros z' Hz'. rewrite Hz in Hz'. symmetry.
      now apply (proj1 (inject_Z_injective _ _)). }
    destruct (fits_int64 z) eqn:Ef; cbn [negb].
    + apply fits_int64_iff in Ef.
      destruct (Z.leb 0 z) eqn:E0; cbn [negb].
      * apply Z.leb_le in E0. split.
        -- intros H. injection H as <-. exists x. repeat split; auto; lia.
        -- intros (q & H & Hq & _). injection H as <-.
           apply Hsame in Hq. now subst.
      * apply Z.leb_gt in E0. split; [ discriminate | ].
        intros (q & H & Hq & H0). injection H as <-. apply Hsame in Hq. lia.
    + split; [ discriminate | ].
      intros (q & H & Hq & H0). injection H as <-. apply Hsame in Hq. subst i.
      assert (fits_int64 z = true); [ | congruence ].
      apply fits_int64_iff. pose proof (Z.pow_pos_nonneg 2 63). 
      unfold int64_bound in *. lia.
  - split; [ discriminate | ]. intros (q & H & Hq & _). injection H as <-.
    assert (is_integral x = true) by (apply is_integral_iff; eauto). congruence.
Qed.

Lemma validate_count_errors name v f kind :
  In (f, kind) (errors_of (validate_count name v)) <->
  f = name /\ count_error v kind.
Proof.
  unfold validate_count. destruct v as [x|].
  2:{ cbn. split.
      - intros [H | []]. injection H as <- <-. split; [ auto | now constructor ].
      - intros [-> H]. inversion H; subst; try discriminate. auto. }
  destruct (is_integral x) eqn:Ei; cbn [negb].
  - apply is_integral_iff in Ei as [z Hz].
    rewrite (integral_value x z Hz).
    assert (Hsame : forall z', x == inject_Z z' -> z' = z).
    { intros z' Hz'. rewrite Hz in Hz'. symmetry.
      now apply (proj1 (inject_Z_injective _ _)). }
    destruct (fits_int64 z) eqn:Ef; cbn [negb].
    + apply fits_int64_iff in Ef.
      destruct (Z.leb 0 z) eqn:E0; cbn [negb errors_of In].
      * apply Z.leb_le in E0. split; [ tauto | ].
        intros [_ H].
        inversion H as [E | q E Hq | q z' E Hq Hs | q z' E Hq Hneg]; subst;
          try discriminate; injection E as <-.
        -- now destruct (Hq z).
        -- apply Hsame in Hq. lia.
        -- apply Hsame in Hq. lia.
      * apply Z.leb_gt in E0. split.
        -- intros [H | []]. injection H as <- <-.
           split; [ auto | apply count_negative with x z; auto; lia ].
        -- intros [-> H].
           inversion H as [E | q E Hq | q z' E Hq Hs | q z' E Hq Hneg]; subst;
             try discriminate; try (now left); injection E as <-.
           ++ now destruct (Hq z).
           ++ apply Hsame in Hq. lia.
    + assert (Hout : (z <= - int64_bound \/ int64_bound <= z)%Z).
      { destruct (Z_lt_le_dec (- int64_bound) z) as [Hlo | Hlo]; [ | now left ].
        destruct (Z_lt_le_dec z int64_bound) as [Hhi | Hhi]; [ | now right ].
        assert (fits_int64 z = true) by now apply fits_int64_iff.
        congruence. }
      cbn [errors_of In]. split.
      * intros [H | []]. injection H as <- <-.
        split; [ auto | now apply count_size with x z ].
      * intros [-> H].
        inversion H as [E | q E Hq | q z' E Hq Hs | q z' E Hq Hneg]; subst;
          try discriminate; try (now left); injection E as <-.
        -- now destruct (Hq z).
        -- apply Hsame in Hq. lia.
  - cbn [errors_of In]. split.
    + intros [H | []]. injection H as <- <-. split; [ auto | ].
      apply count_fraction with x; [ reflexivity | ].
      intros z Hz.
      assert (is_integral x = true) by (apply is_integral_iff; eauto). congruence.
    + intros [-> H].
      inversion H as [E | q E Hq | q z' E Hq Hs | q z' E Hq Hneg]; subst;
        try discriminate; try (now left); injection E as <-;
        assert (is_integral x = true) by (apply is_integral_iff; eauto);
        congruence.
Qed.

(** A validator reports at most one error, under the field's name. *)
Lemma errors_named {A} name (r : list field_error + A) :
  (forall f kind, In (f, kind) (errors_of r) -> f = name) ->
  (length (errors_of r) <= 1)%nat ->
  map fst (errors_of r) `sublist_of` [name].
Proof.
  intros Hn Hl. destruct (errors_of r) as [|[f k] [|]]; cbn in *; try lia.
  - apply sublist_nil_l.
  - rewrite (Hn f k); [ reflexivity | auto ].
Qed.

Lemma validate_score_length name v :
  (length (errors_of (validate_score name v)) <= 1)%nat.
Proof.
  unfold validate_score. destruct v as [q|]; [ | cbn; lia ].
  destruct (Qle_bool 0 q); cbn [negb]; [ | cbn; lia ].
  destruct (Qle_bool q 10); cbn; lia.
Qed.

Lemma validate_text_length name v :
  (length (errors_of (validate_text name v)) <= 1)%nat.
Proof.
  unfold validate_text.
  destruct v as [x|]; [ destruct (Nat.ltb (String.length x) 1) | ]; cbn; lia.
Qed.

Lemma validate_count_length name v :
  (length (errors_of (validate_count name v)) <= 1)%nat.
Proof.
  unfold validate_count. destruct v as [q|]; [ | cbn; lia ].
  destruct (is_integral q); cbn [negb]; [ | cbn; lia ].
  destruct (fits_int64 (Qnum (Qred q))); cbn [negb]; [ | cbn; lia ].
  destruct (Z.leb 0 (Qnum (Qred q))); cbn; lia.
Qed.

(** The result of [validate] in terms of the six validators. *)
Lemma validate_cases b :
  let gpa := validate_score "University_GPA" (body_University_GPA b) in
  let fos := validate_text "Field_of_Study" (body_Field_of_Study b) in
  let gen := validate_text "Gender" (body_Gender b) in
  let int := validate_count "Internships_Completed" (body_Internships_Completed b) in
  let sof := validate_score "Soft_Skills_Score" (body_Soft_Skills_Score b) in
  let net := validate_score "Networking_Score" (body_Networking_Score b) in
  (exists g f ge i s n,
      gpa = inr g /\ fos = inr f /\ gen = inr ge /\ int = inr i /\
      sof = inr s /\ net = inr n /\
      validate b = Ok {| University_GPA := g;
                         Field_of_Study := f;
                         Gender := ge;
                         Internships_Completed := i;
                         Soft_Skills_Score := s;
                         Networking_Score := n |}) \/
  (errors_of gpa ++ errors_of fos ++ errors_of gen ++
     errors_of int ++ errors_of sof ++ errors_of net <> [] /\
   validate b =
     Raise (ValidationError
              (errors_of gpa ++ errors_of fos ++ errors_of gen ++
               errors_of int ++ errors_of sof ++ errors_of net))).
Proof.
  intros gpa fos gen int sof net.
  unfold validate. fold gpa fos gen int sof net.
  assert (Hs : forall name v es, validate_score name v = inl es -> es <> []).
  { intros name v es. unfold validate_score. destruct v; [ | intros H; injection H as <-; discriminate ].
    destruct (Qle_bool 0 q); cbn; [ | intros H; injection H as <-; discriminate ].
    destruct (Qle_bool q 10); cbn; intros H; [ discriminate | injection H as <-; discriminate ]. }
  assert (Ht : forall name v es, validate_text name v = inl es -> es <> []).
  { intros name v es. unfold validate_text. destruct v as [[|]|]; cbn; intros H;
      try discriminate; injection H as <-; discriminate. }
  assert (Hc : forall name v es, validate_count name v = inl es -> es <> []).
  { intros name v es. unfold validate_count. destruct v; [ | intros H; injection H as <-; discriminate ].
    destruct (is_integral q); cbn [negb];
      [ | intros H; injection H as <-; discriminate ].
    destruct (fits_int64 (Qnum (Qred q))); cbn [negb];
      [ | intros H; injection H as <-; discriminate ].
    destruct (Z.leb 0 (Qnum (Qred q))); cbn [negb]; intros H;
      [ discriminate | injection H as <-; discriminate ]. }
  destruct gpa as [e1|g] eqn:E1.
  { right. apply Hs in E1. split; [ | reflexivity ].
    cbn [errors_of]. intros E. apply app_eq_nil in E as [E _]. auto. }
  destruct fos as [e2|f] eqn:E2.
  { right. apply Ht in E2. split; [ | reflexivity ].
    cbn [errors_of app]. intros E. apply app_eq_nil in E as [E _]. auto. }
  destruct gen as [e3|ge] eqn:E3.
  { right. apply Ht in E3. split; [ | reflexivity ].
    cbn [errors_of app]. intros E. apply app_eq_nil in E as [E _]. auto. }
  destruct int as [e4|i] eqn:E4.
  { right. apply Hc in E4. split; [ | reflexivity ].
    cbn [errors_of app]. intros E. apply app_eq_nil in E as [E _]. auto. }
  destruct sof as [e5|s] eqn:E5.
  { right. apply Hs in E5. split; [ | reflexivity ].
    cbn [errors_of app]. intros E. apply app_eq_nil in E as [E _]. auto. }
  destruct net as [e6|n] eqn:E6.
  { right. apply Hs in E6. split; [ | reflexivity ].
    cbn [errors_of app]. rewrite ?app_nil_r. auto. }
  left. exists g, f, ge, i, s, n. repeat split; reflexivity.
Qed.

(** The model [validate] returns holds the values of the body. *)
Lemma validate_Ok_fields b s :
  validate b = Ok s ->
  body_University_GPA b = Some (University_GPA s) /\
  body_Field_of_Study b = Some (Field_of_Study s) /\
  body_Gender b = Some (Gender s) /\
  (exists q, body_Internships_Completed b = Some q /\
             q == inject_Z (Internships_Completed s)) /\
  body_Soft_Skills_Score b = Some (Soft_Skills_Score s) /\
  body_Networking_Score b = Some (Networking_Score s).
Proof.
  intros H.
  destruct (validate_cases b)
    as [(g & f & ge & i & so & n & E1 & E2 & E3 & E4 & E5 & E6 & Ev) | [_ Ev]];
    rewrite Ev in H; [ | discriminate ].
  injection H as <-. cbn.
  apply validate_score_inr in E1 as [E1 _], E5 as [E5 _], E6 as [E6 _].
  apply validate_text_inr in E2 as [E2 _], E3 as [E3 _].
  apply validate_count_inr in E4 as (q & E4 & Hq & _).
  repeat split; eauto.
Qed.

(** Reading a dumped model back. *)
Lemma model_dump_cells s :
  let row := model_dump s in
  num_cell "University_GPA" row = Some (University_GPA s) /\
  str_cell "Field_of_Study" row = Some (Field_of_Study s) /\
  str_cell "Gender" row = Some (Gender s) /\
  num_cell "Internships_Completed" row =
    Some (inject_Z (Internships_Completed s)) /\
  num_cell "Soft_Skills_Score" row = Some (Soft_Skills_Score s) /\
  num_cell "Networking_Score" row = Some (Networking_Score s) /\
  dom row = list_to_set declared_fields.
Proof.
  cbn. unfold model_dump, num_cell, str_cell.
  repeat split; reflexivity.
Qed.

End ContractFacts.

Section Acceptance.
Import Sklearn Service Api Contract ContractFacts.

(** X6.  [validate] accepts a body exactly when every field is present
    and within the constraints of [StudentInput]: the three scores
    between 0 and 10, the two texts not empty, and the number of
    internships a whole number that is at least 0 and below 2^63.  The
    model it returns holds the values of the body, the number of
    internships as the integer the JSON number denotes. *)
Theorem validate_accepts_exactly_the_domain (b : RequestBody) (s : StudentInput) :
  validate b = Ok s <->
  (body_University_GPA b = Some (University_GPA s) /\
     0 <= University_GPA s <= 10) /\
  (body_Field_of_Study b = Some (Field_of_Study s) /\
     Field_of_Study s <> ""%string) /\
  (body_Gender b = Some (Gender s) /\ Gender s <> ""%string) /\
  (exists q, body_Internships_Completed b = Some q /\
             q == inject_Z (Internships_Completed s) /\
             (0 <= Internships_Completed s < int64_bound)%Z) /\
  (body_Soft_Skills_Score b = Some (Soft_Skills_Score s) /\
     0 <= Soft_Skills_Score s <= 10) /\
  (body_Networking_Score b = Some (Networking_Score s) /\
     0 <= Networking_Score s <= 10).
Proof.
  rewrite <- !validate_score_inr, <- !validate_text_inr, <- validate_count_inr.
  destruct (validate_cases b)
    as [(g & f & ge & i & so & n & E1 & E2 & E3 & E4 & E5 & E6 & Ev) | [Hne Ev]];
    rewrite Ev.
  - rewrite E1, E2, E3, E4, E5, E6. split.
    + intros H. injection H as <-. cbn. auto 10.
    + destruct s. cbn. intros (H1 & H2 & H3 & H4 & H5 & H6). congruence.
  - split; [ discriminate | ].
    intros (H1 & H2 & H3 & H4 & H5 & H6).
    rewrite H1, H2, H3, H4, H5, H6 in Hne. now destruct Hne.
Qed.

(** X7.  A refused body is answered with a non-empty list of errors.
    The list names exactly the fields that violate the model, each with
    the kind of its violation; a field is named at most once, and the
    fields come in the order of declaration.  For the number of
    internships the kinds are [missing], [int_from_float] for a number
    with a fractional part, [int_parsing_size] for a whole number of
    magnitude 2^63 or more, and [greater_than_equal] for a negative whole
    number above -2^63. *)
Theorem validation_errors_are_exact (b : RequestBody) (e : error) :
  validate b = Raise e ->
  exists errs,
    e = ValidationError errs /\
    errs <> [] /\
    (forall f kind, In (f, kind) errs <-> refused b f kind) /\
    map fst errs `sublist_of` declared_fields.
Proof.
  intros H.
  destruct (validate_cases b)
    as [(g & f & ge & i & so & n & _ & _ & _ & _ & _ & _ & Ev) | [Hne Ev]];
    rewrite Ev in H; [ discriminate | ].
  injection H as <-. eexists. split; [ reflexivity | ].
  split; [ exact Hne | ]. split.
  - intros f kind. rewrite !in_app_iff.
    rewrite !validate_score_errors, !validate_text_errors, validate_count_errors.
    unfold refused. tauto.
  - rewrite !map_app.
    change declared_fields with
      (["University_GPA"%string] ++ ["Field_of_Study"%string] ++
       ["Gender"%string] ++ ["Internships_Completed"%string] ++
       ["Soft_Skills_Score"%string] ++ ["Networking_Score"%string]).
    repeat apply sublist_app;
      apply errors_named;
      first [ apply validate_score_length | apply validate_text_length
            | apply validate_count_length | idtac ];
      intros f kind Hin;
      first [ apply validate_score_errors in Hin
            | apply validate_text_errors in Hin
            | apply validate_count_errors in Hin ];
      tauto.
Qed.

Lemma validation_errors_are_exact_witness :
  exists errs,
    ValidationError [("University_GPA", "less_than_equal")]%string
      = ValidationError errs /\
    errs <> [] /\
    (forall f kind, In (f, kind) errs <-> refused Examples.scenario_2_body f kind) /\
    map fst errs `sublist_of` declared_fields.
Proof.
  apply (validation_errors_are_exact Examples.scenario_2_body).
  vm_compute. reflexivity.
Defined.

(** X8.  The row an answered request stores holds the six values of the
    body, under the six field names and no other key. *)
Theorem stored_input_is_the_request
    (body : RequestBody) (w w' : World) (r : PredictionResponse) :
  post_predict body w = (Ok r, w') ->
  exists row,
    last (predictions w') = Some row /\
    num_cell "University_GPA" (input_data row) = body_University_GPA body /\
    str_cell "Field_of_Study" (input_data row) = body_Field_of_Study body /\
    str_cell "Gender" (input_data row) = body_Gender body /\
    (exists q i,
        body_Internships_Completed body = Some q /\
        num_cell "Internships_Completed" (input_data row) = Some i /\
        i == q) /\
    num_cell "Soft_Skills_Score" (input_data row) = body_Soft_Skills_Score body /\
    num_cell "Networking_Score" (input_data row) = body_Networking_Score body /\
    dom (input_data row) = list_to_set declared_fields.
Proof.
  intros Hp. unfold post_predict in Hp.
  destruct (validate body) as [student|e] eqn:Hv; [ | discriminate ].
  pose proof (TraceFacts.route_effect student w) as Hr. cbn in Hr.
  rewrite Hp in Hr.
  destruct Hr as (label & proba & w1 & _ & _ & _ & _ & _ & _ & Hrow).
  eexists. split; [ rewrite Hrow; apply last_snoc | ].
  cbn [input_data].
  apply validate_Ok_fields in Hv as (H1 & H2 & H3 & (q & H4 & Hq) & H5 & H6).
  destruct (model_dump_cells student) as (C1 & C2 & C3 & C4 & C5 & C6 & C7).
  rewrite H1, H2, H3, H5, H6.
  repeat split; auto.
  exists q, (inject_Z (Internships_Completed student)).
  repeat split; auto. now symmetry.
Qed.

Lemma stored_input_is_the_request_witness :
  exists row,
    last (predictions
            (snd (post_predict Examples.scenario_1_body
                    (fresh_process (Some Examples.tie_pipeline))))) = Some row /\
    num_cell "University_GPA" (input_data row) = Some 8.5 /\
    str_cell "Field_of_Study" (input_data row) = Some "Computer Science"%string.
Proof.
  destruct (post_predict Examples.scenario_1_body
              (fresh_process (Some Examples.tie_pipeline)))
    as [[r|e] w'] eqn:E; [ | vm_compute in E; discriminate ].
  destruct (stored_input_is_the_request _ _ _ _ E)
    as (row & H1 & H2 & H3 & _).
  exists row. auto.
Defined.

End Acceptance.

(** ** The encoding *)

Module VocabularyFacts.
Import Preprocessing Sklearn NumericFacts PreprocessingFacts Vocabulary.

Lemma ascii_compare_refl a : Ascii.compare a a = Eq.
Proof. unfold Ascii.compare. apply N.compare_refl. Qed.

Lemma ascii_compare_lt_trans a b c :
  Ascii.compare a b = Lt -> Ascii.compare b c = Lt -> Ascii.compare a c = Lt.
Proof.
  unfold Ascii.compare. rewrite !N.compare_lt_iff. lia.
Qed.

Lemma string_compare_refl s : String.compare s s = Eq.
Proof.
  induction s as [|a s IH]; cbn; [ reflexivity | ].
  now rewrite ascii_compare_refl.
Qed.

Lemma string_compare_lt_trans a : forall b c,
  String.compare a b = Lt -> String.compare b c = Lt -> String.compare a c = Lt.
Proof.
  induction a as [|x a IH]; intros [|y b] [|z c]; cbn; try congruence.
  destruct (Ascii.compare x y) eqn:Exy; try discriminate;
    destruct (Ascii.compare y z) eqn:Eyz; try discriminate; intros H1 H2.
  - apply Ascii.compare_eq_iff in Exy, Eyz. subst.
    rewrite ascii_compare_refl. eauto.
  - apply Ascii.compare_eq_iff in Exy. subst. now rewrite Eyz.
  - apply Ascii.compare_eq_iff in Eyz. subst. now rewrite Exy.
  - now rewrite (ascii_compare_lt_trans x y z).
Qed.

#[local] Instance before_transitive : Transitive before.
Proof.
  intros a b c. unfold before, String.ltb.
  destruct (String.compare a b) eqn:E1; try discriminate.
  destruct (String.compare b c) eqn:E2; try discriminate.
  now rewrite (string_compare_lt_trans a b c).
Qed.

Lemma before_irrefl a : ~ before a a.
Proof. unfold before, String.ltb. now rewrite string_compare_refl. Qed.

#[local] Instance before_antisymm : AntiSymm eq before.
Proof.
  intros a b H1 H2. destruct (before_irrefl a). now transitivity b.
Qed.

Lemma before_total a b :
  String.eqb a b = false -> String.ltb a b = false -> before b a.
Proof.
  unfold before, String.ltb. intros He Hl.
  rewrite String.compare_antisym.
  destruct (String.compare a b) eqn:E; try discriminate; [ | reflexivity ].
  apply String.compare_eq_iff in E. apply String.eqb_neq in He. contradiction.
Qed.

Lemma insert_sorted_sorted s l :
  StronglySorted before l -> StronglySorted before (insert_sorted s l).
Proof.
  induction l as [|h t IH]; intros Hs; cbn.
  - repeat constructor.
  - destruct (String.eqb s h) eqn:He; [ exact Hs | ].
    destruct (String.ltb s h) eqn:Hl.
    + constructor; [ exact Hs | ].
      apply StronglySorted_inv in Hs as [_ Hh].
      constructor; [ exact Hl | ].
      eapply Forall_impl; [ exact Hh | ].
      intros x Hx. now transitivity h.
    + apply StronglySorted_inv in Hs as [Ht Hh].
      constructor; [ now apply IH | ].
      apply List.Forall_forall. intros x Hx.
      apply insert_sorted_In in Hx as [-> | Hx].
      * now apply before_total.
      * rewrite List.Forall_forall in Hh. now apply Hh.
Qed.

(** The vocabulary is strictly increasing. *)
Lemma unique_sorted l : StronglySorted before (unique l).
Proof.
  induction l as [|s l IH]; cbn; [ constructor | ].
  now apply insert_sorted_sorted.
Qed.

Lemma sorted_NoDup l : StronglySorted before l -> List.NoDup l.
Proof.
  induction 1 as [|a l Hs IH Ha]; constructor; [ | exact IH ].
  intros Hin. rewrite List.Forall_forall in Ha.
  exact (before_irrefl a (Ha a Hin)).
Qed.

Lemma unique_NoDup l : List.NoDup (unique l).
Proof. apply sorted_NoDup, unique_sorted. Qed.

(** It depends on the set of the values only. *)
Lemma unique_same_values xs ys :
  (forall s, In s xs <-> In s ys) -> unique xs = unique ys.
Proof.
  intros H. apply (StronglySorted_unique before); try apply unique_sorted.
  apply NoDup_Permutation.
  - apply NoDup_ListNoDup, unique_NoDup.
  - apply NoDup_ListNoDup, unique_NoDup.
  - intros s. rewrite !list_elem_of_In, !unique_In. apply H.
Qed.

(** On a list without duplicates the indicator of a member has a single
    1. *)
Lemma indicator_sum cs v :
  List.NoDup cs ->
  Qsum (map (fun c => if String.eqb c v then 1 else 0) cs) ==
    (if existsb (String.eqb v) cs then 1 else 0).
Proof.
  induction 1 as [|c cs Hc Hn IH]; cbn; [ reflexivity | ].
  rewrite IH. rewrite (String.eqb_sym v c).
  destruct (String.eqb c v) eqn:E; cbn; [ | lra ].
  apply String.eqb_eq in E. subst c.
  destruct (existsb (String.eqb v) cs) eqn:Ex; [ | lra ].
  apply existsb_exists in Ex as (x & Hx & Hxv).
  apply String.eqb_eq in Hxv. subst x. contradiction.
Qed.

Lemma indicator_bits enc v :
  Forall (fun q => q = 0 \/ q = 1) (indicator enc v).
Proof.
  unfold indicator. apply List.Forall_forall. intros q Hq.
  apply in_map_iff in Hq as (c & <- & _).
  destruct (String.eqb c v); auto.
Qed.

Lemma known_true enc v : In v (categories_ enc) -> known enc v = true.
Proof.
  intros H. unfold known. apply existsb_exists. exists v.
  split; [ exact H | apply String.eqb_refl ].
Qed.

End VocabularyFacts.

Module EncodingFacts.
Import Preprocessing Sklearn NumericFacts PreprocessingFacts Vocabulary
  VocabularyFacts.

Lemma concat_results_length l x :
  concat_results l = Ok x ->
  forall lens,
    Forall2 (fun r n => forall v, r = Ok v -> length v = n) l lens ->
    length x = list_sum lens.
Proof.
  revert x. induction l as [|[v|e] l IH]; intros x H lens Hl.
  - injection H as <-. inversion Hl; subst. reflexivity.
  - cbn in H. destruct (concat_results l) as [vs|e] eqn:E; [ | discriminate ].
    injection H as <-. inversion Hl as [|? n ? lens' Hn Hl']; subst.
    rewrite List.length_app, (Hn v eq_refl), (IH vs eq_refl lens' Hl'). reflexivity.
  - discriminate.
Qed.

Lemma categorical_cell_length cc v x :
  categorical_cell cc v = Ok x ->
  length x = length (match cc with
                     | Some c => categories_ (onehot c)
                     | None => []
                     end).
Proof.
  destruct cc as [c|]; cbn.
  - unfold categorical_transform, onehot_transform.
    destruct (known _ _); [ | destruct (handle_unknown _); [ discriminate | ] ];
      intros H; injection H as <-; unfold indicator; now rewrite length_map.
  - intros H. now injection H as <-.
Qed.

Lemma length_concat_map {A B} (f : A -> list B) l :
  length (concat (map f l)) = list_sum (map (fun a => length (f a)) l).
Proof.
  induction l as [|a l IH]; cbn; [ reflexivity | ].
  now rewrite List.length_app, IH.
Qed.

(** The encoding of a row has one column per fitted numerical feature
    and one per known category, whatever the row holds. *)
Lemma preprocessor_transform_length ct r x :
  preprocessor_transform ct r = Ok x -> length x = n_features_out ct.
Proof.
  unfold preprocessor_transform, n_features_out.
  destruct (concat_results (cat_blocks ct r)) as [cs|e] eqn:E; [ | discriminate ].
  intros H. injection H as <-. rewrite List.length_app. f_equal.
  - unfold num_block. rewrite !length_concat_map. f_equal.
    apply map_ext. intros [name [nc|]]; reflexivity.
  - rewrite length_concat_map.
    apply (concat_results_length _ _ E).
    unfold cat_blocks. clear E.
    induction (cat ct) as [|c l IH]; cbn; constructor; [ | exact IH ].
    intros v Hv. now apply categorical_cell_length in Hv.
Qed.

(** Imputing with the mean of the present values leaves the mean where
    it was. *)
Lemma Qsum_imputed stat col :
  Qsum (map (mean_imputer_transform stat) col) ==
    Qsum (omap id col) + (Qlen col - Qlen (omap id col)) * stat.
Proof.
  induction col as [|[v|] col IH].
  - change (0 == 0 + (0 - 0) * stat). ring.
  - cbn [map omap list_omap id mean_imputer_transform] in IH |- *.
    rewrite !Qsum_cons, IH, !Qlen_cons. ring.
  - cbn [map omap list_omap id mean_imputer_transform] in IH |- *.
    rewrite Qsum_cons, IH, Qlen_cons. ring.
Qed.

Lemma mean_imputer_fit_Some col stat :
  mean_imputer_fit col = Some stat ->
  omap id col <> [] /\ stat = Qmean (omap id col).
Proof.
  unfold mean_imputer_fit. destruct (omap id col) eqn:E; [ discriminate | ].
  intros H. injection H as <-. split; [ discriminate | reflexivity ].
Qed.

Lemma present_length_le {A} (col : list (option A)) :
  (length (omap id col) <= length col)%nat.
Proof.
  induction col as [|[a|] col IH]; cbn; lia.
Qed.

Lemma imputed_mean col stat :
  mean_imputer_fit col = Some stat ->
  Qmean (map (mean_imputer_transform stat) col) == stat.
Proof.
  intros H. apply mean_imputer_fit_Some in H as [Hne ->].
  unfold Qmean at 1. rewrite Qsum_imputed.
  pose proof (Qlen_pos _ Hne) as Hm.
  assert (Hn : 0 < Qlen col).
  { eapply Qlt_le_trans; [ exact Hm | ].
    unfold Qlen. rewrite <- Zle_Qle. pose proof (present_length_le col). lia. }
  unfold Qmean.
  replace (Qlen (map _ col)) with (Qlen col)
    by (unfold Qlen; now rewrite length_map).
  generalize dependent (Qlen col). generalize dependent (Qlen (omap id col)).
  generalize (Qsum (omap id col)). intros s m Hm n Hn.
  field. split; lra.
Qed.

Lemma numerical_fit_mean sqrt col nc :
  numerical_fit sqrt col = Some nc ->
  mean_imputer_fit col = Some (statistics_ nc) /\
  mean_ (scaler nc) == statistics_ nc.
Proof.
  unfold numerical_fit.
  destruct (mean_imputer_fit col) as [stat|] eqn:E; [ | discriminate ].
  intros H. injection H as <-. cbn. split; [ reflexivity | ].
  now apply imputed_mean.
Qed.

Lemma Qsum_centred m s l :
  Qsum (map (fun x => (x - m) / s) l) == (Qsum l - Qlen l * m) / s.
Proof.
  induction l as [|x l IH].
  - change (0 == (0 - 0 * m) / s). unfold Qdiv. ring.
  - cbn [map]. rewrite !Qsum_cons, IH, Qlen_cons. unfold Qdiv. ring.
Qed.

End EncodingFacts.

Module ImputerFacts.
Import Preprocessing Sklearn NumericFacts PreprocessingFacts Vocabulary
  VocabularyFacts.

Lemma fold_most_frequent_Some (xs : list string) l : forall b,
  is_Some
    (fold_left
       (fun best c =>
          match best with
          | None => Some c
          | Some b =>
              if Nat.ltb (count_occ_str b xs) (count_occ_str c xs)
              then Some c else Some b
          end) l (Some b)).
Proof.
  induction l as [|c l IH]; intros b; cbn [fold_left]; [ eauto | ].
  destruct (Nat.ltb (count_occ_str b xs) (count_occ_str c xs)); apply IH.
Qed.

Lemma unique_nonempty l : l <> [] -> unique l <> [].
Proof.
  destruct l as [|s l]; [ congruence | ]. intros _ E.
  assert (H : In s (unique (s :: l))) by (apply unique_In; now left).
  rewrite E in H. destruct H.
Qed.

(** A column with a value has a most frequent one. *)
Lemma most_frequent_fit_Some col s :
  In (Some s) col -> is_Some (most_frequent_fit col).
Proof.
  intros H. apply present_In in H. unfold most_frequent_fit.
  destruct (unique (omap id col)) as [|c l] eqn:E.
  - destruct (unique_nonempty (omap id col)); [ | exact E ].
    intros E'. rewrite E' in H. destruct H.
  - cbn. apply fold_most_frequent_Some.
Qed.

Lemma count_occ_str_Permutation s xs ys :
  Permutation xs ys -> count_occ_str s xs = count_occ_str s ys.
Proof.
  unfold count_occ_str.
  induction 1 as [|x xs ys _ IH|x y xs|xs ys zs _ IH1 _ IH2]; cbn.
  - reflexivity.
  - destruct (String.eqb s x); cbn; lia.
  - destruct (String.eqb s x), (String.eqb s y); reflexivity.
  - congruence.
Qed.

Lemma fold_left_ext_in {A B} (f g : A -> B -> A) l : forall a,
  (forall a b, f a b = g a b) -> fold_left f l a = fold_left g l a.
Proof.
  induction l as [|b l IH]; intros a H; cbn; [ reflexivity | ].
  rewrite H. now apply IH.
Qed.

Lemma most_frequent_fit_Permutation col col' :
  Permutation col col' -> most_frequent_fit col = most_frequent_fit col'.
Proof.
  intros H. unfold most_frequent_fit.
  assert (Hp : Permutation (omap id col) (omap id col')) by now rewrite H.
  rewrite (unique_same_values (omap id col) (omap id col')).
  2:{ intros s. split; apply Permutation_in; [ exact Hp | now symmetry ]. }
  apply fold_left_ext_in. intros [b|] c; [ | reflexivity ].
  now rewrite !(count_occ_str_Permutation _ _ _ Hp).
Qed.

Lemma categorical_fit_Permutation hu col col' :
  Permutation col col' -> categorical_fit hu col = categorical_fit hu col'.
Proof.
  intros H. unfold categorical_fit.
  rewrite (most_frequent_fit_Permutation col col' H).
  destruct (most_frequent_fit col') as [stat|]; [ | reflexivity ].
  unfold onehot_fit. do 3 f_equal.
  apply unique_same_values. intros s.
  assert (Hp : Permutation (map (most_frequent_transform stat) col)
                           (map (most_frequent_transform stat) col'))
    by now apply Permutation_map.
  split; apply Permutation_in; [ exact Hp | now symmetry ].
Qed.

End ImputerFacts.

Section Encoding.
Import Preprocessing Sklearn NumericFacts PreprocessingFacts Vocabulary
  VocabularyFacts EncodingFacts ImputerFacts.

(** X9.  Whatever a record holds (missing values, categories not seen
    at training, other columns), the fitted preprocessor of
    [create_ml_pipeline] encodes it, and always to a vector of
    [n_features_out] entries. *)
Theorem encoding_has_fixed_width (sqrt : Q -> Q) (X_train : DataFrame) (r : Row) :
  exists x,
    preprocessor_transform (preprocessor_fit sqrt X_train) r = Ok x /\
    length x = n_features_out (preprocessor_fit sqrt X_train).
Proof.
  pose proof (preprocessor_transform_fitted sqrt X_train r) as H. cbv zeta in H.
  eexists. split; [ exact H | ].
  now apply preprocessor_transform_length with r.
Qed.

(** X10.  A categorical value that was seen at training, or that is
    missing (it is imputed with the most frequent one), sets exactly one
    column of the feature's one-hot block: the entries are zeros and
    ones, and they add up to 1. *)
Theorem seen_category_sets_one_column
    (X_train : DataFrame) (name : string) (r r0 : Row) :
  In r0 X_train ->
  is_Some (str_cell name r0) ->
  str_cell name r = None \/ str_cell name r = str_cell name r0 ->
  Qsum (block X_train name r) == 1 /\
  Forall (fun q => q = 0 \/ q = 1) (block X_train name r).
Proof.
  intros Hin [s0 Hs0] Hr. unfold block.
  assert (Hcol : In (Some s0) (map (str_cell name) X_train)).
  { rewrite <- Hs0. now apply in_map. }
  destruct (categorical_fit HandleIgnore (map (str_cell name) X_train))
    as [cc|] eqn:Hfit.
  2:{ unfold categorical_fit in Hfit.
      destruct (most_frequent_fit_Some _ _ Hcol) as [stat Hstat].
      rewrite Hstat in Hfit. discriminate. }
  split; [ | apply indicator_bits ].
  set (v := most_frequent_transform (most_frequent cc) (str_cell name r)).
  assert (Hv : In v (categories_ (onehot cc))).
  { apply (vocabulary_is_training_values _ _ _ _ Hfit). subst v.
    destruct Hr as [-> | ->]; cbn.
    - unfold categorical_fit in Hfit.
      destruct (most_frequent_fit _) as [stat|] eqn:Hstat; [ | discriminate ].
      injection Hfit as <-. cbn. now apply most_frequent_fit_In.
    - rewrite Hs0. exact Hcol. }
  unfold indicator. rewrite indicator_sum.
  - apply known_true in Hv. unfold known in Hv. now rewrite Hv.
  - unfold categorical_fit in Hfit.
    destruct (most_frequent_fit _) as [stat|]; [ | discriminate ].
    injection Hfit as <-. cbn. apply unique_NoDup.
Qed.

Lemma seen_category_sets_one_column_witness :
  Qsum (block Examples.X_train "Field_of_Study"
          (Api.model_dump Examples.scenario_1)) == 1 /\
  Forall (fun q => q = 0 \/ q = 1)
    (block Examples.X_train "Field_of_Study"
       (Api.model_dump Examples.scenario_1)).
Proof.
  apply (seen_category_sets_one_column Examples.X_train "Field_of_Study"
           (Api.model_dump Examples.scenario_1)
           (Api.model_dump
              (Examples.student 8 "Computer Science" "Male" 2 7 6))).
  - left. reflexivity.
  - eexists. reflexivity.
  - right. reflexivity.
Defined.

(** X11.  A missing numerical value is imputed with the mean of the
    training column, which is what the scaler subtracts: it is encoded
    as 0. *)
Theorem missing_number_encodes_to_zero
    (sqrt : Q -> Q) (col : list (option Q)) (nc : NumericColumn) :
  numerical_fit sqrt col = Some nc ->
  numerical_transform nc None == 0.
Proof.
  intros H. apply numerical_fit_mean in H as [_ Hm].
  unfold numerical_transform, scaler_transform. cbn [mean_imputer_transform].
  rewrite Hm. unfold Qdiv. ring.
Qed.

Lemma missing_number_encodes_to_zero_witness :
  match numerical_fit Examples.sqrt_floor [Some 8; None; Some 6; Some 7] with
  | Some nc => numerical_transform nc None == 0
  | None => False
  end.
Proof.
  destruct (numerical_fit Examples.sqrt_floor [Some 8; None; Some 6; Some 7])
    as [nc|] eqn:E; [ | vm_compute in E; discriminate ].
  exact (missing_number_encodes_to_zero _ _ _ E).
Defined.

(** X12.  The standardised training column adds up to 0, whatever the
    scaling factor: the scaler centres on the mean of the imputed
    column. *)
Theorem training_column_is_centred
    (sqrt : Q -> Q) (col : list (option Q)) (nc : NumericColumn) :
  numerical_fit sqrt col = Some nc ->
  Qsum (map (numerical_transform nc) col) == 0.
Proof.
  intros H. pose proof (numerical_fit_scaler _ _ _ H) as Hs.
  apply numerical_fit_mean in H as [Hfit _].
  apply mean_imputer_fit_Some in Hfit as [Hne _].
  unfold numerical_transform, scaler_transform.
  rewrite <- (map_map (mean_imputer_transform (statistics_ nc))
                      (fun x => (x - mean_ (scaler nc)) / scale_ (scaler nc))).
  rewrite Qsum_centred. rewrite Hs at 1. cbn [mean_ scaler_fit].
  set (l := map (mean_imputer_transform (statistics_ nc)) col).
  assert (Hl : 0 < Qlen l).
  { apply Qlen_pos. subst l. destruct col; [ now destruct Hne | discriminate ]. }
  unfold Qmean.
  assert (E : Qsum l - Qlen l * (Qsum l / Qlen l) == 0) by (field; lra).
  rewrite E. unfold Qdiv. ring.
Qed.

Lemma training_column_is_centred_witness :
  match numerical_fit Examples.sqrt_floor [Some 8; None; Some 6; Some 7] with
  | Some nc =>
      Qsum (map (numerical_transform nc) [Some 8; None; Some 6; Some 7]) == 0
  | None => False
  end.
Proof.
  destruct (numerical_fit Examples.sqrt_floor [Some 8; None; Some 6; Some 7])
    as [nc|] eqn:E; [ | vm_compute in E; discriminate ].
  exact (training_column_is_centred _ _ _ E).
Defined.

(** X13.  The fitted categorical encoders (most frequent values and
    vocabularies, hence the one-hot block of every record) do not depend
    on the order of the training rows. *)
Theorem shuffling_keeps_the_categorical_encoder
    (sqrt : Q -> Q) (X_train X_shuffled : DataFrame) :
  Permutation X_train X_shuffled ->
  cat (preprocessor_fit sqrt X_train) = cat (preprocessor_fit sqrt X_shuffled) /\
  forall name r, block X_train name r = block X_shuffled name r.
Proof.
  intros H.
  assert (Hc : forall name,
    categorical_fit HandleIgnore (map (str_cell name) X_train) =
    categorical_fit HandleIgnore (map (str_cell name) X_shuffled)).
  { intros name. apply categorical_fit_Permutation. now apply Permutation_map. }
  split.
  - unfold preprocessor_fit. cbn [cat]. apply map_ext. intros name.
    unfold column_fit. f_equal. apply Hc.
  - intros name r. unfold block. now rewrite Hc.
Qed.

Lemma shuffling_keeps_the_categorical_encoder_witness :
  cat (preprocessor_fit Examples.sqrt_floor Examples.X_train) =
    cat (preprocessor_fit Examples.sqrt_floor (rev Examples.X_train)) /\
  forall name r,
    block Examples.X_train name r = block (rev Examples.X_train) name r.
Proof.
  apply (shuffling_keeps_the_categorical_encoder Examples.sqrt_floor
           Examples.X_train (rev Examples.X_train)).
  apply Permutation_rev.
Defined.

End Encoding.

(** ** The charts and the result panel *)

Module ChartFacts.
Import Js Operators Dashboard FeatureImportanceChart.

Lemma finite_key item :
  (match importance item with Finite _ => true | _ => false end) = true ->
  importance item = Finite (key item).
Proof. unfold key. now destruct (importance item). Qed.

Lemma insert_Permutation {A} (f : A -> A -> number) x l :
  Permutation (insert f x l) (x :: l).
Proof.
  induction l as [|y l IH]; cbn [insert]; [ reflexivity | ].
  destruct (lt_number (Finite 0) (f x y)); [ | reflexivity ].
  rewrite IH. apply perm_swap.
Qed.

Lemma sort_Permutation {A} (f : A -> A -> number) l : Permutation (sort f l) l.
Proof.
  induction l as [|x l IH]; cbn [sort fold_right]; [ reflexivity | ].
  rewrite insert_Permutation. constructor. exact IH.
Qed.

Lemma finite_Permutation l l' :
  Permutation l l' -> finite_importances l = true ->
  finite_importances l' = true.
Proof.
  unfold finite_importances. rewrite !forallb_forall.
  intros Hp H x Hx. apply H. eapply Permutation_in; [ symmetry; exact Hp | exact Hx ].
Qed.

(** On ordinary numbers the comparator asks whether [x] is the smaller
    one. *)
Lemma compareFn_finite x y :
  importance x = Finite (key x) -> importance y = Finite (key y) ->
  lt_number (Finite 0) (compareFn x y) = negb (Qle_bool (key y) (key x)).
Proof.
  intros Hx Hy. unfold compareFn. rewrite Hx, Hy. cbn.
  destruct (Qle_bool (key y) (key x)) eqn:E1;
    destruct (Qle_bool (key y - key x) 0) eqn:E2; try reflexivity.
  - apply Qle_bool_iff in E1.
    assert (key y - key x <= 0) by lra.
    apply Qle_bool_iff in H. congruence.
  - apply Qle_bool_iff in E2.
    assert (key y <= key x) by lra.
    apply Qle_bool_iff in H. congruence.
Qed.

Lemma insert_sorted_descending x l :
  importance x = Finite (key x) ->
  Forall (fun y => importance y = Finite (key y)) l ->
  StronglySorted descending l ->
  StronglySorted descending (insert compareFn x l).
Proof.
  intros Hx. induction l as [|y l IH]; intros Hf Hs; cbn [insert].
  - repeat constructor.
  - apply Forall_cons_iff in Hf as [Hy Hf].
    rewrite (compareFn_finite x y Hx Hy).
    apply StronglySorted_inv in Hs as [Hs Hy'].
    destruct (Qle_bool (key y) (key x)) eqn:E; cbn [negb].
    + apply Qle_bool_iff in E.
      constructor; [ now constructor | ].
      constructor; [ exact E | ].
      eapply Forall_impl; [ exact Hy' | ].
      unfold descending. intros z Hz. lra.
    + assert (key x < key y).
      { apply Qnot_le_lt. intros H. apply Qle_bool_iff in H. congruence. }
      constructor; [ now apply IH | ].
      apply List.Forall_forall. intros z Hz.
      apply (Permutation_in _ (insert_Permutation compareFn x l)) in Hz.
      destruct Hz as [<- | Hz].
      * unfold descending. lra.
      * rewrite List.Forall_forall in Hy'. now apply Hy'.
Qed.

Lemma finite_Forall l :
  finite_importances l = true ->
  Forall (fun y => importance y = Finite (key y)) l.
Proof.
  unfold finite_importances. rewrite forallb_forall, List.Forall_forall.
  intros H x Hx. now apply finite_key, H.
Qed.

Lemma sort_descending l :
  finite_importances l = true -> StronglySorted descending (sort compareFn l).
Proof.
  induction l as [|x l IH]; intros H; [ constructor | ].
  cbn [finite_importances forallb] in H. apply andb_prop in H as [Hx Hl].
  change (sort compareFn (x :: l)) with (insert compareFn x (sort compareFn l)).
  apply insert_sorted_descending.
  - now apply finite_key.
  - apply finite_Forall.
    apply (finite_Permutation l); [ symmetry; apply sort_Permutation | exact Hl ].
  - now apply IH.
Qed.

Lemma descending_not_below a b :
  importance a = Finite (key a) -> importance b = Finite (key b) ->
  descending a b -> not_below (importance a) (importance b).
Proof.
  intros Ha Hb H. unfold not_below. rewrite Ha, Hb. cbn.
  unfold descending in H. apply Qle_bool_iff in H. now rewrite H.
Qed.

Lemma StronglySorted_app_inv {A} (R : A -> A -> Prop) l1 l2 :
  StronglySorted R (l1 ++ l2) ->
  StronglySorted R l1 /\ StronglySorted R l2 /\
  forall a b, In a l1 -> In b l2 -> R a b.
Proof.
  induction l1 as [|x l1 IH]; cbn; intros H.
  - split; [ constructor | ]. split; [ exact H | ]. intros a b [].
  - apply StronglySorted_inv in H as [H Hx].
    destruct (IH H) as (H1 & H2 & H12).
    apply Forall_app in Hx as [Hx1 Hx2].
    split; [ now constructor | ]. split; [ exact H2 | ].
    intros a b [<- | Ha] Hb.
    + rewrite List.Forall_forall in Hx2. now apply Hx2.
    + now apply H12.
Qed.

Lemma StronglySorted_map {A B} (R : A -> A -> Prop) (S : B -> B -> Prop)
    (f : A -> B) l :
  (forall a b, In a l -> In b l -> R a b -> S (f a) (f b)) ->
  StronglySorted R l -> StronglySorted S (map f l).
Proof.
  induction l as [|x l IH]; cbn; intros Hf Hs; [ constructor | ].
  apply StronglySorted_inv in Hs as [Hs Hx].
  constructor.
  - apply IH; [ | exact Hs ]. intros a b Ha Hb. apply Hf; now right.
  - rewrite List.Forall_forall in *. intros y Hy.
    apply in_map_iff in Hy as (b & <- & Hb).
    apply Hf; [ now left | now right | now apply Hx ].
Qed.

(** Equal keys: insertion keeps the order of arrival. *)
Lemma insert_ties x l :
  importance x = Finite (key x) ->
  Forall (fun y => importance y = Finite (key y) /\ key y == key x) l ->
  insert compareFn x l = x :: l.
Proof.
  intros Hx Hl. destruct l as [|y l]; [ reflexivity | ].
  apply Forall_cons_iff in Hl as [[Hy Hk] _]. cbn [insert].
  rewrite (compareFn_finite x y Hx Hy).
  assert (H : key y <= key x) by lra.
  apply Qle_bool_iff in H. now rewrite H.
Qed.

Lemma sort_ties l c :
  Forall (fun y => importance y = Finite (key y) /\ key y == c) l ->
  sort compareFn l = l.
Proof.
  induction l as [|x l IH]; intros H; [ reflexivity | ].
  apply Forall_cons_iff in H as [[Hx Hc] Hl].
  change (sort compareFn (x :: l)) with (insert compareFn x (sort compareFn l)).
  rewrite (IH Hl). apply insert_ties; [ exact Hx | ].
  eapply Forall_impl; [ exact Hl | ].
  cbn. intros y [Hy Hyc]. split; [ exact Hy | lra ].
Qed.

End ChartFacts.

Section FeatureChart.
Import Js Operators Dashboard FeatureImportanceChart ChartFacts.

(** X14.  When the importances are ordinary numbers, the chart shows
    [min(10, n)] bars with as many labels, the bars never increase from
    one to the next, the features shown are features of the data and none
    of those left out has a larger importance than one that is shown.
    When all importances are equal the chart shows the first ten features
    in the order of the data. *)
Theorem chart_shows_the_top_ten (data : list FeatureImportance) :
  finite_importances data = true ->
  let chart := chartData data in
  length (labels chart) = Nat.min 10 (length data) /\
  length (dataset chart) = Nat.min 10 (length data) /\
  StronglySorted not_below (dataset chart) /\
  (exists hidden,
      Permutation data (sortedData data ++ hidden) /\
      forall shown rest,
        In shown (sortedData data) -> In rest hidden ->
        not_below (importance shown) (importance rest)) /\
  ((forall a b, In a data -> In b data -> importance a = importance b) ->
   sortedData data = take 10 data).
Proof.
  intros Hf. cbn zeta. unfold chartData. cbn [labels dataset].
  change (sortedData data) with (take 10 (sort compareFn data)).
  pose proof (sort_Permutation compareFn data) as Hp.
  pose proof (sort_descending data Hf) as Hs.
  assert (Hfs : Forall (fun y => importance y = Finite (key y))
                  (sort compareFn data)).
  { apply finite_Forall, (finite_Permutation data); [ now symmetry | exact Hf ]. }
  rewrite <- (take_drop 10 (sort compareFn data)) in Hs, Hfs.
  apply StronglySorted_app_inv in Hs as (Hs1 & _ & Hs12).
  apply Forall_app in Hfs as [Hf1 Hf2].
  rewrite List.Forall_forall in Hf1, Hf2.
  rewrite !length_map, !length_take, (Permutation_length Hp).
  split; [ lia | ]. split; [ lia | ]. split; [ | split ].
  - apply (StronglySorted_map descending); [ | exact Hs1 ].
    intros a b Ha Hb. apply descending_not_below; auto.
  - exists (drop 10 (sort compareFn data)). split.
    + rewrite take_drop. now symmetry.
    + intros a b Ha Hb. apply descending_not_below; auto.
  - intros Heq. f_equal.
    destruct data as [|d data]; [ reflexivity | ].
    apply (sort_ties _ (key d)).
    apply List.Forall_forall. intros y Hy. split.
    + apply finite_key. unfold finite_importances in Hf.
      rewrite forallb_forall in Hf. now apply Hf.
    + unfold key. rewrite (Heq y d Hy); [ reflexivity | now left ].
Qed.

Lemma chart_shows_the_top_ten_witness :
  length (labels (chartData Scenarios.importances)) = 10%nat /\
  StronglySorted not_below (dataset (chartData Scenarios.importances)).
Proof.
  destruct (chart_shows_the_top_ten Scenarios.importances)
    as (Hl & _ & Hs & _); [ reflexivity | ].
  split; [ exact Hl | exact Hs ].
Defined.

End FeatureChart.

Section Curve.
Import Js Operators Dashboard ROCCurveChart.

(** X15.  The ROC chart draws one point per entry of [fpr], labelled
    0, 1, 2, ...; the point at index [i] has an undefined [y] exactly when
    [tpr] has no entry [i], and entries of [tpr] beyond the length of
    [fpr] are not drawn.  When the two arrays have equal length the
    points are the pairs of their entries. *)
Theorem roc_chart_points (data : ROCCurveData) :
  length (curve data) = length (fpr data) /\
  labels data = seq 0 (length (fpr data)) /\
  (forall i p, curve data !! i = Some p ->
     (y p = JsUndefined <-> (length (tpr data) <= i)%nat)) /\
  (length (fpr data) = length (tpr data) ->
   curve data =
     zip_with (fun f t => {| x := JsNumber f; y := JsNumber t |})
              (fpr data) (tpr data)).
Proof.
  unfold curve, labels. split; [ apply length_imap | ]. split; [ | split ].
  - assert (H : forall (l : list number) k,
              imap (fun index _ => (k + index)%nat) l = seq k (length l)).
    { induction l as [|a l IH]; intros k; cbn; [ reflexivity | ].
      rewrite Nat.add_0_r. f_equal. rewrite <- IH.
      apply imap_ext. intros i b _. cbn. lia. }
    exact (H (fpr data) 0%nat).
  - intros i p Hp. rewrite list_lookup_imap in Hp.
    destruct (fpr data !! i) as [f|]; [ | discriminate ].
    cbn in Hp. injection Hp as <-. cbn [y]. unfold element.
    destruct (tpr data !! i) as [t|] eqn:Et.
    + apply lookup_lt_Some in Et. split; [ discriminate | lia ].
    + apply lookup_ge_None in Et. tauto.
  - generalize (tpr data) as ts. generalize (fpr data) as fs.
    intros fs ts Hlen. apply list_eq. intros i.
    rewrite list_lookup_imap, lookup_zip_with.
    destruct (fs !! i) as [f|] eqn:Ef; [ | reflexivity ].
    cbn. unfold element.
    destruct (ts !! i) as [t|] eqn:Et; [ reflexivity | ].
    apply lookup_lt_Some in Ef. apply lookup_ge_None in Et. lia.
Qed.

End Curve.

Module PanelFacts.
Import Js Operators Service ServiceFacts PredictionResult.

(** A probability between 1/4 and 3/4 has a confidence of at most 1/2.
    (For these probabilities the subtraction and the doubling are exact
    in floating point as well.) *)
Lemma moderate_in_the_middle p :
  (1 # 4) <= p <= (3 # 4) -> Qle_bool (calculate_confidence p) 0.5 = true.
Proof.
  intros H. apply Qle_bool_iff. rewrite calculate_confidence_half.
  assert (Ha : Qabs (p - (1 # 2)) <= (1 # 4))
    by (apply Qabs_Qle_condition; split; lra).
  lra.
Qed.

(** [confidence > 0.5] on a finite number. *)
Lemma gt_half c : Qle_bool c 0.5 = false <-> (1 # 2) < c.
Proof.
  destruct (Qle_bool c 0.5) eqn:E.
  - apply Qle_bool_iff in E. split; [ discriminate | intros H; lra ].
  - split; [ intros _ | reflexivity ].
    apply Qnot_le_lt. intros H.
    assert (H' : c <= 0.5) by lra.
    apply Qle_bool_iff in H'. congruence.
Qed.

Lemma is_one_iff z : Qeq_bool (inject_Z z) 1 = true <-> z = 1%Z.
Proof.
  rewrite Qeq_bool_iff. change 1 with (inject_Z 1).
  apply inject_Z_injective.
Qed.

End PanelFacts.

Section Panel.
Import Js Operators Sklearn Service Api ServiceFacts ApiFacts PredictionResult
  PanelFacts.

(** X16.  What the result panel shows for a response of
    [POST /predict]: the badge reads "High Confidence" exactly when the
    confidence of the response is above 0.5 and "Moderate Confidence"
    exactly when it is at most 0.5; a probability between 1/4 and 3/4
    always gives "Moderate Confidence"; the heading announces a
    successful career exactly when the label is 1; the percentage shown
    is the probability times 100. *)
Theorem panel_follows_the_response
    (body : RequestBody) (w w' : World) (r : PredictionResponse) :
  post_predict body w = (Ok r, w') ->
  let view := render (response_data r) in
  (badge view = "High Confidence"%string <-> (1 # 2) < confidence r) /\
  (badge view = "Moderate Confidence"%string <-> confidence r <= (1 # 2)) /\
  ((1 # 4) <= probability r <= (3 # 4) ->
   badge view = "Moderate Confidence"%string) /\
  (heading view = "Successful Career Predicted"%string <->
     predicted_label r = 1%Z) /\
  probability_percent view = Finite (probability r * 100).
Proof.
  intros H. unfold post_predict in H.
  destruct (validate body) as [student|e]; [ | discriminate ].
  apply body_Ok in H as [Hc _].
  cbn zeta. unfold render, isHighConfidence, isSuccessful, response_data, gt.
  cbn [badge heading probability_percent PredictionForm.confidence
       PredictionForm.predicted_label PredictionForm.probability
       ToNumber lt_number strict_equals strict_equals_number mul_number].
  split; [ | split; [ | split; [ | split; [ | reflexivity ] ] ] ].
  - rewrite <- gt_half.
    destruct (Qle_bool (confidence r) 0.5);
      cbn [negb]; split; intros E; (discriminate || reflexivity).
  - pose proof (gt_half (confidence r)) as Hh.
    destruct (Qle_bool (confidence r) 0.5) eqn:E; cbn [negb].
    + split; [ intros _ | reflexivity ].
      apply Qle_bool_iff in E. lra.
    + split; [ discriminate | ]. intros Hle.
      destruct Hh as [Hh _]. specialize (Hh eq_refl). lra.
  - intros Hp. rewrite Hc, (moderate_in_the_middle _ Hp). reflexivity.
  - rewrite <- is_one_iff.
    destruct (Qeq_bool (inject_Z (predicted_label r)) 1);
      split; intros E; (discriminate || reflexivity).
Qed.

Lemma panel_follows_the_response_witness :
  exists r,
    fst (post_predict Examples.scenario_1_body
           (fresh_process (Some Examples.tie_pipeline))) = Ok r /\
    (badge (render (response_data r)) = "Moderate Confidence"%string <->
       confidence r <= (1 # 2)).
Proof.
  destruct (post_predict Examples.scenario_1_body
              (fresh_process (Some Examples.tie_pipeline)))
    as [[r|e] w'] eqn:E; [ | vm_compute in E; discriminate ].
  exists r. split; [ reflexivity | ].
  exact (proj1 (proj2 (panel_follows_the_response _ _ _ _ E))).
Defined.

End Panel.

(** ** The pages and the navigation bar *)

Module PageFacts.
Import Js Operators.

(** A failed fetch always leaves a message to show. *)
Lemma or_default_truthy detail message :
  truthy (JsString message) = true ->
  truthy (or detail (JsString message)) = true.
Proof.
  intros H. unfold or. destruct (truthy detail) eqn:E; [ exact E | exact H ].
Qed.

(** [toFixed] on a property gives a number exactly when the property is
    there and holds one. *)
Lemma toFixed_get o name n :
  HistoryTable.toFixed (get o name) = Some n <-> o !! name = Some (JsNumber n).
Proof.
  unfold get, HistoryTable.toFixed. destruct (o !! name) as [[]|]; cbn; split; congruence.
Qed.

(** A row is built exactly for the records whose scores can be printed,
    from these scores. *)
Lemma row_Some index record r :
  HistoryTable.row index record = Some r <->
  exists o,
    HistoryTable.input record = Some o /\
    o !! "University_GPA"%string = Some (JsNumber (HistoryTable.gpa r)) /\
    o !! "Soft_Skills_Score"%string =
      Some (JsNumber (HistoryTable.soft_skills r)) /\
    o !! "Networking_Score"%string =
      Some (JsNumber (HistoryTable.networking r)) /\
    r = {| HistoryTable.key := HistoryTable.id record;
           HistoryTable.background :=
             if Nat.eqb (index mod 2) 0 then "bg-gray-800" else "bg-gray-750";
           HistoryTable.gpa := HistoryTable.gpa r;
           HistoryTable.field_of_study := get o "Field_of_Study";
           HistoryTable.gender := get o "Gender";
           HistoryTable.internships := get o "Internships_Completed";
           HistoryTable.soft_skills := HistoryTable.soft_skills r;
           HistoryTable.networking := HistoryTable.networking r;
           HistoryTable.outcome_text :=
             if Operators.strict_equals (HistoryTable.predicted_label record)
                  (JsNumber (Finite 1))
             then "Successful" else "Not Successful";
           HistoryTable.probability_percent :=
             mul_number (ToNumber (HistoryTable.probability record))
               (Finite 100) |}.
Proof.
  unfold HistoryTable.row, HistoryTable.member.
  destruct (HistoryTable.input record) as [o|]; cbn [mbind option_bind].
  - destruct (HistoryTable.toFixed (get o "University_GPA")) as [g|] eqn:Eg;
      cbn [mbind option_bind].
    + destruct (HistoryTable.toFixed (get o "Soft_Skills_Score")) as [s|] eqn:Es;
        cbn [mbind option_bind].
      * destruct (HistoryTable.toFixed (get o "Networking_Score")) as [n|] eqn:En;
          cbn [mbind option_bind].
        -- apply toFixed_get in Eg, Es, En. split.
           ++ intros H. injection H as <-. exists o. cbn. auto.
           ++ intros (o' & Ho & Hg & Hs & Hn & Hr).
              injection Ho as <-. rewrite Hr. cbn.
              rewrite Eg in Hg. rewrite Es in Hs. rewrite En in Hn.
              injection Hg as <-. injection Hs as <-. injection Hn as <-.
              reflexivity.
        -- split; [ discriminate | ].
           intros (o' & Ho & _ & _ & Hn & _). injection Ho as <-.
           apply toFixed_get in Hn. congruence.
      * split; [ discriminate | ].
        intros (o' & Ho & _ & Hs & _). injection Ho as <-.
        apply toFixed_get in Hs. congruence.
    + split; [ discriminate | ].
      intros (o' & Ho & Hg & _). injection Ho as <-.
      apply toFixed_get in Hg. congruence.
  - split; [ discriminate | ]. intros (o' & Ho & _). discriminate.
Qed.

Lemma row_printable index record :
  is_Some (HistoryTable.row index record) <-> HistoryTable.printable record.
Proof.
  split.
  - intros [r Hr]. apply row_Some in Hr as (o & Ho & Hg & Hs & Hn & _).
    exists o, (HistoryTable.gpa r), (HistoryTable.soft_skills r),
      (HistoryTable.networking r). auto.
  - intros (o & g & s & n & Ho & Hg & Hs & Hn).
    unfold HistoryTable.row, HistoryTable.member. rewrite Ho.
    cbn [mbind option_bind].
    apply toFixed_get in Hg, Hs, Hn. rewrite Hg, Hs, Hn.
    cbn [mbind option_bind]. eauto.
Qed.

(** The rows are built when every record can be printed, and then row
    by row. *)
Lemma rows_Some data rows :
  HistoryTable.table_rows data = Some rows <->
  length rows = length data /\
  forall i record,
    data !! i = Some record ->
    exists r, rows !! i = Some r /\ HistoryTable.row i record = Some r.
Proof.
  unfold HistoryTable.table_rows. rewrite mapM_Some. split.
  - intros H. pose proof (Forall2_length _ _ _ H) as Hl.
    rewrite length_imap in Hl. split; [ now symmetry | ].
    intros i record Hi.
    destruct (Forall2_lookup_l _ _ _ i (HistoryTable.row i record) H)
      as (r & Hr & Hid).
    { rewrite list_lookup_imap, Hi. reflexivity. }
    exists r. split; [ exact Hr | exact Hid ].
  - intros [Hl H]. apply Forall2_same_length_lookup_2.
    { rewrite length_imap. now symmetry. }
    intros i x r Hx Hr. rewrite list_lookup_imap in Hx.
    destruct (data !! i) as [record|] eqn:Hi; [ | discriminate ].
    cbn in Hx. injection Hx as <-.
    destruct (H i record Hi) as (r' & Hr' & Hrow).
    congruence.
Qed.

Lemma rows_None data :
  HistoryTable.table_rows data = None ->
  exists i record,
    data !! i = Some record /\ ~ HistoryTable.printable record.
Proof.
  unfold HistoryTable.table_rows. rewrite mapM_None. intros H. apply Exists_exists in H as (x & Hin & Hx).
  apply list_elem_of_lookup in Hin as [i Hi].
  rewrite list_lookup_imap in Hi.
  destruct (data !! i) as [record|] eqn:Ei; [ | discriminate ].
  cbn in Hi. injection Hi as <-.
  exists i, record. split; [ exact Ei | ].
  intros Hp. apply (row_printable i) in Hp as [r Hr].
  rewrite Hr in Hx. discriminate.
Qed.

End PageFacts.

Section Pages.
Import Js Operators Dashboard PageFacts.

(** X17.  While a fetch is pending, the one on mount or a retry, the
    dashboard shows the skeleton.  When every fetch settles before the
    next one starts, what is shown once the last one has settled is
    decided by that fetch alone: after a failed fetch the error panel,
    with the detail of the error or, when that is missing or empty, the
    default message, so never an empty message; after a successful fetch
    the cards and the charts of the data just received, a previous error
    being cleared.  In particular the cards are never drawn without
    metrics, and with no fetch pending the skeleton is shown only before
    the first fetch has settled. *)
Theorem dashboard_shows_the_last_fetch (outcomes : list DashboardPage.settled) :
  DashboardPage.render
    (DashboardPage.fetchMetrics_requested (DashboardPage.fetches outcomes)) =
    DashboardPage.Skeleton /\
  match DashboardPage.render (DashboardPage.fetches outcomes) with
  | DashboardPage.Skeleton => outcomes = []
  | DashboardPage.ErrorPanel message =>
      exists earlier detail,
        outcomes = earlier ++ [DashboardPage.Rejected detail] /\
        message = or detail (JsString "Failed to load metrics") /\
        truthy message = true
  | DashboardPage.Page cards charts =>
      exists earlier data,
        outcomes = earlier ++ [DashboardPage.Fulfilled data] /\
        cards = metric_cards (Some data) /\
        charts = Some (feature_importances data, roc_curve data)
  end.
Proof.
  split; [ reflexivity | ].
  destruct outcomes as [|o l _] using rev_ind; [ reflexivity | ].
  unfold DashboardPage.fetches. rewrite fold_left_app. cbn [fold_left].
  fold (DashboardPage.fetches l).
  destruct o as [data|detail]; unfold DashboardPage.render; cbn.
  - eauto.
  - rewrite or_default_truthy by reflexivity. eauto 6 using or_default_truthy.
Qed.

(** X18.  While a fetch is pending, the one on mount or a retry, the
    history page shows the spinner.  When every fetch settles before the
    next one starts, what is shown once the last one has settled is
    decided by that fetch alone: the error panel after a failure, "No
    Predictions Yet" after an empty answer, and otherwise the table,
    provided that every record received has an input in which the GPA,
    the soft skills score and the networking score are numbers; when one
    of the records has not, rendering throws and nothing is shown.  The
    table has one row per record, in their order, with the number of
    records in the footer; a row prints the three scores of its record,
    reads "Successful" exactly when the record's label is the number 1,
    and has the background [bg-gray-800] exactly at the even
    positions. *)
Theorem history_shows_the_last_fetch (outcomes : list HistoryTable.settled) :
  HistoryTable.render
    (HistoryTable.fetchHistory_requested (HistoryTable.fetches outcomes)) =
    HistoryTable.Spinner /\
  match HistoryTable.render (HistoryTable.fetches outcomes) with
  | HistoryTable.Spinner => outcomes = []
  | HistoryTable.ErrorPanel message =>
      exists earlier detail,
        outcomes = earlier ++ [HistoryTable.Rejected detail] /\
        message = or detail (JsString "Failed to load prediction history") /\
        truthy message = true
  | HistoryTable.NoPredictionsYet =>
      exists earlier, outcomes = earlier ++ [HistoryTable.Fulfilled []]
  | HistoryTable.Throws =>
      exists earlier data i record,
        outcomes = earlier ++ [HistoryTable.Fulfilled data] /\
        data !! i = Some record /\
        ~ HistoryTable.printable record
  | HistoryTable.Table rows showing =>
      exists earlier data,
        outcomes = earlier ++ [HistoryTable.Fulfilled data] /\
        data <> [] /\
        Forall HistoryTable.printable data /\
        showing = length data /\
        length rows = length data /\
        forall i record,
          data !! i = Some record ->
          exists r o,
            rows !! i = Some r /\
            HistoryTable.input record = Some o /\
            HistoryTable.key r = HistoryTable.id record /\
            o !! "University_GPA"%string =
              Some (JsNumber (HistoryTable.gpa r)) /\
            o !! "Soft_Skills_Score"%string =
              Some (JsNumber (HistoryTable.soft_skills r)) /\
            o !! "Networking_Score"%string =
              Some (JsNumber (HistoryTable.networking r)) /\
            HistoryTable.field_of_study r = get o "Field_of_Study" /\
            HistoryTable.gender r = get o "Gender" /\
            HistoryTable.internships r = get o "Internships_Completed" /\
            (HistoryTable.outcome_text r = "Successful"%string <->
             strict_equals (HistoryTable.predicted_label record)
               (JsNumber (Finite 1)) = true) /\
            HistoryTable.probability_percent r =
              mul_number (ToNumber (HistoryTable.probability record))
                (Finite 100) /\
            (HistoryTable.background r = "bg-gray-800"%string <-> Nat.Even i)
  end.
Proof.
  split; [ reflexivity | ].
  destruct outcomes as [|o l _] using rev_ind; [ reflexivity | ].
  unfold HistoryTable.fetches. rewrite fold_left_app. cbn [fold_left].
  fold (HistoryTable.fetches l).
  destruct o as [data|detail]; unfold HistoryTable.render;
    cbn [HistoryTable.fetchHistory HistoryTable.fetchHistory_settled
         HistoryTable.fetchHistory_requested HistoryTable.loading
         HistoryTable.error HistoryTable.predictions truthy].
  - destruct data as [|d data]; [ cbn; eauto | ].
    cbn [length Nat.eqb].
    destruct (HistoryTable.table_rows (d :: data)) as [rows|] eqn:E.
    + apply rows_Some in E as [Hl Hrows].
      exists l, (d :: data). split; [ reflexivity | ]. split; [ discriminate | ].
      split.
      { apply Forall_lookup. intros i record Hi.
        destruct (Hrows i record Hi) as (r & _ & Hr).
        apply (row_printable i). eauto. }
      split; [ reflexivity | ]. split; [ exact Hl | ].
      intros i record Hi.
      destruct (Hrows i record Hi) as (r & Hri & Hr).
      apply row_Some in Hr as (o & Ho & Hg & Hs & Hn & Hr).
      exists r, o.
      split; [ exact Hri | ]. split; [ exact Ho | ].
      split; [ rewrite Hr; reflexivity | ].
      split; [ exact Hg | ]. split; [ exact Hs | ]. split; [ exact Hn | ].
      split; [ rewrite Hr; reflexivity | ].
      split; [ rewrite Hr; reflexivity | ].
      split; [ rewrite Hr; reflexivity | ].
      split; [ | split; [ rewrite Hr; reflexivity | ] ];
        rewrite Hr;
        cbn [HistoryTable.outcome_text HistoryTable.background].
      * destruct (strict_equals _ _); split; intros E;
          (discriminate || reflexivity).
      * destruct (Nat.eqb (i mod 2) 0) eqn:E.
        -- apply Nat.eqb_eq in E. split; [ intros _ | reflexivity ].
           exists (i / 2)%nat. pose proof (Nat.div_mod_eq i 2). lia.
        -- apply Nat.eqb_neq in E. split; [ discriminate | ].
           intros [k Hk]. subst i. destruct E.
           rewrite Nat.mul_comm. apply Nat.Div0.mod_mul.
    + apply rows_None in E as (i & record & Hi & Hp).
      exists l, (d :: data), i, record. auto.
  - rewrite or_default_truthy by reflexivity. eauto 6 using or_default_truthy.
Qed.

End Pages.

Section Navigation.
Import Navbar.

(** X19.  At most one link of the navigation bar is active; an active
    link leads to the current path, and one is active whenever the
    current path is one of the four routes. *)
Theorem at_most_one_link_is_active (pathname : string) :
  (length (List.filter active (NavLinks pathname)) <= 1)%nat /\
  (forall link, In link (NavLinks pathname) ->
                active link = true -> to link = pathname) /\
  (In pathname (map to (NavLinks pathname)) ->
   length (List.filter active (NavLinks pathname)) = 1%nat).
Proof.
  unfold NavLinks, isActive. cbn [map to].
  destruct (String.eqb_spec pathname "/") as [-> | H1];
    [ cbn; repeat split; try lia;
      intros link [<- | [<- | [<- | [<- | []]]]]; cbn; congruence | ].
  destruct (String.eqb_spec pathname "/dashboard") as [-> | H2];
    [ cbn; repeat split; try lia;
      intros link [<- | [<- | [<- | [<- | []]]]]; cbn; congruence | ].
  destruct (String.eqb_spec pathname "/predict") as [-> | H3];
    [ cbn; repeat split; try lia;
      intros link [<- | [<- | [<- | [<- | []]]]]; cbn; congruence | ].
  destruct (String.eqb_spec pathname "/history") as [-> | H4];
    [ cbn; repeat split; try lia;
      intros link [<- | [<- | [<- | [<- | []]]]]; cbn; congruence | ].
  cbn. split; [ lia | ]. split.
  - intros link [<- | [<- | [<- | [<- | []]]]]; cbn; congruence.
  - intros [E | [E | [E | [E | []]]]]; congruence.
Qed.

End Navigation.

(** ** The form and the API *)

Module SubmitFacts.
Import Js PredictionForm FormFacts Client.

Lemma add_error_empty c f m (e : gmap string (option string)) :
  add_error c f m e = ∅ <-> c = false /\ e = ∅.
Proof.
  unfold add_error. destruct c.
  - split; [ intros H; now apply insert_non_empty in H | intros [? _]; discriminate ].
  - split; [ auto | tauto ].
Qed.

(** No error is recorded exactly when the six tests of [validateForm]
    all fail. *)
Lemma newErrors_empty o :
  newErrors o = ∅ <->
  lt (get o "University_GPA") (Finite 0) ||
    gt (get o "University_GPA") (Finite 10) = false /\
  not (get o "Field_of_Study") = false /\
  not (get o "Gender") = false /\
  lt (get o "Internships_Completed") (Finite 0) = false /\
  lt (get o "Soft_Skills_Score") (Finite 0) ||
    gt (get o "Soft_Skills_Score") (Finite 10) = false /\
  lt (get o "Networking_Score") (Finite 0) ||
    gt (get o "Networking_Score") (Finite 10) = false.
Proof.
  unfold newErrors. cbv zeta. rewrite !add_error_empty. tauto.
Qed.

(** [handleSubmit] posts exactly when [validateForm] found nothing. *)
Lemma handleSubmit_cases st :
  (newErrors (formData st) = ∅ /\
   handleSubmit st =
     ({| formData := formData st;
         prediction := None;
         loading := true;
         errors := ∅ |},
      Some (formData st))) \/
  (newErrors (formData st) <> ∅ /\ snd (handleSubmit st) = None).
Proof.
  unfold handleSubmit, validateForm.
  destruct (Nat.eqb (size (newErrors (formData st))) 0) eqn:E; cbn.
  - apply Nat.eqb_eq, map_size_empty_iff in E. left. now rewrite E.
  - apply Nat.eqb_neq in E. right. split; [ | reflexivity ].
    intros H. apply E. now rewrite H, map_size_empty.
Qed.

Lemma in_range q :
  lt (JsNumber (Finite q)) (Finite 0) || gt (JsNumber (Finite q)) (Finite 10) = false <->
  0 <= q <= 10.
Proof.
  unfold lt, gt. cbn. rewrite orb_false_iff, !negb_false_iff, <- !Qle_bool_iff.
  tauto.
Qed.

Lemma non_negative q :
  lt (JsNumber (Finite q)) (Finite 0) = false <-> 0 <= q.
Proof.
  unfold lt. cbn. now rewrite negb_false_iff, <- Qle_bool_iff.
Qed.

Lemma selected s : not (JsString s) = false <-> s <> ""%string.
Proof.
  unfold not. cbn. rewrite negb_false_iff, negb_true_iff. apply String.eqb_neq.
Qed.

(** Text properties hold strings in every state of the form. *)
Lemma handleChange_holds_string name value st k :
  In k text_fields ->
  holds_string (formData st) k ->
  holds_string (formData (handleChange name value st)) k.
Proof.
  intros Hk Hs. unfold holds_string. destruct (decide (name = k)) as [->|Hne].
  - rewrite handleChange_lookup. unfold changed_value.
    cbn in Hk. destruct Hk as [<- | [<- | []]]; cbn; eauto.
  - now rewrite handleChange_lookup_ne.
Qed.

Lemma changes_holds_string evs : forall st k,
  In k text_fields ->
  holds_string (formData st) k ->
  holds_string (formData (changes evs st)) k.
Proof.
  induction evs as [|[name value] evs IH]; intros st k Hk Hs; cbn [changes];
    [ exact Hs | ].
  apply IH; [ exact Hk | ]. now apply handleChange_holds_string.
Qed.

Lemma initial_holds_string k :
  In k text_fields -> holds_string (formData initial_state) k.
Proof.
  intros H. cbn in H. destruct H as [<- | [<- | []]]; eexists; reflexivity.
Qed.

Lemma json_number_Some (o : gmap string value) k n b :
  o !! k = Some (JsNumber n) -> json_number (o !! k) = Some b ->
  exists q, n = Finite q /\ b = Some q.
Proof.
  intros -> H. cbn in H. destruct n; try discriminate.
  destruct (large_integer_literal q); [ discriminate | ].
  injection H as <-. eauto.
Qed.

Lemma json_string_Some (o : gmap string value) k s b :
  o !! k = Some (JsString s) -> json_string (o !! k) = Some b -> b = Some s.
Proof. intros -> H. cbn in H. congruence. Qed.

End SubmitFacts.

Section Submission.
Import Js PredictionForm FormFacts Api Contract ContractFacts Client SubmitFacts.

(** X20.  The form and the API disagree on the number of internships.
    When the form data hold numbers and strings (as they do in every
    state of the form), a modelled body that [handleSubmit] posts holds
    a non-negative number of internships, and the API accepts the body
    exactly when that number is whole and below 2^63.  It refuses a
    number with a fractional part with the single error [int_from_float]
    and a whole number of 2^63 or more, which is posted as a float from
    10^21 on, with the single error [int_parsing_size], both for
    [Internships_Completed]; the form reported neither.  (The whole
    numbers from 2^63 up to 10^21 are posted as integer literals: these
    bodies are not among the modelled ones.) *)
Theorem form_lets_fractions_through
    (st : State) (o : gmap string value) (b : RequestBody) :
  (forall name, In name numeric_fields -> holds_number (formData st) name) ->
  (forall name, In name text_fields -> holds_string (formData st) name) ->
  snd (handleSubmit st) = Some o ->
  request_body o = Some b ->
  exists q,
    body_Internships_Completed b = Some q /\
    0 <= q /\
    (is_integral q = false ->
     validate b =
       Raise (ValidationError
                [("Internships_Completed", "int_from_float")]%string)) /\
    (is_integral q = true -> inject_Z int64_bound <= q ->
     validate b =
       Raise (ValidationError
                [("Internships_Completed", "int_parsing_size")]%string)) /\
    (is_integral q = true -> q < inject_Z int64_bound ->
     is_Ok (validate b) = true).
Proof.
  intros Hnum Hstr Hs Hb.
  apply handleSubmit_body in Hs as Ho. subst o.
  destruct (handleSubmit_cases st) as [[He _] | [_ Hn]]; [ | congruence ].
  apply newErrors_empty in He as (E1 & E2 & E3 & E4 & E5 & E6).
  destruct (Hnum "University_GPA"%string) as (n1 & L1 & _); [ cbn; tauto | ].
  destruct (Hnum "Internships_Completed"%string) as (n4 & L4 & _); [ cbn; tauto | ].
  destruct (Hnum "Soft_Skills_Score"%string) as (n5 & L5 & _); [ cbn; tauto | ].
  destruct (Hnum "Networking_Score"%string) as (n6 & L6 & _); [ cbn; tauto | ].
  destruct (Hstr "Field_of_Study"%string) as (s2 & L2); [ cbn; tauto | ].
  destruct (Hstr "Gender"%string) as (s3 & L3); [ cbn; tauto | ].
  unfold request_body in Hb.
  destruct (json_number (formData st !! "University_GPA"%string)) as [b1|] eqn:J1;
    [ | discriminate ].
  destruct (json_string (formData st !! "Field_of_Study"%string)) as [b2|] eqn:J2;
    [ | discriminate ].
  destruct (json_string (formData st !! "Gender"%string)) as [b3|] eqn:J3;
    [ | discriminate ].
  destruct (json_number (formData st !! "Internships_Completed"%string)) as [b4|] eqn:J4;
    [ | discriminate ].
  destruct (json_number (formData st !! "Soft_Skills_Score"%string)) as [b5|] eqn:J5;
    [ | discriminate ].
  destruct (json_number (formData st !! "Networking_Score"%string)) as [b6|] eqn:J6;
    [ | discriminate ].
  injection Hb as <-.
  destruct (json_number_Some _ _ _ _ L1 J1) as (q1 & -> & ->).
  destruct (json_number_Some _ _ _ _ L4 J4) as (q4 & -> & ->).
  destruct (json_number_Some _ _ _ _ L5 J5) as (q5 & -> & ->).
  destruct (json_number_Some _ _ _ _ L6 J6) as (q6 & -> & ->).
  rewrite (json_string_Some _ _ _ _ L2 J2). rewrite (json_string_Some _ _ _ _ L3 J3).
  rewrite (get_lookup _ _ _ L1) in E1. rewrite (get_lookup _ _ _ L2) in E2.
  rewrite (get_lookup _ _ _ L3) in E3. rewrite (get_lookup _ _ _ L4) in E4.
  rewrite (get_lookup _ _ _ L5) in E5. rewrite (get_lookup _ _ _ L6) in E6.
  apply in_range in E1, E5, E6. apply non_negative in E4.
  apply selected in E2, E3.
  exists q4. split; [ reflexivity | ]. split; [ exact E4 | ].
  assert (V1 : validate_score "University_GPA" (Some q1) = inr q1)
    by now apply validate_score_inr.
  assert (V2 : validate_text "Field_of_Study" (Some s2) = inr s2)
    by now apply validate_text_inr.
  assert (V3 : validate_text "Gender" (Some s3) = inr s3)
    by now apply validate_text_inr.
  assert (V5 : validate_score "Soft_Skills_Score" (Some q5) = inr q5)
    by now apply validate_score_inr.
  assert (V6 : validate_score "Networking_Score" (Some q6) = inr q6)
    by now apply validate_score_inr.
  unfold validate. cbn [body_University_GPA body_Field_of_Study body_Gender
    body_Internships_Completed body_Soft_Skills_Score body_Networking_Score].
  rewrite V1, V2, V3, V5, V6.
  split; [ | split ].
  - intros Ei. unfold validate_count. rewrite Ei. reflexivity.
  - intros Ei Hbig. apply is_integral_iff in Ei as Hz. destruct Hz as [z Hz].
    unfold validate_count. rewrite Ei, (integral_value q4 z Hz). cbn [negb].
    assert (Hf : fits_int64 z = false).
    { destruct (fits_int64 z) eqn:Ef; [ | reflexivity ].
      apply fits_int64_iff in Ef. rewrite Hz, <- Zle_Qle in Hbig. lia. }
    rewrite Hf. reflexivity.
  - intros Ei Hsmall. apply is_integral_iff in Ei as [z Hz].
    assert (V4 : validate_count "Internships_Completed" (Some q4) = inr z).
    { apply validate_count_inr. exists q4.
      split; [ reflexivity | ]. split; [ exact Hz | ].
      rewrite Hz in E4, Hsmall. rewrite <- Zlt_Qlt in Hsmall.
      split; [ | exact Hsmall ].
      rewrite Zle_Qle. exact E4. }
    rewrite V4. reflexivity.
Qed.

Lemma form_lets_fractions_through_witness :
  exists b q,
    request_body (formData (changes Scenarios.typing_fraction initial_state))
      = Some b /\
    body_Internships_Completed b = Some q /\
    0 <= q /\
    validate b =
      Raise (ValidationError
               [("Internships_Completed", "int_from_float")]%string).
Proof.
  destruct (request_body
              (formData (changes Scenarios.typing_fraction initial_state)))
    as [b|] eqn:Eb; [ | vm_compute in Eb; discriminate ].
  destruct (form_lets_fractions_through
              (changes Scenarios.typing_fraction initial_state)
              (formData (changes Scenarios.typing_fraction initial_state)) b)
    as (q & Hq & H0 & Hv & _).
  - intros name Hn.
    apply changes_holds_number, initial_holds_number; exact Hn.
  - intros name Hn.
    apply changes_holds_string, initial_holds_string; exact Hn.
  - vm_compute. reflexivity.
  - exact Eb.
  - exists b, q. split; [ reflexivity | ]. split; [ exact Hq | ].
    split; [ exact H0 | ].
    apply Hv. vm_compute in Eb. injection Eb as <-. cbn in Hq.
    injection Hq as <-. reflexivity.
Defined.

(** X21.  When the numeric fields hold ordinary numbers, [handleSubmit]
    posts the form data, unchanged, exactly when no field is refused by
    the form; it then clears the errors and the previous prediction and
    sets the loading flag. *)
Theorem valid_form_is_posted (st : State) :
  finite_fields (formData st) ->
  (forall f, ~ form_offending (formData st) f) <->
  handleSubmit st =
    ({| formData := formData st;
        prediction := None;
        loading := true;
        errors := ∅ |},
     Some (formData st)).
Proof.
  intros Hfin. split.
  - intros Hno.
    destruct (handleSubmit_cases st) as [[_ H] | [Hne _]]; [ exact H | ].
    destruct Hne. apply newErrors_empty.
    destruct (Hfin "University_GPA"%string) as (q1 & L1); [ cbn; tauto | ].
    destruct (Hfin "Internships_Completed"%string) as (q4 & L4); [ cbn; tauto | ].
    destruct (Hfin "Soft_Skills_Score"%string) as (q5 & L5); [ cbn; tauto | ].
    destruct (Hfin "Networking_Score"%string) as (q6 & L6); [ cbn; tauto | ].
    rewrite (get_lookup _ _ _ L1), (get_lookup _ _ _ L4),
      (get_lookup _ _ _ L5), (get_lookup _ _ _ L6).
    rewrite !in_range, non_negative.
    assert (Hrange : forall q, ~ (q < 0 \/ 10 < q) -> 0 <= q <= 10).
    { intros q H. split; apply Qnot_lt_le; tauto. }
    split; [ apply Hrange; intros H; apply (Hno "University_GPA"%string);
             now apply form_gpa with q1 | ].
    split.
    { unfold not. apply negb_false_iff.
      destruct (truthy (get (formData st) "Field_of_Study")) eqn:E;
        [ reflexivity | ].
      destruct (Hno "Field_of_Study"%string). now constructor. }
    split.
    { unfold not. apply negb_false_iff.
      destruct (truthy (get (formData st) "Gender")) eqn:E; [ reflexivity | ].
      destruct (Hno "Gender"%string). now constructor. }
    split; [ apply Qnot_lt_le; intros H;
             apply (Hno "Internships_Completed"%string);
             now apply form_internships with q4 | ].
    split; apply Hrange; intros H.
    + apply (Hno "Soft_Skills_Score"%string). now apply form_soft_skills with q5.
    + apply (Hno "Networking_Score"%string). now apply form_networking with q6.
  - intros H f Hf. apply handleSubmit_offending in Hf as [Hf _].
    rewrite H in Hf. discriminate.
Qed.

Lemma valid_form_is_posted_witness :
  (forall f, ~ form_offending
                 (formData (changes Examples.typing initial_state)) f) <->
  handleSubmit (changes Examples.typing initial_state) =
    ({| formData := formData (changes Examples.typing initial_state);
        prediction := None;
        loading := true;
        errors := ∅ |},
     Some (formData (changes Examples.typing initial_state))).
Proof.
  apply (valid_form_is_posted (changes Examples.typing initial_state)).
  intros name H. cbn in H.
  destruct H as [<- | [<- | [<- | [<- | []]]]]; eexists; vm_compute; reflexivity.
Defined.

End Submission.

(** ** The training labels *)

Module TrainingFacts.
Import Training.

Lemma getitem_numeric df name :
  numeric_column df name ->
  getitem df name = Returned (map (fun r : Row => r !! name) (rows df)) /\
  existsb is_text (map (fun r : Row => r !! name) (rows df)) = false.
Proof.
  intros [Hc Hn]. unfold getitem. rewrite bool_decide_eq_true_2 by exact Hc.
  split; [ reflexivity | ].
  induction Hn as [|r l Hr _ IH]; cbn; [ reflexivity | ].
  now rewrite Hr, IH.
Qed.

(** The comparison of a cell with a bound. *)
Lemma reaches_iff (c : option cell) bound :
  (match c with Some (Num v) => Qle_bool bound v | _ => false end) = true <->
  exists v, c = Some (Num v) /\ bound <= v.
Proof.
  destruct c as [[v|s]|]; cbn.
  - rewrite Qle_bool_iff. split; [ eauto | ].
    intros (v' & E & H). now injection E as ->.
  - split; [ discriminate | intros (v & E & _); discriminate ].
  - split; [ discriminate | intros (v & E & _); discriminate ].
Qed.

End TrainingFacts.

Section Labels.
Import Training TrainingFacts.

(** X22.  On a frame whose columns [Starting_Salary] and
    [Career_Satisfaction] hold numbers or nothing,
    [create_target_variable] returns the frame with the same rows, each
    with the cell [Career_Success] added; the label is 0 or 1, and it is 1
    exactly when the row has a salary of at least 50000 and a
    satisfaction of at least 7.  A row that lacks one of the two values is
    labelled 0. *)
Theorem target_needs_both_thresholds (df : Frame) :
  numeric_column df "Starting_Salary" ->
  numeric_column df "Career_Satisfaction" ->
  exists labelled,
    create_target_variable df = Returned labelled /\
    length (rows labelled) = length (rows df) /\
    forall i r,
      rows df !! i = Some r ->
      exists label,
        rows labelled !! i =
          Some (<["Career_Success"%string := Num (inject_Z label)]> r) /\
        (label = 0 \/ label = 1)%Z /\
        (label = 1%Z <->
         exists salary satisfaction,
           r !! "Starting_Salary"%string = Some (Num salary) /\
           r !! "Career_Satisfaction"%string = Some (Num satisfaction) /\
           50000 <= salary /\ 7 <= satisfaction).
Proof.
  intros Hs Hc.
  destruct (getitem_numeric df _ Hs) as [Gs Ts].
  destruct (getitem_numeric df _ Hc) as [Gc Tc].
  unfold create_target_variable. rewrite Gs. cbn [then_].
  unfold ge at 1. rewrite Ts. cbn [then_]. rewrite Gc. cbn [then_].
  unfold ge at 1. rewrite Tc. cbn [then_].
  eexists. split; [ reflexivity | ].
  unfold setitem, astype_int, and_. cbn [rows].
  split.
  - rewrite length_zip_with, length_map, length_zip_with, !length_map. lia.
  - intros i r Hr.
    rewrite lookup_zip_with, Hr. cbn [mbind option_bind].
    rewrite list_lookup_fmap, lookup_zip_with, !list_lookup_fmap, Hr.
    cbn [fmap option_fmap option_map mbind option_bind].
    eexists. split; [ reflexivity | ].
    pose proof (reaches_iff (r !! "Starting_Salary"%string) 50000) as H1.
    pose proof (reaches_iff (r !! "Career_Satisfaction"%string) 7) as H2.
    destruct (match r !! "Starting_Salary"%string with
              | Some (Num v) => Qle_bool 50000 v
              | _ => false
              end);
      destruct (match r !! "Career_Satisfaction"%string with
                | Some (Num v) => Qle_bool 7 v
                | _ => false
                end); cbn [andb].
    + split; [ now right | ]. split; [ intros _ | reflexivity ].
      destruct (proj1 H1 eq_refl) as (s & Es & Hs').
      destruct (proj1 H2 eq_refl) as (c & Ec & Hc').
      exists s, c. auto.
    + split; [ now left | ]. split; [ discriminate | ].
      intros (s & c & Es & Ec & Hs' & Hc').
      assert (false = true) by (apply H2; eauto). discriminate.
    + split; [ now left | ]. split; [ discriminate | ].
      intros (s & c & Es & Ec & Hs' & Hc').
      assert (false = true) by (apply H1; eauto). discriminate.
    + split; [ now left | ]. split; [ discriminate | ].
      intros (s & c & Es & Ec & Hs' & Hc').
      assert (false = true) by (apply H1; eauto). discriminate.
Qed.

Lemma target_needs_both_thresholds_witness :
  exists labelled,
    create_target_variable Scenarios.graduates = Returned labelled /\
    length (rows labelled) = 3%nat.
Proof.
  destruct (target_needs_both_thresholds Scenarios.graduates)
    as (labelled & H & Hlen & _).
  - split; [ now apply (bool_decide_unpack _) | repeat constructor ].
  - split; [ now apply (bool_decide_unpack _) | repeat constructor ].
  - exists labelled. split; [ exact H | exact Hlen ].
Defined.

(** X23.  [create_target_variable] returns a frame only when both
    columns exist and neither holds a string: otherwise it raises. *)
Theorem target_needs_its_columns (df : Frame) :
  (exists labelled, create_target_variable df = Returned labelled) ->
  "Starting_Salary"%string ∈ columns df /\
  "Career_Satisfaction"%string ∈ columns df /\
  Forall (fun r : Row =>
            is_text (r !! "Starting_Salary"%string) = false /\
            is_text (r !! "Career_Satisfaction"%string) = false) (rows df).
Proof.
  intros [labelled H]. unfold create_target_variable, getitem in H.
  destruct (bool_decide ("Starting_Salary"%string ∈ columns df)) eqn:E1;
    [ | discriminate ].
  cbn [then_] in H. unfold ge at 1 in H.
  destruct (existsb is_text _) eqn:T1 in H; [ discriminate | ].
  cbn [then_] in H.
  destruct (bool_decide ("Career_Satisfaction"%string ∈ columns df)) eqn:E2;
    [ | discriminate ].
  cbn [then_] in H. unfold ge at 1 in H.
  destruct (existsb is_text _) eqn:T2 in H; [ discriminate | ].
  apply bool_decide_eq_true in E1, E2.
  split; [ exact E1 | ]. split; [ exact E2 | ].
  apply List.Forall_forall. intros r Hr.
  split.
  - destruct (is_text (r !! "Starting_Salary"%string)) eqn:E; [ | reflexivity ].
    assert (existsb is_text
              (map (fun r : Row => r !! "Starting_Salary"%string) (rows df)) = true).
    { apply existsb_exists. eexists. split; [ | exact E ].
      now apply (in_map (fun r : Row => r !! "Starting_Salary"%string)). }
    congruence.
  - destruct (is_text (r !! "Career_Satisfaction"%string)) eqn:E; [ | reflexivity ].
    assert (existsb is_text
              (map (fun r : Row => r !! "Career_Satisfaction"%string) (rows df)) = true).
    { apply existsb_exists. eexists. split; [ | exact E ].
      now apply (in_map (fun r : Row => r !! "Career_Satisfaction"%string)). }
    congruence.
Qed.

Lemma target_needs_its_columns_witness :
  "Starting_Salary"%string ∈ columns Scenarios.graduates /\
  "Career_Satisfaction"%string ∈ columns Scenarios.graduates.
Proof.
  destruct (target_needs_its_columns Scenarios.graduates) as (H1 & H2 & _).
  - eexists. vm_compute. reflexivity.
  - split; [ exact H1 | exact H2 ].
Defined.

End Labels.
